(** * SandScope upload / capture synchronisation pipeline

    A shallow embedding of the client-side JavaScript of the SandScope
    repository: the upload manager ([imgtodb/imgtodb/upload.js]), the
    geolocation manager ([imgtodb/imgtodb/geolocation.js]), the Supabase
    client wrapper (class [SupabaseClient]), the sensor trigger manager
    (class [SensorTriggerManager]) and the analysis manager
    ([SandScore-Frontend/analysis-manager.js]).

    Asynchronous JavaScript is modelled by explicit state passing: every
    [await] is a point where the environment answers, and the answers are
    read from an oracle [Env] indexed by the number of external calls made
    so far.  A thrown exception is the [Throw] result of the monad [M].
    What the code writes to the page (previews, progress bar, counters) is
    left out; what it shows with [showToast], what it calls and what it
    stores are kept. *)

From Stdlib Require Import ZArith NArith String Ascii List Lia.
From stdpp Require Import base option strings pretty list gmap.

Set Warnings "-register-all".
Open Scope Z_scope.

(** ** JavaScript values, as far as the code inspects them *)

Module Js.

(** JSON payloads received from the analysis service and from the
    database.  Numbers are only tested for truthiness and compared with
    zero by the code, so they are carried as integers. *)
Inductive value : Type :=
| Undefined
| Null
| Bool (b : bool)
| Num (n : Z)
| Str (s : string)
| Arr (items : list value)
| Obj (fields : list (string * value)).

(** [ToBoolean]: what [if (v)], [v && w] and [v || w] test. *)
Definition truthy (v : value) : bool :=
  match v with
  | Undefined | Null => false
  | Bool b => b
  | Num n => negb (n =? 0)
  | Str s => negb (String.eqb s "")
  | Arr _ | Obj _ => true
  end.

Fixpoint lookup_field (k : string) (fields : list (string * value)) : value :=
  match fields with
  | [] => Undefined
  | (k', v) :: rest => if String.eqb k k' then v else lookup_field k rest
  end.

(** [v.k]: reading a property of [null] or [undefined] throws a
    [TypeError] ([None]); a missing property reads as [undefined]. *)
Definition get (v : value) (k : string) : option value :=
  match v with
  | Undefined | Null => None
  | Obj fields => Some (lookup_field k fields)
  | Arr items =>
      Some (if String.eqb k "length" then Num (Z.of_nat (length items)) else Undefined)
  | Str s =>
      Some (if String.eqb k "length" then Num (Z.of_nat (String.length s)) else Undefined)
  | Bool _ | Num _ => Some Undefined
  end.

(** [a && b] and [a || b] return one of their operands. *)
Definition and_ (a b : value) : value := if truthy a then b else a.
Definition or_ (a b : value) : value := if truthy a then a else b.

(** [v > 0]: only a number (or something converting to one) can be
    greater than zero; [undefined > 0] is [false]. *)
Definition gt_zero (v : value) : bool :=
  match v with
  | Num n => 0 <? n
  | Bool b => b
  | _ => false
  end.

Definition empty_array : value := Arr [].

End Js.

(** ** Errors, results and the state-and-exception monad *)

Record JsError : Type := mkError { err_name : string; err_message : string }.

Definition Error (msg : string) : JsError := mkError "Error" msg.

Inductive result (A : Type) : Type :=
| Ok (a : A)
| Throw (e : JsError).
Arguments Ok {A} a.
Arguments Throw {A} e.

Definition is_ok {A} (r : result A) : bool :=
  match r with Ok _ => true | Throw _ => false end.

(** ** Configuration ([config.js]) *)

Record AppConfig : Type := {
  maxFileSize : N;
  allowedTypes : list string;
  maxFiles : Z
}.

Definition APP_CONFIG : AppConfig := {|
  maxFileSize := 10 * 1024 * 1024;
  allowedTypes := ["image/jpeg"; "image/png"; "image/gif"; "image/webp"]%string;
  maxFiles := 10
|}.

Record SupabaseConfig : Type := {
  url : string;
  bucketName : string;
  tableName : string
}.

Definition SUPABASE_CONFIG : SupabaseConfig := {|
  url := "https://dbhklkalmabfbeevkrak.supabase.co";
  bucketName := "images";
  tableName := "uploads"
|}.

(** ** Data model *)

(** A browser [File]: the three attributes the pipeline reads. *)
Record File : Type := mkFile {
  name : string;
  size : N;
  type : string
}.

(** A location fix as built by [getCurrentLocation]; [timestamp] is the
    ISO string of the instant of the fix, kept as milliseconds since the
    epoch (what [new Date(timestamp)] reads back). *)
Record Location : Type := mkLocation {
  latitude : Z;
  longitude : Z;
  accuracy : Z;
  timestamp : Z
}.

(** A row of the [uploads] table (a MediaAsset).  [capture_type] holds
    the column default ['manual'] when the client does not send one. *)
Record UploadRow : Type := mkUploadRow {
  row_id : option positive;
  file_name : string;
  file_size : N;
  file_type : string;
  file_url : option string;
  uploaded_at : Z;
  row_location : option Location;
  capture_type : string;
  trigger_id : option string;
  sensor_id : option string
}.

(** The row as the database stores it, with the identifier it generates. *)
Definition with_id (id : positive) (row : UploadRow) : UploadRow :=
  mkUploadRow (Some id) (file_name row) (file_size row) (file_type row) (file_url row)
              (uploaded_at row) (row_location row) (capture_type row) (trigger_id row)
              (sensor_id row).

(** A row of the [sensor_data] table (a CaptureTrigger). *)
Record TriggerRow : Type := mkTriggerRow {
  tr_id : string;
  button : string;
  created_at : Z;
  processed : bool;
  tr_sensor_id : option string
}.

Inductive ToastType : Type := info | success | warning | error.

(** Why [validateFile] rejects a file, in the order of its checks. *)
Inductive Reason : Type :=
| NotAnImage        (* 'Only image files are allowed' *)
| UnsupportedType   (* 'File type not supported' *)
| TooLarge          (* `File size exceeds ${maxSizeMB}MB limit` *)
| EmptyFile         (* 'File is empty' *)
| Duplicate.        (* 'Duplicate file' *)

(** The texts passed to [window.showToast], with the interpolated values
    as arguments. *)
Inductive Message : Type :=
| MsgRejected (errors : list (string * Reason))
| MsgMaxFiles (max allowedCount : Z)
| MsgNoFilesSelected
| MsgUploadInProgress
| MsgLocationRequired
| MsgUploadFailed (e : JsError)
| MsgUploadCancelled
| MsgCancelling
| MsgUploaded (count : nat)
| MsgPartlyUploaded (count failed : nat)
| MsgAllFailed
| MsgSelectionCleared
| MsgLocationDenied
| MsgNotConfigured.

Definition Toast : Type := (Message * ToastType)%type.

#[global] Instance Reason_eq_dec : EqDecision Reason.
Proof. solve_decision. Defined.
#[global] Instance ToastType_eq_dec : EqDecision ToastType.
Proof. solve_decision. Defined.
#[global] Instance File_eq_dec : EqDecision File.
Proof. solve_decision. Defined.

(** ** The environment: what the outside world answers *)

Inductive GeoErrorCode : Type := PERMISSION_DENIED | POSITION_UNAVAILABLE | TIMEOUT.

(** Answer of [navigator.geolocation.getCurrentPosition]. *)
Inductive GeoOutcome : Type :=
| GeoPosition (lat lon acc : Z)
| GeoError (code : GeoErrorCode) (msg : string).

(** Answer of a database call: the [{data, error}] envelope without or
    with an error, or a rejected promise. *)
Inductive DbOutcome : Type :=
| DbOk
| DbError (e : JsError)
| DbReject (e : JsError).

(** Answer of [fetch]: a rejected promise, or a response whose body is
    JSON ([Some]) or not ([None], [response.json()] then throws). *)
Inductive FetchOutcome : Type :=
| FetchRejects (e : JsError)
| FetchResponds (ok : bool) (status : Z) (body : option Js.value).

(** How the promise of [accessCameraAndCapture] settles. *)
Inductive CameraOutcome : Type :=
| CameraBlob (blob : File)
| CameraRejects (e : JsError).

Record Env : Type := {
  elapsed : nat -> Z;                 (* duration of the n-th external call *)
  geo_answer : nat -> GeoOutcome;
  storage_answer : nat -> option JsError;
  insert_answer : nat -> DbOutcome;
  insert_echo : nat -> bool;          (* does [.select()] return the new row *)
  update_answer : nat -> DbOutcome;
  analyze_answer : nat -> FetchOutcome;
  camera_answer : nat -> CameraOutcome;
  cancel_click : nat -> bool;         (* user pressed "cancel" before file n *)
  local_utc_offset : Z                (* browser time zone, ms east of UTC *)
}.

(** ** State *)

Inductive Permission : Type := prompt | granted | denied.

Record GeolocationManager : Type := mkGeo {
  currentLocation : option Location;
  isLocationEnabled : bool;
  locationPermission : Permission
}.

Record UploadManager : Type := mkUploadManager {
  selectedFiles : list File;
  isUploading : bool;
  uploadAborted : bool
}.

Inductive LogLevel : Type := level_info | level_error | level_capture.

(** One entry of the activity log of the trigger page. *)
Record Activity : Type := mkActivity {
  act_type : string;
  act_message : string;
  act_level : LogLevel
}.

Record SensorTriggerManager : Type := mkTriggerManager {
  totalTriggers : nat;
  todayTriggers : nat;
  successfulCaptures : nat;
  failedCaptures : nat;
  lastTriggerTime : option Z;
  lastProcessedId : option Z;
  lastCaptureTime : option Z;
  logContent : list Activity
}.

(** The hosted backend, shared by every browser session. *)
Record Remote : Type := mkRemote {
  bucket : gmap string File;
  uploads : list UploadRow;
  next_id : positive;
  sensor_data : list TriggerRow;
  analysis_posts : list (option positive * option string)
}.

(** What the code does that an observer can see, in order. *)
Inductive Event : Type :=
| EvValidate (f : File)
| EvFixRequest
| EvStoragePut (key : string)
| EvInsert (table : string)
| EvClaim (id : string)
| EvCameraOpen
| EvAnalyzePost
| EvProgress (percent : Z).

#[global] Instance Event_eq_dec : EqDecision Event.
Proof. solve_decision. Defined.

Record World : Type := mkWorld {
  now : Z;                                   (* [Date.now()] *)
  tick : nat;                                (* external calls made so far *)
  toasts : list Toast;                       (* [window.showToast], oldest first *)
  console : list Event;                      (* oldest first *)
  isConnected : bool;                        (* [SupabaseClient] has a client *)
  geolocation_supported : bool;              (* [navigator.geolocation] *)
  geolocationManager : option GeolocationManager;
  uploadManager : UploadManager;
  sensorTriggerManager : SensorTriggerManager;
  remote : Remote
}.

Definition set_now (v : Z) (w : World) : World :=
  mkWorld v (tick w) (toasts w) (console w) (isConnected w) (geolocation_supported w)
          (geolocationManager w) (uploadManager w) (sensorTriggerManager w) (remote w).
Definition set_tick (v : nat) (w : World) : World :=
  mkWorld (now w) v (toasts w) (console w) (isConnected w) (geolocation_supported w)
          (geolocationManager w) (uploadManager w) (sensorTriggerManager w) (remote w).
Definition set_toasts (v : list Toast) (w : World) : World :=
  mkWorld (now w) (tick w) v (console w) (isConnected w) (geolocation_supported w)
          (geolocationManager w) (uploadManager w) (sensorTriggerManager w) (remote w).
Definition set_console (v : list Event) (w : World) : World :=
  mkWorld (now w) (tick w) (toasts w) v (isConnected w) (geolocation_supported w)
          (geolocationManager w) (uploadManager w) (sensorTriggerManager w) (remote w).
Definition set_geolocationManager (v : option GeolocationManager) (w : World) : World :=
  mkWorld (now w) (tick w) (toasts w) (console w) (isConnected w) (geolocation_supported w)
          v (uploadManager w) (sensorTriggerManager w) (remote w).
Definition set_uploadManager (v : UploadManager) (w : World) : World :=
  mkWorld (now w) (tick w) (toasts w) (console w) (isConnected w) (geolocation_supported w)
          (geolocationManager w) v (sensorTriggerManager w) (remote w).
Definition set_sensorTriggerManager (v : SensorTriggerManager) (w : World) : World :=
  mkWorld (now w) (tick w) (toasts w) (console w) (isConnected w) (geolocation_supported w)
          (geolocationManager w) (uploadManager w) v (remote w).
Definition set_remote (v : Remote) (w : World) : World :=
  mkWorld (now w) (tick w) (toasts w) (console w) (isConnected w) (geolocation_supported w)
          (geolocationManager w) (uploadManager w) (sensorTriggerManager w) v.

(** ** The monad of the asynchronous code *)

Definition M (A : Type) : Type := World -> result A * World.

#[global] Instance M_ret : MRet M := fun A a w => (Ok a, w).
#[global] Instance M_bind : MBind M := fun A B f m w =>
  match m w with
  | (Ok a, w') => f a w'
  | (Throw e, w') => (Throw e, w')
  end.

Definition throw {A} (e : JsError) : M A := fun w => (Throw e, w).

(** [try { m } catch (e) { h e }] *)
Definition try_catch {A} (m : M A) (h : JsError -> M A) : M A := fun w =>
  match m w with
  | (Ok a, w') => (Ok a, w')
  | (Throw e, w') => h e w'
  end.

(** [try { m } finally { f }], where [f] does not throw. *)
Definition try_finally {A} (m : M A) (f : World -> World) : M A := fun w =>
  let (r, w') := m w in (r, f w').

Definition gets {A} (f : World -> A) : M A := fun w => (Ok (f w), w).
Definition modify (f : World -> World) : M unit := fun w => (Ok tt, f w).

Definition showToast (msg : Message) (ty : ToastType) : M unit :=
  modify (fun w => set_toasts (toasts w ++ [(msg, ty)]) w).

Definition log (ev : Event) : M unit :=
  modify (fun w => set_console (console w ++ [ev]) w).

Section WithEnv.

Variable env : Env.

(** An external call: the clock advances by the time the call takes and
    the call's index is returned to read the environment's answer. *)
Definition await_call : M nat := fun w =>
  (Ok (tick w), set_tick (S (tick w)) (set_now (now w + elapsed env (tick w)) w)).

End WithEnv.

(** ** [GeolocationManager] ([geolocation.js]) *)

Module Geolocation.
Section WithEnv.

Variable env : Env.

(** The freshness window of a cached fix: [5 * 60 * 1000] ms. *)
Definition freshness_window : Z := 5 * 60 * 1000.

Definition update_manager (f : GeolocationManager -> GeolocationManager) : M unit :=
  modify (fun w => set_geolocationManager (f <$> geolocationManager w) w).

Definition this_currentLocation : M (option Location) :=
  gets (fun w => g ← geolocationManager w; currentLocation g).

Definition checkGeolocationSupport : M bool :=
  supported ← gets geolocation_supported;
  if supported : bool then mret true
  else
    update_manager (fun g => mkGeo (currentLocation g) false (locationPermission g));;
    mret false.

Definition handleLocationError (code : GeoErrorCode) : M unit :=
  match code with
  | PERMISSION_DENIED =>
      update_manager (fun g => mkGeo (currentLocation g) false denied)
  | POSITION_UNAVAILABLE | TIMEOUT => mret tt
  end;;
  update_manager (fun g => mkGeo (currentLocation g) false (locationPermission g));;
  match code with
  | PERMISSION_DENIED => showToast MsgLocationDenied warning
  | _ => mret tt
  end.

(** [getCurrentLocation]: [null] without device support, otherwise one
    request to the device; a fix is cached and returned, an error is
    handled and rethrown. *)
Definition getCurrentLocation : M (option Location) :=
  supported ← checkGeolocationSupport;
  if negb supported then mret None
  else
    log EvFixRequest;;
    n ← await_call env;
    match geo_answer env n with
    | GeoPosition lat lon acc =>
        t ← gets now;
        let location := mkLocation lat lon acc t in
        update_manager (fun g => mkGeo (Some location) true (locationPermission g));;
        mret (Some location)
    | GeoError code msg =>
        handleLocationError code;;
        throw (mkError "GeolocationPositionError" msg)
    end.

(** [getLocationForUpload]: the cached fix unless it is missing or older
    than five minutes, in which case a fresh one is requested first. *)
Definition getLocationForUpload : M (option Location) :=
  supported ← checkGeolocationSupport;
  if negb supported then mret None
  else
    try_catch
      (t ← gets now;
       let fiveMinutesAgo := t - freshness_window in
       cached ← this_currentLocation;
       match cached with
       | Some loc =>
           if timestamp loc <? fiveMinutesAgo
           then getCurrentLocation;; mret tt
           else mret tt
       | None => getCurrentLocation;; mret tt
       end;;
       this_currentLocation)
      (fun _ => mret None).

End WithEnv.
End Geolocation.

(** ** [SupabaseClient]: storage, metadata and the upload sequence *)

Record UploadResult : Type := mkUploadResult {
  res_metadata : option UploadRow;    (* the spread [...metadata] *)
  storage_path : string;
  public_url : option string
}.

Module Supabase.
Section WithEnv.

Variable env : Env.

Definition update_remote (f : Remote -> Remote) : M unit :=
  modify (fun w => set_remote (f (remote w)) w).

Definition checkConnection : M bool :=
  connected ← gets isConnected;
  if connected : bool then mret true
  else showToast MsgNotConfigured error;; mret false.

(** The storage service's [upload] with [upsert: false]: the object is
    stored under [fileName] unless the call fails or the key is taken. *)
Definition storage_upload (fileName : string) (file : File) : M (option JsError) :=
  log (EvStoragePut fileName);;
  n ← await_call env;
  objects ← gets (fun w => bucket (remote w));
  match storage_answer env n with
  | Some e => mret (Some e)
  | None =>
      match objects !! fileName with
      | Some _ => mret (Some (Error "The resource already exists"))
      | None =>
          update_remote (fun r =>
            mkRemote (<[fileName := file]> (bucket r)) (uploads r) (next_id r)
                     (sensor_data r) (analysis_posts r));;
          mret None
      end
  end.

(** [uploadFile]: returns the stored object's path. *)
Definition uploadFile (file : File) (fileName : string) : M (option string) :=
  connected ← checkConnection;
  if negb connected then mret None
  else
    try_catch
      (if (size file =? 0)%N then throw (Error "File is empty or invalid")
       else if negb (String.prefix "image/" (type file))
       then throw (Error "File is not a valid image")
       else
         err ← storage_upload fileName file;
         match err with
         | Some e => throw e
         | None => mret (Some fileName)
         end)
      (fun e => throw (Error ("Upload failed: " +:+ err_message e))).

(** The storage service's public URL of a key: a string computation. *)
Definition storage_public_url (fileName : string) : string :=
  url SUPABASE_CONFIG +:+ "/storage/v1/object/public/" +:+
  bucketName SUPABASE_CONFIG +:+ "/" +:+ fileName.

Definition getPublicUrl (fileName : string) : M (option string) :=
  connected ← checkConnection;
  if negb connected then mret None
  else mret (Some (storage_public_url fileName)).

(** The database's [insert(...).select()] on the uploads table: the row
    receives its identifier and is appended. *)
Definition table_insert (uploadData : UploadRow) : M (result (list UploadRow)) :=
  log (EvInsert (tableName SUPABASE_CONFIG));;
  n ← await_call env;
  match insert_answer env n with
  | DbReject e => throw e
  | DbError e => mret (Throw e)
  | DbOk =>
      id ← gets (fun w => next_id (remote w));
      let row := with_id id uploadData in
      update_remote (fun r =>
        mkRemote (bucket r) (uploads r ++ [row]) (Pos.succ (next_id r))
                 (sensor_data r) (analysis_posts r));;
      mret (Ok (if insert_echo env n then [row] else []))
  end.

(** [saveUploadMetadata]: returns [data[0]]. *)
Definition saveUploadMetadata (uploadData : UploadRow) : M (option UploadRow) :=
  connected ← checkConnection;
  if negb connected then mret None
  else
    try_catch
      (r ← table_insert uploadData;
       match r with
       | Throw e => throw e
       | Ok data => mret (head data)
       end)
      (fun e => throw (Error ("Failed to save metadata: " +:+ err_message e))).

(** The instant rendered in the Asia/Kolkata zone (to the second) and
    parsed back in the browser's own zone. *)
Definition ist_time (t : Z) : Z :=
  t / 1000 * 1000 + (19800000 - local_utc_offset env).

(** The POST to the analysis service and the reading of its answer;
    everything thrown here is caught by the caller. *)
Definition trigger_analysis (id : positive) (publicUrl : option string) : M unit :=
  log EvAnalyzePost;;
  n ← await_call env;
  update_remote (fun r =>
    mkRemote (bucket r) (uploads r) (next_id r) (sensor_data r)
             (analysis_posts r ++ [(Some id, publicUrl)]));;
  match analyze_answer env n with
  | FetchRejects e => throw e
  | FetchResponds _ _ None => throw (mkError "SyntaxError" "Unexpected token")
  | FetchResponds _ _ (Some result) =>
      match Js.get result "success" with
      | None => throw (mkError "TypeError" "Cannot read properties of null")
      | Some _ => mret tt
      end
  end.

Definition progressCallback (percent : Z) : M unit := log (EvProgress percent).

(** The mandatory location step of [completeUpload]. *)
Definition location_for_upload : M Location :=
  manager ← gets geolocationManager;
  match manager with
  | Some _ =>
      try_catch
        (location ← Geolocation.getLocationForUpload env;
         match location with
         | Some loc => mret loc
         | None =>
             throw (Error "Location is required for upload. Please enable location access.")
         end)
        (fun _ => throw (Error
           "Location access is required for uploading. Please enable location permissions and try again."))
  | None =>
      throw (Error "Location service is not available. Please enable location access.")
  end.

(** [completeUpload]: storage object, public URL, location, metadata
    row, analysis trigger.  The outer [catch] rethrows. *)
Definition completeUpload (file : File) : M (option UploadResult) :=
  connected ← checkConnection;
  if negb connected then mret None
  else
    try_catch
      (timestamp ← gets now;
       let fileName := pretty timestamp +:+ "_" +:+ name file in
       progressCallback 25;;
       uploadResult ← uploadFile file fileName;
       progressCallback 50;;
       publicUrl ← getPublicUrl fileName;
       location ← location_for_upload;
       t ← gets now;
       let uploadData :=
         mkUploadRow None (name file) (size file) (type file) publicUrl
                     (ist_time t) (Some location) "manual" None None in
       progressCallback 75;;
       metadata ← saveUploadMetadata uploadData;
       progressCallback 100;;
       path ← match uploadResult with
              | Some p => mret p
              | None => throw (mkError "TypeError" "Cannot read properties of null")
              end;
       match metadata with
       | Some row =>
           match row_id row with
           | Some id => try_catch (trigger_analysis id publicUrl) (fun _ => mret tt)
           | None => mret tt
           end
       | None => mret tt
       end;;
       mret (Some (mkUploadResult metadata path publicUrl)))
      (fun e => throw e).

End WithEnv.
End Supabase.

(** ** [UploadManager] ([upload.js]) *)

Inductive Validation : Type :=
| Valid
| Invalid (reason : Reason).

#[global] Instance Validation_eq_dec : EqDecision Validation.
Proof. solve_decision. Defined.

Module Upload.

(** [existingFile.name === file.name && existingFile.size === file.size] *)
Definition same_file (file existingFile : File) : bool :=
  String.eqb (name existingFile) (name file) && (size existingFile =? size file)%N.

(** [validateFile], reading the configuration and [this.selectedFiles]. *)
Definition validateFile (cfg : AppConfig) (selected : list File) (file : File)
  : Validation :=
  if negb (String.prefix "image/" (type file)) then Invalid NotAnImage
  else if negb (existsb (String.eqb (type file)) (allowedTypes cfg))
  then Invalid UnsupportedType
  else if (maxFileSize cfg <? size file)%N then Invalid TooLarge
  else if (size file =? 0)%N then Invalid EmptyFile
  else if existsb (same_file file) selected then Invalid Duplicate
  else Valid.

(** [array.splice(start)]: removes everything from index [start] on; a
    negative [start] counts from the end. *)
Definition splice {A} (l : list A) (start : Z) : list A :=
  let len := Z.of_nat (length l) in
  let from := if start <? 0 then Z.max (len + start) 0 else Z.min start len in
  take (Z.to_nat from) l.

(** The validation loop of [addFiles]: every file is checked against the
    queue as it was when [addFiles] was called. *)
Fixpoint validate_all (cfg : AppConfig) (selected : list File) (files : list File)
  : list File * list (string * Reason) :=
  match files with
  | [] => ([], [])
  | file :: rest =>
      let (validFiles, errors) := validate_all cfg selected rest in
      match validateFile cfg selected file with
      | Valid => (file :: validFiles, errors)
      | Invalid reason => (validFiles, (name file, reason) :: errors)
      end
  end.

Definition update_manager (f : UploadManager -> UploadManager) : M unit :=
  modify (fun w => set_uploadManager (f (uploadManager w)) w).

Definition addFiles (cfg : AppConfig) (files : list File) : M unit :=
  selected ← gets (fun w => selectedFiles (uploadManager w));
  modify (fun w => set_console (console w ++ map EvValidate files) w);;
  let (validFiles, errors) := validate_all cfg selected files in
  match errors with
  | [] => mret tt
  | _ :: _ => showToast (MsgRejected errors) warning
  end;;
  let totalFiles := Z.of_nat (length selected) + Z.of_nat (length validFiles) in
  validFiles' ←
    (if maxFiles cfg <? totalFiles then
       let allowedCount := maxFiles cfg - Z.of_nat (length selected) in
       showToast (MsgMaxFiles (maxFiles cfg) allowedCount) warning;;
       mret (splice validFiles allowedCount)
     else mret validFiles);
  update_manager (fun m =>
    mkUploadManager (selectedFiles m ++ validFiles') (isUploading m) (uploadAborted m)).

Definition removeFile (index : nat) : M unit :=
  update_manager (fun m =>
    mkUploadManager (take index (selectedFiles m) ++ drop (S index) (selectedFiles m))
                    (isUploading m) (uploadAborted m)).

Definition cancelUpload : M unit :=
  update_manager (fun m => mkUploadManager [] (isUploading m) (uploadAborted m));;
  showToast MsgSelectionCleared info.

Definition cancelActiveUpload : M unit :=
  update_manager (fun m => mkUploadManager (selectedFiles m) (isUploading m) true);;
  showToast MsgCancelling info.

Section WithEnv.

Variable env : Env.

Definition checkLocationPermission : M bool :=
  try_catch
    (manager ← gets geolocationManager;
     match manager with
     | None => mret false
     | Some _ =>
         location ← Geolocation.getCurrentLocation env;
         match location with
         | None => mret false
         | Some _ => mret true
         end
     end)
    (fun _ => mret false).

(** The loop of [uploadFiles] from index [i] on; [successful] and
    [failed] count the entries of the two result arrays. *)
Fixpoint upload_loop (files : list File) (i : nat) (successful failed : nat)
  : M (nat * nat) :=
  match files with
  | [] => mret (successful, failed)
  | file :: rest =>
      (if cancel_click env i then cancelActiveUpload else mret tt);;
      aborted ← gets (fun w => uploadAborted (uploadManager w));
      if aborted : bool then mret (successful, failed)
      else
        ok ← try_catch (Supabase.completeUpload env file;; mret true)
                       (fun _ => mret false);
        if ok : bool
        then upload_loop rest (S i) (S successful) failed
        else upload_loop rest (S i) successful (S failed)
  end.

(** [uploadFiles]; the refresh of the history view after a fully
    successful upload only reads and is left out. *)
Definition uploadFiles : M unit :=
  files ← gets (fun w => selectedFiles (uploadManager w));
  counts ← upload_loop files 0 0 0;
  let (successful, failed) := (counts : nat * nat) in
  aborted ← gets (fun w => uploadAborted (uploadManager w));
  if aborted : bool then showToast MsgUploadCancelled warning
  else if Nat.eqb failed 0 then
    showToast (MsgUploaded successful) success;;
    cancelUpload
  else if Nat.ltb 0 successful then
    showToast (MsgPartlyUploaded successful failed) warning
  else showToast MsgAllFailed error.

Definition startUpload : M unit :=
  files ← gets (fun w => selectedFiles (uploadManager w));
  uploading ← gets (fun w => isUploading (uploadManager w));
  match files with
  | [] => showToast MsgNoFilesSelected warning
  | _ :: _ =>
      if uploading : bool then showToast MsgUploadInProgress warning
      else
        allowed ← checkLocationPermission;
        if negb allowed then showToast MsgLocationRequired error
        else
          update_manager (fun m => mkUploadManager (selectedFiles m) true false);;
          try_finally
            (try_catch uploadFiles (fun e => showToast (MsgUploadFailed e) error))
            (fun w => set_uploadManager
                        (mkUploadManager (selectedFiles (uploadManager w)) false
                                         (uploadAborted (uploadManager w))) w)
  end.

End WithEnv.
End Upload.

(** ** [SensorTriggerManager]: claiming and processing a CaptureTrigger *)

Module Trigger.

Definition update_manager (f : SensorTriggerManager -> SensorTriggerManager) : M unit :=
  modify (fun w => set_sensorTriggerManager (f (sensorTriggerManager w)) w).

(** The activity log keeps the newest entry first and at most 50. *)
Definition log_capacity : nat := 50.

Definition logActivity (type message : string) (level : LogLevel) : M unit :=
  update_manager (fun m =>
    mkTriggerManager (totalTriggers m) (todayTriggers m) (successfulCaptures m)
      (failedCaptures m) (lastTriggerTime m) (lastProcessedId m) (lastCaptureTime m)
      (take log_capacity (mkActivity type message level :: logContent m))).

Definition short_id (id : string) : string := String.substring 0 8 id.

(** The row filter of the claim: [.eq('id', triggerId).eq('processed', false)]. *)
Definition claimable (triggerId : string) (row : TriggerRow) : bool :=
  String.eqb (tr_id row) triggerId && negb (processed row).

Definition mark_row (triggerId : string) (row : TriggerRow) : TriggerRow :=
  if claimable triggerId row
  then mkTriggerRow (tr_id row) (button row) (created_at row) true (tr_sensor_id row)
  else row.

(** The database's conditional update, in one atomic step: it returns
    the rows it changed. *)
Definition table_update (triggerId : string) (r : Remote) : list TriggerRow * Remote :=
  (map (mark_row triggerId) (filter (fun row => Is_true (claimable triggerId row)) (sensor_data r)),
   mkRemote (bucket r) (uploads r) (next_id r)
            (map (mark_row triggerId) (sensor_data r)) (analysis_posts r)).

Section WithEnv.

Variable env : Env.

(** [markTriggerAsProcessed]: [true] only when the update reported no
    error and changed at least one row. *)
Definition markTriggerAsProcessed (triggerId : string) : M bool :=
  try_catch
    (log (EvClaim triggerId);;
     n ← await_call env;
     match update_answer env n with
     | DbReject e => throw e
     | DbError e => mret false
     | DbOk =>
         r ← gets remote;
         let (data, r') := table_update triggerId r in
         modify (set_remote r');;
         match data with
         | [] => mret false
         | _ :: _ => mret true
         end
     end)
    (fun _ => mret false).

Definition accessCameraAndCapture : M File :=
  log EvCameraOpen;;
  n ← await_call env;
  match camera_answer env n with
  | CameraBlob blob => mret blob
  | CameraRejects e => throw e
  end.

(** [captureTriggeredPhoto]: location, camera, storage, metadata. *)
Definition captureTriggeredPhoto (trigger : TriggerRow) : M bool :=
  try_catch
    (manager ← gets geolocationManager;
     match manager with
     | None =>
         logActivity "Error" "Geolocation manager not available" level_error;;
         mret false
     | Some _ =>
         located ← try_catch
           (location ← Geolocation.getCurrentLocation env;
            match location with
            | Some loc => mret (Some loc)
            | None => throw (Error "Location is required for triggered capture")
            end)
           (fun e =>
              logActivity "Error" ("Location failed: " +:+ err_message e) level_error;;
              mret None);
         match located with
         | None => mret false
         | Some loc =>
             imageBlob ← accessCameraAndCapture;
             timestamp ← gets now;
             let fileName := "trigger_capture_" +:+ pretty timestamp +:+ "_" +:+
                             short_id (tr_id trigger) +:+ ".jpg" in
             let file := mkFile fileName (size imageBlob) "image/jpeg" in
             uploadResult ← Supabase.uploadFile env file fileName;
             match uploadResult with
             | None =>
                 logActivity "Error" "File upload to storage failed" level_error;;
                 mret false
             | Some _ =>
                 publicUrl ← Supabase.getPublicUrl fileName;
                 match publicUrl with
                 | None =>
                     logActivity "Error" "Failed to get public URL" level_error;;
                     mret false
                 | Some _ =>
                     t ← gets now;
                     let uploadData :=
                       mkUploadRow None fileName (size file) (type file) publicUrl
                         (Supabase.ist_time env t) (Some loc) "triggered"
                         (Some (tr_id trigger))
                         (Some (default "unknown" (tr_sensor_id trigger))) in
                     metadata ← Supabase.saveUploadMetadata env uploadData;
                     match metadata with
                     | None =>
                         logActivity "Error" "Failed to save metadata to database"
                                     level_error;;
                         mret false
                     | Some _ =>
                         t' ← gets now;
                         update_manager (fun m =>
                           mkTriggerManager (totalTriggers m) (todayTriggers m)
                             (successfulCaptures m) (failedCaptures m)
                             (lastTriggerTime m) (lastProcessedId m) (Some t')
                             (logContent m));;
                         logActivity "Success"
                           ("Photo uploaded successfully: " +:+ fileName) level_info;;
                         mret true
                     end
                 end
             end
         end
     end)
    (fun e =>
       logActivity "Error" ("Capture failed: " +:+ err_message e) level_error;;
       mret false).

Definition count_failure : M unit :=
  update_manager (fun m =>
    mkTriggerManager (totalTriggers m) (todayTriggers m) (successfulCaptures m)
      (S (failedCaptures m)) (lastTriggerTime m) (lastProcessedId m)
      (lastCaptureTime m) (logContent m)).

(** [processTrigger]: claim first, then capture. *)
Definition processTrigger (trigger : TriggerRow) : M unit :=
  try_catch
    (logActivity "Trigger"
       ("Processing trigger ID: " +:+ short_id (tr_id trigger) +:+ "...") level_info;;
     markResult ← markTriggerAsProcessed (tr_id trigger);
     if negb markResult then mret tt
     else
       update_manager (fun m =>
         mkTriggerManager (S (totalTriggers m)) (S (todayTriggers m))
           (successfulCaptures m) (failedCaptures m)
           (Some (created_at trigger)) (Some (created_at trigger))
           (lastCaptureTime m) (logContent m));;
       ok ← captureTriggeredPhoto trigger;
       if ok : bool then
         update_manager (fun m =>
           mkTriggerManager (totalTriggers m) (todayTriggers m)
             (S (successfulCaptures m)) (failedCaptures m) (lastTriggerTime m)
             (lastProcessedId m) (lastCaptureTime m) (logContent m));;
         logActivity "Capture"
           ("Successfully captured photo for trigger " +:+ short_id (tr_id trigger) +:+ "...")
           level_capture
       else
         count_failure;;
         logActivity "Error"
           ("Failed to capture photo for trigger " +:+ short_id (tr_id trigger) +:+ "...")
           level_error)
    (fun e =>
       count_failure;;
       logActivity "Error" ("Trigger processing failed: " +:+ err_message e) level_error).

End WithEnv.
End Trigger.

(** ** [accessCameraAndCapture]: the capture routine as an event system

    The routine is a promise whose body registers callbacks; what happens
    next is decided by the browser.  Each browser event carries the time
    [at] at which its callback runs.  A callback runs no earlier than the
    previous one, a timer callback no earlier than its due time, and no
    callback runs while another timer is overdue. *)

Module Camera.

Inductive Promise : Type :=
| Pending
| Resolved (blob : File)
| Rejected (e : JsError).

Definition settled (p : Promise) : bool :=
  match p with Pending => false | _ => true end.

(** Where the chain of callbacks stands. *)
Inductive Stage : Type :=
| Requesting     (* awaiting [getUserMedia] *)
| Ready          (* stream attached to the video element, handlers set *)
| Playing        (* [video.play()] called *)
| Stabilising    (* the 3 s timer is running *)
| Encoding       (* [canvas.toBlob] called *)
| Idle           (* the chain has ended; the element handlers remain *)
| Failed.        (* [getUserMedia] failed: nothing was registered *)

Record State : Type := mkState {
  clock : Z;
  currentStream : option nat;    (* [this.currentStream] *)
  live : list nat;               (* streams whose tracks are running *)
  promise : Promise;
  stage : Stage;
  acquired_at : option Z;        (* when the stream was obtained *)
  fallback_due : option Z;       (* the 10 s timer, while pending *)
  stabilise_due : option Z       (* the 3 s timer, while pending *)
}.

Definition capture_timeout : Z := 10000.
Definition stabilisation_delay : Z := 3000.

Inductive Event : Type :=
| UserMediaStream (at_ : Z) (id : nat)
| UserMediaError (at_ : Z) (e : JsError)
| LoadedMetadata (at_ : Z)
| PlayResolved (at_ : Z)
| PlayRejected (at_ : Z) (e : JsError)
| VideoError (at_ : Z) (e : JsError)
| StabiliseTimer (at_ : Z) (captureError : option JsError)
| BlobReady (at_ : Z) (blob : option File)
| FallbackTimer (at_ : Z).

Definition event_time (ev : Event) : Z :=
  match ev with
  | UserMediaStream t _ | UserMediaError t _ | LoadedMetadata t | PlayResolved t
  | PlayRejected t _ | VideoError t _ | StabiliseTimer t _ | BlobReady t _
  | FallbackTimer t => t
  end.

Definition initial (t : Z) : State :=
  mkState t None [] Pending Requesting None None None.

(** [stopCameraStream]: stops the tracks of [this.currentStream], if any,
    and clears the field. *)
Definition stopCameraStream (s : State) : State :=
  match currentStream s with
  | Some id =>
      mkState (clock s) None (filter (fun x => x ≠ id) (live s)) (promise s)
              (stage s) (acquired_at s) (fallback_due s) (stabilise_due s)
  | None => s
  end.

(** [resolve] and [reject] only act on a pending promise. *)
Definition settle (p : Promise) (s : State) : State :=
  match promise s with
  | Pending =>
      mkState (clock s) (currentStream s) (live s) p (stage s) (acquired_at s)
              (fallback_due s) (stabilise_due s)
  | _ => s
  end.

Definition resolve (blob : File) : State -> State := settle (Resolved blob).
Definition reject (e : JsError) : State -> State := settle (Rejected e).

Definition set_stage (st : Stage) (s : State) : State :=
  mkState (clock s) (currentStream s) (live s) (promise s) st (acquired_at s)
          (fallback_due s) (stabilise_due s).

Definition not_overdue (due : option Z) (t : Z) : bool :=
  match due with Some d => t <=? d | None => true end.

Definition is_due (due : option Z) (t : Z) : bool :=
  match due with Some d => d <=? t | None => false end.

Definition has_video (st : Stage) : bool :=
  match st with
  | Ready | Playing | Stabilising | Encoding | Idle => true
  | Requesting | Failed => false
  end.

(** May the callback of [ev] run in state [s]? *)
Definition enabled (s : State) (ev : Event) : bool :=
  (clock s <=? event_time ev) &&
  match ev with
  | UserMediaStream _ _ | UserMediaError _ _ =>
      match stage s with Requesting => true | _ => false end
  | LoadedMetadata t =>
      match stage s with Ready => true | _ => false end
      && not_overdue (fallback_due s) t && not_overdue (stabilise_due s) t
  | PlayResolved t | PlayRejected t _ =>
      match stage s with Playing => true | _ => false end
      && not_overdue (fallback_due s) t && not_overdue (stabilise_due s) t
  | VideoError t _ =>
      has_video (stage s)
      && not_overdue (fallback_due s) t && not_overdue (stabilise_due s) t
  | BlobReady t _ =>
      match stage s with Encoding => true | _ => false end
      && not_overdue (fallback_due s) t && not_overdue (stabilise_due s) t
  | StabiliseTimer t _ =>
      is_due (stabilise_due s) t && not_overdue (fallback_due s) t
  | FallbackTimer t =>
      is_due (fallback_due s) t && not_overdue (stabilise_due s) t
  end.

Definition at_time (t : Z) (s : State) : State :=
  mkState t (currentStream s) (live s) (promise s) (stage s) (acquired_at s)
          (fallback_due s) (stabilise_due s).

(** The callback bodies, statement by statement. *)
Definition handle (ev : Event) (s : State) : State :=
  match ev with
  | UserMediaStream t id =>
      (* this.currentStream = stream; ...; setTimeout(..., 10000) *)
      mkState (clock s) (Some id) (id :: live s) (promise s) Ready (Some t)
              (Some (t + capture_timeout)) (stabilise_due s)
  | UserMediaError _ e =>
      reject e (stopCameraStream (set_stage Failed s))
  | LoadedMetadata _ =>
      set_stage Playing s
  | PlayResolved t =>
      mkState (clock s) (currentStream s) (live s) (promise s) Stabilising
              (acquired_at s) (fallback_due s) (Some (t + stabilisation_delay))
  | PlayRejected _ e =>
      reject e (stopCameraStream (set_stage Idle s))
  | VideoError _ e =>
      reject e (stopCameraStream s)
  | StabiliseTimer _ captureError =>
      let s' := mkState (clock s) (currentStream s) (live s) (promise s) Encoding
                        (acquired_at s) (fallback_due s) None in
      match captureError with
      | Some e => reject e (stopCameraStream (set_stage Idle s'))
      | None => s'
      end
  | BlobReady _ blob =>
      let s' := stopCameraStream (set_stage Idle s) in
      match blob with
      | Some b => if (0 <? size b)%N then resolve b s'
                  else reject (Error "Failed to create image blob") s'
      | None => reject (Error "Failed to create image blob") s'
      end
  | FallbackTimer _ =>
      let s' := mkState (clock s) (currentStream s) (live s) (promise s) (stage s)
                        (acquired_at s) None (stabilise_due s) in
      reject (Error "Camera capture timeout after 10 seconds") (stopCameraStream s')
  end.

Definition step (s : State) (ev : Event) : option State :=
  if enabled s ev then Some (handle ev (at_time (event_time ev) s)) else None.

Fixpoint run (s : State) (evs : list Event) : option State :=
  match evs with
  | [] => Some s
  | ev :: rest =>
      match step s ev with
      | Some s' => run s' rest
      | None => None
      end
  end.

(** The callbacks that end the routine: the encoded frame (or its
    absence), a capture error, a video error, a play error, the
    fallback timeout and a failed camera request. *)
Definition is_exit (ev : Event) : bool :=
  match ev with
  | BlobReady _ _ | StabiliseTimer _ (Some _) | VideoError _ _ | PlayRejected _ _
  | FallbackTimer _ | UserMediaError _ _ => true
  | UserMediaStream _ _ | LoadedMetadata _ | PlayResolved _ | StabiliseTimer _ None => false
  end.

(** What holds between callbacks: the only stream that can be running is
    [this.currentStream]; a settled promise holds none; before the camera
    answers nothing is held; and while the promise is pending after the
    stream was obtained, the fallback timer is pending and not overdue. *)
Definition invariant (s : State) : Prop :=
  live s = match currentStream s with Some id => [id] | None => [] end
  ∧ (settled (promise s) = true → currentStream s = None)
  ∧ (stage s = Requesting →
     promise s = Pending ∧ currentStream s = None ∧ acquired_at s = None
     ∧ fallback_due s = None ∧ stabilise_due s = None)
  ∧ (promise s = Pending → ∀ t, acquired_at s = Some t →
     fallback_due s = Some (t + capture_timeout) ∧ clock s ≤ t + capture_timeout).

End Camera.

(** ** [AnalysisManager]: reading the analysis records *)

Module Analysis.

(** An answer that arrives after [latency] ms, or never. *)
Inductive Timed (A : Type) : Type :=
| Arrives (latency : Z) (a : A)
| Never.
Arguments Arrives {A} latency a.
Arguments Never {A}.

(** What awaiting the database query gives. *)
Inductive Select : Type :=
| SelectResolves (data error : Js.value)
| SelectRejects (e : JsError).

Definition api_timeout : Z := 10000.      (* [setTimeout(() => controller.abort(), 10000)] *)
Definition query_timeout : Z := 5000.     (* [queryWithTimeout(supabaseQuery, 5000)] *)

Definition AbortError : JsError := mkError "AbortError" "The operation was aborted".

(** [fetch] with the abort signal: an answer that has not arrived when
    the timer fires is replaced by an [AbortError]. *)
Definition fetch_with_abort (answer : Timed FetchOutcome) : FetchOutcome :=
  match answer with
  | Arrives latency r => if latency <? api_timeout then r else FetchRejects AbortError
  | Never => FetchRejects AbortError
  end.

(** [queryWithTimeout]: [Promise.race] of the query and a rejecting timer. *)
Definition queryWithTimeout (query : Timed Select) (timeoutMs : Z) : Select :=
  match query with
  | Arrives latency r =>
      if latency <? timeoutMs then r else SelectRejects (Error "Query timeout")
  | Never => SelectRejects (Error "Query timeout")
  end.

Definition TypeError : JsError := mkError "TypeError" "Cannot read properties".

Definition get (v : Js.value) (k : string) : result Js.value :=
  match Js.get v k with
  | Some x => Ok x
  | None => Throw TypeError
  end.

(** The [try] block of [getAllAnalysesFromAPI]. *)
Definition api_body (answer : Timed FetchOutcome) : result Js.value :=
  match fetch_with_abort answer with
  | FetchRejects e => Throw e
  | FetchResponds ok status body =>
      if negb ok then Throw (Error ("API responded with status: " +:+ pretty status))
      else
        match body with
        | None => Throw (mkError "SyntaxError" "Unexpected token")
        | Some result =>
            match get result "success", get result "data", get result "analyses" with
            | Ok ok_flag, Ok data, Ok analyses =>
                if Js.truthy (Js.and_ ok_flag data)
                then Ok (Js.or_ data Js.empty_array)
                else if Js.truthy analyses
                then Ok (Js.or_ analyses Js.empty_array)
                else Ok Js.empty_array
            | Throw e, _, _ | _, Throw e, _ | _, _, Throw e => Throw e
            end
        end
  end.

(** [getAllAnalysesFromAPI]: both [catch] branches return [[]]. *)
Definition getAllAnalysesFromAPI (answer : Timed FetchOutcome) : result Js.value :=
  match api_body answer with
  | Ok v => Ok v
  | Throw e =>
      if String.eqb (err_name e) "AbortError" then Ok Js.empty_array
      else Ok Js.empty_array
  end.

(** [apiData && apiData.length > 0] *)
Definition non_empty (apiData : Js.value) : bool :=
  Js.truthy apiData &&
  match Js.get apiData "length" with
  | Some n => Js.gt_zero n
  | None => false
  end.

(** The outer [try] block of [getAllAnalyses]. *)
Definition analyses_body (api : Timed FetchOutcome) (db : Timed Select)
  : result Js.value :=
  let from_api :=
    match getAllAnalysesFromAPI api with
    | Ok apiData => if non_empty apiData then Some apiData else None
    | Throw apiError => None
    end in
  match from_api with
  | Some apiData => Ok apiData
  | None =>
      match queryWithTimeout db query_timeout with
      | SelectRejects e => Throw e
      | SelectResolves data err =>
          if Js.truthy err then Ok Js.empty_array
          else Ok (Js.or_ data Js.empty_array)
      end
  end.

Definition getAllAnalyses (api : Timed FetchOutcome) (db : Timed Select)
  : result Js.value :=
  match analyses_body api db with
  | Ok v => Ok v
  | Throw _ => Ok Js.empty_array
  end.

End Analysis.

(** ** Specification side

    The validator as the specification words it, followed by the
    predicates in which the properties below are stated. *)

Module Spec.

(** The five rejection rules in the order in which the specification
    lists them, each with the reason it reports. *)
Definition rejection_rules (cfg : AppConfig) (batch : list File) (file : File)
  : list (bool * Reason) :=
  [ (negb (String.prefix "image/" (type file)), NotAnImage);
    (negb (bool_decide (type file ∈ allowedTypes cfg)), UnsupportedType);
    ((maxFileSize cfg <? size file)%N, TooLarge);
    ((size file =? 0)%N, EmptyFile);
    (bool_decide (Exists (fun prior => name prior = name file ∧ size prior = size file) batch),
     Duplicate) ].

(** Only the first matching reason is reported. *)
Fixpoint first_match (rules : list (bool * Reason)) : option Reason :=
  match rules with
  | [] => None
  | (true, reason) :: _ => Some reason
  | (false, _) :: rest => first_match rest
  end.

Definition verdict (cfg : AppConfig) (batch : list File) (file : File) : Validation :=
  match first_match (rejection_rules cfg batch file) with
  | Some reason => Invalid reason
  | None => Valid
  end.

(** What a call that asks the device for a new fix looks like: one
    request is logged, and the call returns the new fix, or [null] when
    the device reports an error. *)
Definition requests_new_fix (env : Env) (w : World)
           (r : result (option Location) * World) : Prop :=
  console r.2 = console w ++ [EvFixRequest]
  ∧ tick r.2 = S (tick w)
  ∧ r.1 = match geo_answer env (tick w) with
          | GeoPosition lat lon acc =>
              Ok (Some (mkLocation lat lon acc (now w + elapsed env (tick w))))
          | GeoError _ _ => Ok None
          end.

(** No location can be resolved for the request made in world [w]: the
    page has no geolocation manager, the browser has no geolocation
    support, or the device answers the next request with an error
    (permission denied, position unavailable, timeout). *)
Definition no_location_fix (env : Env) (w : World) : Prop :=
  geolocationManager w = None
  ∨ geolocation_supported w = false
  ∨ ∃ code msg, geo_answer env (tick w) = GeoError code msg.

(** The same for every later request, with nothing cached. *)
Definition never_located (env : Env) (w : World) : Prop :=
  geolocationManager w = None
  ∨ geolocation_supported w = false
  ∨ ((∀ g, geolocationManager w = Some g → currentLocation g = None)
     ∧ ∀ n, ∃ code msg, geo_answer env n = GeoError code msg).

(** The device answers every request with a position. *)
Definition always_located (env : Env) (w : World) : Prop :=
  (∃ g, geolocationManager w = Some g)
  ∧ geolocation_supported w = true
  ∧ ∀ n, ∃ lat lon acc, geo_answer env n = GeoPosition lat lon acc.

(** The name under which [completeUpload] stores [file] in world [w]. *)
Definition stored_name (w : World) (file : File) : string :=
  pretty (now w) +:+ "_" +:+ name file.

(** The storage step on [file] goes through in world [w]: the file is a
    non-empty image, the storage call succeeds and the key is free. *)
Definition storage_step_succeeds (env : Env) (w : World) (file : File) : Prop :=
  isConnected w = true
  ∧ size file ≠ 0%N
  ∧ String.prefix "image/" (type file) = true
  ∧ storage_answer env (tick w) = None
  ∧ bucket (remote w) !! stored_name w file = None.

(** What a step leaves alone: the backend, the connection, the upload
    manager and the browser's geolocation support. *)
Definition keeps_backend (w w' : World) : Prop :=
  remote w' = remote w
  ∧ isConnected w' = isConnected w
  ∧ uploadManager w' = uploadManager w
  ∧ geolocation_supported w' = geolocation_supported w.

(** The world after a successful storage step. *)
Definition stored (env : Env) (w : World) (fileName : string) (file : File) : World :=
  set_remote (mkRemote (<[fileName := file]> (bucket (remote w))) (uploads (remote w))
                       (next_id (remote w)) (sensor_data (remote w))
                       (analysis_posts (remote w)))
    (set_tick (S (tick w))
       (set_now (now w + elapsed env (tick w))
          (set_console (console w ++ [EvStoragePut fileName]) w))).

(** The world after one more console event. *)
Definition logged (ev : Event) (w : World) : World :=
  set_console (console w ++ [ev]) w.

(** The world after an external call that was logged as [ev]. *)
Definition after_call (env : Env) (ev : Event) (w : World) : World :=
  set_tick (S (tick w)) (set_now (now w + elapsed env (tick w)) (logged ev w)).

(** Another browser session [session] looking at the backend as the
    session [other] left it. *)
Definition sees_backend_of (other session : World) : World :=
  set_remote (remote other) session.

(** Some row of the trigger table has this identifier and is not yet
    consumed. *)
Definition unconsumed (triggerId : string) (r : Remote) : Prop :=
  ∃ row, row ∈ sensor_data r ∧ tr_id row = triggerId ∧ processed row = false.

(** The trace a poller leaves when it loses the claim: the claim attempt
    and the log line written before it, nothing else. *)
Definition skipped_silently (trigger : TriggerRow) (w w' : World) : Prop :=
  console w' = console w ++ [EvClaim (tr_id trigger)]
  ∧ toasts w' = toasts w
  ∧ totalTriggers (sensorTriggerManager w') = totalTriggers (sensorTriggerManager w)
  ∧ successfulCaptures (sensorTriggerManager w') = successfulCaptures (sensorTriggerManager w)
  ∧ failedCaptures (sensorTriggerManager w') = failedCaptures (sensorTriggerManager w)
  ∧ logContent (sensorTriggerManager w')
    = take Trigger.log_capacity
        (mkActivity "Trigger"
           ("Processing trigger ID: " +:+ Trigger.short_id (tr_id trigger) +:+ "...")
           level_info :: logContent (sensorTriggerManager w)).

(** The first tolerated envelope: a truthy [success] with a truthy
    [data]. *)
Definition has_data_envelope (result : Js.value) : bool :=
  match Js.get result "success", Js.get result "data" with
  | Some ok_flag, Some data => Js.truthy ok_flag && Js.truthy data
  | _, _ => false
  end.

(** The second tolerated envelope: a truthy [analyses]. *)
Definition has_analyses_envelope (result : Js.value) : bool :=
  match Js.get result "analyses" with
  | Some analyses => Js.truthy analyses
  | None => false
  end.

(** The ways in which the request to the analysis service fails. *)
Inductive ApiFailure : Analysis.Timed FetchOutcome → Prop :=
| api_no_answer : ApiFailure Analysis.Never
| api_timed_out latency r :
    Analysis.api_timeout ≤ latency → ApiFailure (Analysis.Arrives latency r)
| api_network_error latency e :
    ApiFailure (Analysis.Arrives latency (FetchRejects e))
| api_http_error latency status body :
    ApiFailure (Analysis.Arrives latency (FetchResponds false status body))
| api_not_json latency ok status :
    ApiFailure (Analysis.Arrives latency (FetchResponds ok status None))
| api_unexpected_envelope latency ok status result :
    has_data_envelope result = false →
    has_analyses_envelope result = false →
    ApiFailure (Analysis.Arrives latency (FetchResponds ok status (Some result))).

(** The ways in which the database query fails. *)
Inductive DbFailure : Analysis.Timed Analysis.Select → Prop :=
| db_no_answer : DbFailure Analysis.Never
| db_timed_out latency r :
    Analysis.query_timeout ≤ latency → DbFailure (Analysis.Arrives latency r)
| db_rejected latency e :
    DbFailure (Analysis.Arrives latency (Analysis.SelectRejects e))
| db_error latency data err :
    Js.truthy err = true →
    DbFailure (Analysis.Arrives latency (Analysis.SelectResolves data err)).

(** Any number of browser sessions trying to claim the same trigger one
    after the other, each on the backend as the previous one left it; the
    list tells which attempts returned [true]. *)
Fixpoint claim_results (triggerId : string) (r : Remote) (sessions : list (Env * World))
  : list bool :=
  match sessions with
  | [] => []
  | (env, w) :: rest =>
      let a := Trigger.markTriggerAsProcessed env triggerId (set_remote r w) in
      match a.1 with
      | Ok claimed => claimed
      | Throw _ => false
      end :: claim_results triggerId (remote a.2) rest
  end.

Definition count_true (l : list bool) : nat := length (filter (λ b, Is_true b) l).

End Spec.

(** ** Concrete data used in the examples *)

Module Examples.

Definition no_remote : Remote := mkRemote ∅ [] 1%positive [] [].

Definition fresh_trigger_manager : SensorTriggerManager :=
  mkTriggerManager 0 0 0 0 None None None [].

(** A freshly loaded page: connected, location supported, nothing cached,
    nothing selected. *)
Definition fresh_world : World :=
  mkWorld 1700000000000 0 [] [] true true (Some (mkGeo None false prompt))
          (mkUploadManager [] false false) fresh_trigger_manager no_remote.

Definition photo : File := mkFile "sand.jpg" 2097152 "image/jpeg".
Definition photo_resaved : File := mkFile "sand.jpg" 2097153 "image/jpeg".
Definition huge_photo : File := mkFile "dune.png" 10485761 "image/png".
Definition bitmap : File := mkFile "dune.bmp" 1024 "image/bmp".
Definition document : File := mkFile "notes.pdf" 0 "application/pdf".

(** Eleven distinct valid files. *)
Definition numbered (n : N) : File := mkFile ("grain" +:+ pretty n +:+ ".png") (n + 1) "image/png".
Definition eleven_files : list File := map numbered [0; 1; 2; 3; 4; 5; 6; 7; 8; 9; 10]%N.


(** An environment in which every call succeeds and takes 120 ms. *)
Definition calm_env : Env := {|
  elapsed := fun _ => 120;
  geo_answer := fun _ => GeoPosition 12971600 77594600 15;
  storage_answer := fun _ => None;
  insert_answer := fun _ => DbOk;
  insert_echo := fun _ => true;
  update_answer := fun _ => DbOk;
  analyze_answer := fun _ =>
    FetchResponds true 200 (Some (Js.Obj [("success"%string, Js.Bool true)]));
  camera_answer := fun _ => CameraBlob (mkFile "frame" 40000 "image/jpeg");
  cancel_click := fun _ => false;
  local_utc_offset := 19800000
|}.

(** The same environment with another answer of the location device. *)
Definition with_geo (answer : GeoOutcome) (env : Env) : Env := {|
  elapsed := elapsed env;
  geo_answer := fun _ => answer;
  storage_answer := storage_answer env;
  insert_answer := insert_answer env;
  insert_echo := insert_echo env;
  update_answer := update_answer env;
  analyze_answer := analyze_answer env;
  camera_answer := camera_answer env;
  cancel_click := cancel_click env;
  local_utc_offset := local_utc_offset env
|}.

Definition denied_env : Env :=
  with_geo (GeoError PERMISSION_DENIED "User denied Geolocation") calm_env.

(** The same environment with other answers of the database insert and
    of the analysis service. *)
Definition with_backend (insert : DbOutcome) (analysis : FetchOutcome) (env : Env) : Env := {|
  elapsed := elapsed env;
  geo_answer := geo_answer env;
  storage_answer := storage_answer env;
  insert_answer := fun _ => insert;
  insert_echo := insert_echo env;
  update_answer := update_answer env;
  analyze_answer := fun _ => analysis;
  camera_answer := camera_answer env;
  cancel_click := cancel_click env;
  local_utc_offset := local_utc_offset env
|}.

Definition old_fix : Location := mkLocation 12971600 77594600 15 1700000000000.

(** A page whose manager cached [old_fix], read [age] ms later. *)
Definition world_with_fix (age : Z) : World :=
  mkWorld (1700000000000 + age) 0 [] [] true true (Some (mkGeo (Some old_fix) true granted))
          (mkUploadManager [] false false) fresh_trigger_manager no_remote.


(** The fresh page after [photo] was selected. *)
Definition queued_world : World :=
  set_uploadManager (mkUploadManager [photo] false false) fresh_world.

(** The metadata insert is refused; everything else works. *)
Definition insert_refused_env : Env :=
  with_backend (DbError (Error "new row violates row-level security policy"))
               (analyze_answer calm_env 0%nat) calm_env.

(** The analysis service cannot be reached; everything else works. *)
Definition analysis_down_env : Env :=
  with_backend DbOk (FetchRejects (mkError "TypeError" "Failed to fetch")) calm_env.


Definition frame : File := mkFile "frame" 40000 "image/jpeg".

(** A capture that goes well: stream after 100 ms, frame after 3.4 s. *)
Definition capture_trace : list Camera.Event :=
  [Camera.UserMediaStream 100 1; Camera.LoadedMetadata 200; Camera.PlayResolved 300;
   Camera.StabiliseTimer 3300 None; Camera.BlobReady 3400 (Some frame)].

(** A capture whose video never starts: the fallback timer ends it. *)
Definition stuck_trace : list Camera.Event :=
  [Camera.UserMediaStream 100 1; Camera.FallbackTimer 10100].

Definition trigger_row : TriggerRow :=
  mkTriggerRow "7c9e6679-7425-40de-944b-e07fc1f90ae7" "yes" 1700000000000 false
               (Some "esp32-01"%string).

(** A page watching a trigger table that holds one unconsumed trigger. *)
Definition world_with_trigger : World :=
  set_remote (mkRemote ∅ [] 1%positive [trigger_row] []) fresh_world.


Definition record : Js.value := Js.Obj [("id"%string, Js.Num 1)].

Definition data_envelope : Js.value :=
  Js.Obj [("success"%string, Js.Bool true); ("data"%string, Js.Arr [record])].

Definition analyses_envelope : Js.value :=
  Js.Obj [("analyses"%string, Js.Arr [record])].

(** The service answers 500 after 200 ms; the database answers too late. *)
Definition failing_api : Analysis.Timed FetchOutcome :=
  Analysis.Arrives 200 (FetchResponds false 500 None).
Definition slow_db : Analysis.Timed Analysis.Select :=
  Analysis.Arrives 6000 (Analysis.SelectResolves (Js.Arr [record]) Js.Null).

End Examples.

(** * Further code of the repository *)

(** ** JavaScript string methods used by the code

    A string is read as its sequence of characters; the code only applies
    these methods to file names and URLs. *)

Module Text.

(** The first [n] characters, and the string without them. *)
Fixpoint take (n : nat) (s : string) : string :=
  match n, s with
  | O, _ => EmptyString
  | S _, EmptyString => EmptyString
  | S n', String c rest => String c (take n' rest)
  end.

Fixpoint drop (n : nat) (s : string) : string :=
  match n, s with
  | O, _ => s
  | S _, EmptyString => EmptyString
  | S n', String _ rest => drop n' rest
  end.

(** The position of the last occurrence of [c], if any. *)
Fixpoint last_index (c : ascii) (s : string) : option nat :=
  match s with
  | EmptyString => None
  | String a rest =>
      match last_index c rest with
      | Some i => Some (S i)
      | None => if Ascii.eqb a c then Some O else None
      end
  end.

(** [s.lastIndexOf(c)]: [-1] when [c] does not occur. *)
Definition lastIndexOf (c : ascii) (s : string) : Z :=
  match last_index c s with
  | Some i => Z.of_nat i
  | None => -1
  end.

(** [s.split(c).pop()]: what follows the last [c], the whole string when
    there is none. *)
Definition split_pop (c : ascii) (s : string) : string :=
  match last_index c s with
  | Some i => drop (S i) s
  | None => s
  end.

(** [s.substring(start, end)]: both indices are clamped to the string and
    swapped when [start] is the larger. *)
Definition substring (s : string) (start end_ : Z) : string :=
  let len := Z.of_nat (String.length s) in
  let clamp := fun i => Z.max 0 (Z.min i len) in
  let lo := Z.min (clamp start) (clamp end_) in
  let hi := Z.max (clamp start) (clamp end_) in
  take (Z.to_nat (hi - lo)) (drop (Z.to_nat lo) s).

End Text.

(** ** [UploadManager]: the file name shown in the preview *)

Module Preview.

(** [truncateFileName(name, maxLength)] *)
Definition truncateFileName (name : string) (maxLength : Z) : string :=
  if Z.of_nat (String.length name) <=? maxLength then name
  else
    let extension := Text.split_pop "." name in
    let nameWithoutExt := Text.substring name 0 (Text.lastIndexOf "." name) in
    let truncated :=
      Text.substring nameWithoutExt 0
        (maxLength - Z.of_nat (String.length extension) - 4) +:+ "..." in
    truncated +:+ "." +:+ extension.

End Preview.

(** ** [SensorManager]: the automated capture scheduler ([geolocation.js]) *)

Module Sensor.

(** The fields of the manager the scheduler reads and writes.  [intervalId]
    holds the period with which the repeating timer was registered;
    [notices] lists what the manager passed to [showToast], oldest first.
    Each handler is run to its end before the next one starts. *)
Record SensorManager : Type := mkSensorManager {
  isRunning : bool;
  intervalId : option Z;
  captureInterval : Z;
  lastCaptureTime : option Z;
  nextCaptureTime : option Z;
  totalCaptures : nat;
  todayCaptures : nat;
  notices : list (string * ToastType)
}.

(** The manager as its constructor leaves it. *)
Definition initial : SensorManager :=
  mkSensorManager false None 3600000 None None 0 0 [].

Definition notify (message : string) (ty : ToastType) (m : SensorManager) : SensorManager :=
  mkSensorManager (isRunning m) (intervalId m) (captureInterval m) (lastCaptureTime m)
                  (nextCaptureTime m) (totalCaptures m) (todayCaptures m)
                  (notices m ++ [(message, ty)]).

(** [formatDuration(ms)]: the two most significant units. *)
Definition formatDuration (ms : Z) : string :=
  let seconds := ms / 1000 in
  let minutes := seconds / 60 in
  let hours := minutes / 60 in
  let days := hours / 24 in
  if 0 <? days then pretty days +:+ "d " +:+ pretty (hours mod 24) +:+ "h"
  else if 0 <? hours then pretty hours +:+ "h " +:+ pretty (minutes mod 60) +:+ "m"
  else if 0 <? minutes then pretty minutes +:+ "m " +:+ pretty (seconds mod 60) +:+ "s"
  else pretty seconds +:+ "s".

(** [updateNextCaptureTime] *)
Definition updateNextCaptureTime (m : SensorManager) : M SensorManager :=
  t ← gets now;
  mret (mkSensorManager (isRunning m) (intervalId m) (captureInterval m) (lastCaptureTime m)
                        (if isRunning m then Some (t + captureInterval m) else None)
                        (totalCaptures m) (todayCaptures m) (notices m)).

(** The [change] handler of the interval selector. *)
Definition onIntervalChange (value : Z) (m : SensorManager) : M SensorManager :=
  updateNextCaptureTime
    (mkSensorManager (isRunning m) (intervalId m) value (lastCaptureTime m)
                     (nextCaptureTime m) (totalCaptures m) (todayCaptures m) (notices m)).

(** [stopMonitoring] *)
Definition stopMonitoring (m : SensorManager) : SensorManager :=
  if negb (isRunning m) then notify "Monitoring is not running" warning m
  else
    notify "Monitoring stopped" info
      (mkSensorManager false None (captureInterval m) (lastCaptureTime m) None
                       (totalCaptures m) (todayCaptures m) (notices m)).

(** How the camera answers [captureImageAutomatically]: a frame is encoded,
    [getUserMedia] is refused, or the video element reports an error. *)
Inductive FrameOutcome : Type :=
| FrameBlob (blob : File)
| UserMediaRefused (e : JsError)
| VideoLoadingFailed.

Section WithEnv.

Variable env : Env.

(** The camera's answer, by the index of the call. *)
Variable frame_answer : nat -> FrameOutcome.

(** [checkLocationPermission]: [!!location]. *)
Definition checkLocationPermission : M bool :=
  try_catch
    (manager ← gets geolocationManager;
     match manager with
     | None => mret false
     | Some _ =>
         location ← Geolocation.getCurrentLocation env;
         mret (bool_decide (location ≠ None))
     end)
    (fun _ => mret false).

(** [startMonitoring] *)
Definition startMonitoring (m : SensorManager) : M SensorManager :=
  if isRunning m then mret (notify "Monitoring is already running" warning m)
  else
    allowed ← checkLocationPermission;
    if negb allowed then
      mret (notify
        "Location access is required for sensor monitoring. Please enable location permissions."
        error m)
    else
      m1 ← updateNextCaptureTime
              (mkSensorManager true (intervalId m) (captureInterval m) (lastCaptureTime m)
                               (nextCaptureTime m) (totalCaptures m) (todayCaptures m)
                               (notices m));
      let m2 := mkSensorManager (isRunning m1) (Some (captureInterval m1)) (captureInterval m1)
                                (lastCaptureTime m1) (nextCaptureTime m1) (totalCaptures m1)
                                (todayCaptures m1) (notices m1) in
      mret (notify ("Monitoring started. Next capture in " +:+
                    formatDuration (captureInterval m2)) success m2).

(** [captureImageAutomatically], for the runs in which the browser
    delivers the events that settle the promise: the camera gives a frame
    or the promise is rejected; the frame is uploaded as
    [sensor_capture_<time>.jpg].  The refresh of the capture list that
    follows a successful upload only reads and catches its own errors; it
    is left out. *)
Definition captureImageAutomatically (m : SensorManager)
  : M (SensorManager * UploadResult) :=
  log EvCameraOpen;;
  n ← await_call env;
  match frame_answer n with
  | UserMediaRefused e => throw (Error ("Camera access failed: " +:+ err_message e))
  | VideoLoadingFailed => throw (Error "Video loading failed")
  | FrameBlob blob =>
      timestamp ← gets now;
      let fileName := "sensor_capture_" +:+ pretty timestamp +:+ ".jpg" in
      let file := mkFile fileName (size blob) "image/jpeg" in
      uploaded ← Supabase.completeUpload env file;
      match uploaded with
      | Some res =>
          t ← gets now;
          mret (notify "Automated capture completed successfully" success
                  (mkSensorManager (isRunning m) (intervalId m) (captureInterval m) (Some t)
                                   (nextCaptureTime m) (S (totalCaptures m))
                                   (S (todayCaptures m)) (notices m)),
                res)
      | None => throw (Error "Upload failed")
      end
  end.

(** [performAutomatedCapture]: what the repeating timer runs. *)
Definition performAutomatedCapture (m : SensorManager) : M SensorManager :=
  try_catch
    (captured ← captureImageAutomatically m;
     updateNextCaptureTime captured.1)
    (fun e => mret (notify ("Automated capture failed: " +:+ err_message e) error m)).

(** [captureNow] *)
Definition captureNow (m : SensorManager) : M SensorManager :=
  allowed ← checkLocationPermission;
  if negb allowed then
    mret (notify
      "Location access is required for capturing. Please enable location permissions."
      error m)
  else
    let m1 := notify "Capturing image..." info m in
    try_catch
      (captured ← captureImageAutomatically m1; mret captured.1)
      (fun e => mret (notify ("Capture failed: " +:+ err_message e) error m1)).

End WithEnv.
End Sensor.

(** ** Deleting an upload: [SupabaseClient.deleteFile],
    [SupabaseClient.deleteUploadRecord] and [HistoryManager.deleteUpload] *)

Module History.

(** The history view: the rows it shows and what it passed to
    [window.showToast], oldest first. *)
Record HistoryManager : Type := mkHistoryManager {
  shown : list UploadRow;           (* [this.uploads] *)
  loading : bool;
  notices : list (string * ToastType)
}.

Definition notify (message : string) (ty : ToastType) (h : HistoryManager) : HistoryManager :=
  mkHistoryManager (shown h) (loading h) (notices h ++ [(message, ty)]).

Section WithEnv.

Variable env : Env.

(** The storage service's [remove([fileName])]: the object is removed
    unless the call fails; removing a missing key is no error. *)
Definition storage_remove (answer : option JsError) (fileName : string) : M (option JsError) :=
  _ ← await_call env;
  match answer with
  | Some e => mret (Some e)
  | None =>
      Supabase.update_remote (fun r =>
        mkRemote (delete fileName (bucket r)) (uploads r) (next_id r)
                 (sensor_data r) (analysis_posts r));;
      mret None
  end.

(** [deleteFile] *)
Definition deleteFile (answer : option JsError) (fileName : string) : M bool :=
  connected ← Supabase.checkConnection;
  if negb connected then mret false
  else
    try_catch
      (err ← storage_remove answer fileName;
       match err with
       | Some e => throw e
       | None => mret true
       end)
      (fun e => throw (Error ("Failed to delete file: " +:+ err_message e))).

(** The database's [delete().eq('id', id)] on the uploads table. *)
Definition table_delete (answer : DbOutcome) (id : option positive) : M (option JsError) :=
  _ ← await_call env;
  match answer with
  | DbReject e => throw e
  | DbError e => mret (Some e)
  | DbOk =>
      Supabase.update_remote (fun r =>
        mkRemote (bucket r)
                 (filter (fun row => row_id row ≠ id ∨ id = None) (uploads r))
                 (next_id r) (sensor_data r) (analysis_posts r));;
      mret None
  end.

(** [deleteUploadRecord] *)
Definition deleteUploadRecord (answer : DbOutcome) (id : option positive) : M bool :=
  connected ← Supabase.checkConnection;
  if negb connected then mret false
  else
    try_catch
      (err ← table_delete answer id;
       match err with
       | Some e => throw e
       | None => mret true
       end)
      (fun e => throw (Error ("Failed to delete record: " +:+ err_message e))).

(** [deleteUpload]: after the user's confirmation the object named by the
    last segment of the row's URL is removed, then the row, then the entry
    of the view. *)
Definition deleteUpload (confirmed : bool) (storage_answer : option JsError)
           (table_answer : DbOutcome) (upload : UploadRow) (h : HistoryManager)
  : M HistoryManager :=
  if negb confirmed then mret h
  else
    let h1 := notify "Deleting..." info h in
    try_catch
      (fileName ← match file_url upload with
                  | Some u => mret (Text.split_pop "/" u)
                  | None => throw (mkError "TypeError" "Cannot read properties of null")
                  end;
       deleteFile storage_answer fileName;;
       deleteUploadRecord table_answer (row_id upload);;
       mret (notify "File deleted successfully" success
               (mkHistoryManager
                  (filter (fun u => row_id u ≠ row_id upload) (shown h1))
                  (loading h1) (notices h1))))
      (fun e => mret (notify ("Failed to delete file: " +:+ err_message e) error h1)).

End WithEnv.
End History.

(** ** [SensorTriggerManager.pollSensorData]: one tick of the poller *)

Module Poll.

(** The rows the query asks for: [.eq('button', 'yes').eq('processed', false)]. *)
Definition pending (row : TriggerRow) : bool :=
  String.eqb (button row) "yes" && negb (processed row).

(** [.order('created_at', { ascending: true })], as a stable insertion
    sort: rows created at the same time stay in the order of the table. *)
Fixpoint insert_by_created_at (row : TriggerRow) (sorted : list TriggerRow)
  : list TriggerRow :=
  match sorted with
  | [] => [row]
  | r :: rest =>
      if created_at row <=? created_at r then row :: r :: rest
      else r :: insert_by_created_at row rest
  end.

Definition order_by_created_at (rows : list TriggerRow) : list TriggerRow :=
  foldr insert_by_created_at [] rows.

(** [.limit(5)] *)
Definition query_limit : nat := 5.

(** What the poll query returns on the table as it stands. *)
Definition query (r : Remote) : list TriggerRow :=
  take query_limit
       (order_by_created_at (filter (fun row => Is_true (pending row)) (sensor_data r))).

Section WithEnv.

Variable env : Env.

(** How the database answers the reads (the query and the re-checks),
    by the index of the call. *)
Variable select_answer : nat -> DbOutcome.

(** The re-check before a trigger is processed:
    [.select('processed').eq('id', trigger.id).single()].  [Some true]
    means the trigger may be processed. *)
Definition still_unprocessed (trigger : TriggerRow) : M bool :=
  n ← await_call env;
  match select_answer n with
  | DbReject e => throw e
  | DbError _ => mret false
  | DbOk =>
      rows ← gets (fun w =>
        filter (fun row => tr_id row = tr_id trigger) (sensor_data (remote w)));
      match rows with
      | [checkData] => mret (negb (processed checkData))
      | _ => mret false                     (* [single()] reports an error *)
      end
  end.

(** The loop over the triggers found. *)
Fixpoint process_all (triggers : list TriggerRow) : M unit :=
  match triggers with
  | [] => mret tt
  | trigger :: rest =>
      go ← still_unprocessed trigger;
      (if go : bool then Trigger.processTrigger env trigger else mret tt);;
      process_all rest
  end.

(** [pollSensorData] *)
Definition pollSensorData : M unit :=
  try_catch
    (connected ← gets isConnected;
     if negb connected
     then throw (mkError "TypeError" "Cannot read properties of null")
     else
       n ← await_call env;
       match select_answer n with
       | DbReject e => throw e
       | DbError e =>
           Trigger.logActivity "Error" ("Database poll failed: " +:+ err_message e)
                               level_error
       | DbOk =>
           data ← gets (fun w => query (remote w));
           match data with
           | [] => mret tt
           | _ :: _ =>
               Trigger.logActivity "Trigger"
                 ("Found " +:+ pretty (length data) +:+ " new trigger signal(s)")
                 level_info;;
               process_all data
           end
       end)
    (fun e =>
       Trigger.logActivity "Error" ("Polling error: " +:+ err_message e) level_error).

End WithEnv.
End Poll.

(** ** [AnalysisManager]: the analysis records ([analysis-manager.js]) *)

Module Records.

(** A row of the [grain_analysis] table, as far as the client writes it. *)
Record AnalysisRecord : Type := mkAnalysisRecord {
  upload_id : positive;
  analysis_status : string;
  error_message : option string;
  updated_at : option Z
}.

(** [createAnalysisRecord]: inserts a record in status ['pending']; an
    error of the insert is thrown. *)
Definition createAnalysisRecord (answer : DbOutcome) (uploadId : positive)
           (table : list AnalysisRecord) : result unit * list AnalysisRecord :=
  match answer with
  | DbOk => (Ok tt, table ++ [mkAnalysisRecord uploadId "pending" None None])
  | DbError e | DbReject e => (Throw e, table)
  end.

(** The row update of [updateAnalysisStatus]: the error message is only
    written when it is a non-empty string. *)
Definition set_status (t : Z) (uploadId : positive) (status : string)
           (errorMessage : option string) (r : AnalysisRecord) : AnalysisRecord :=
  if Pos.eqb (upload_id r) uploadId then
    mkAnalysisRecord (upload_id r) status
      (match errorMessage with
       | Some msg => if String.eqb msg "" then error_message r else Some msg
       | None => error_message r
       end)
      (Some t)
  else r.

(** [updateAnalysisStatus] at time [t] *)
Definition updateAnalysisStatus (answer : DbOutcome) (t : Z) (uploadId : positive)
           (status : string) (errorMessage : option string)
           (table : list AnalysisRecord) : result unit * list AnalysisRecord :=
  match answer with
  | DbOk => (Ok tt, map (set_status t uploadId status errorMessage) table)
  | DbError e | DbReject e => (Throw e, table)
  end.

(** [getAnalysisResults]: the single record of the upload, [null] when
    the query fails or does not find exactly one. *)
Definition getAnalysisResults (answer : DbOutcome) (uploadId : positive)
           (table : list AnalysisRecord) : option AnalysisRecord :=
  match answer with
  | DbOk =>
      match filter (fun r => upload_id r = uploadId) table with
      | [r] => Some r
      | _ => None
      end
  | DbError _ | DbReject _ => None
  end.

(** The [try] block of [triggerAnalysis] after the record was created. *)
Definition call_service (answer : FetchOutcome) : result Js.value :=
  match answer with
  | FetchRejects e => Throw e
  | FetchResponds ok status body =>
      if negb ok then Throw (Error ("Analysis service error: " +:+ pretty status))
      else
        match body with
        | Some v => Ok v
        | None => Throw (mkError "SyntaxError" "Unexpected token")
        end
  end.

(** [triggerAnalysis]: create the record, call the service; on any error
    mark the record failed and rethrow. *)
Definition triggerAnalysis (create_answer : DbOutcome) (service : FetchOutcome)
           (update_answer : DbOutcome) (t : Z) (uploadId : positive)
           (table : list AnalysisRecord) : result Js.value * list AnalysisRecord :=
  let attempt :=
    match createAnalysisRecord create_answer uploadId table with
    | (Throw e, table1) => (Throw e, table1)
    | (Ok _, table1) => (call_service service, table1)
    end in
  match attempt with
  | (Ok v, table1) => (Ok v, table1)
  | (Throw e, table1) =>
      match updateAnalysisStatus update_answer t uploadId "failed"
                                 (Some (err_message e)) table1 with
      | (Ok _, table2) => (Throw e, table2)
      | (Throw e', table2) => (Throw e', table2)
      end
  end.

End Records.

(** ** [CameraManager.usePhoto]: a photo taken in the page ([camera.js]) *)

Module Photo.

Record CameraManager : Type := mkCameraManager {
  stream : bool;                       (* a camera stream is open *)
  capturedImageBlob : option File;
  notices : list (string * ToastType)
}.

Definition notify (message : string) (ty : ToastType) (c : CameraManager) : CameraManager :=
  mkCameraManager (stream c) (capturedImageBlob c) (notices c ++ [(message, ty)]).

(** [closeCamera]: stops the stream and resets the dialog, which drops the
    captured photo. *)
Definition closeCamera (c : CameraManager) : CameraManager :=
  mkCameraManager false None (notices c).

(** [usePhoto] *)
Definition usePhoto (cfg : AppConfig) (c : CameraManager) : M CameraManager :=
  match capturedImageBlob c with
  | None => mret (notify "No photo captured" error c)
  | Some blob =>
      if (size blob =? 0)%N then mret (notify "Captured image is empty" error c)
      else
        timestamp ← gets now;
        let filename := "camera-photo-" +:+ pretty timestamp +:+ ".jpg" in
        let file := mkFile filename (size blob) "image/jpeg" in
        Upload.addFiles cfg [file];;
        mret (notify "Photo added to upload queue" success (closeCamera c))
  end.

End Photo.

(** ** Predicates for the further properties *)

Module Facts.

(** An operation leaves every world related to the one it started from. *)
Definition preserves {A} (R : World -> World -> Prop) (m : M A) : Prop :=
  ∀ w, R w (m w).2.

(** An operation always returns: its promise is never rejected. *)
Definition never_throws {A} (m : M A) : Prop :=
  ∀ w, ∃ a, (m w).1 = Ok a.

(** An operation leaves a component [f] of the world as it was. *)
Definition keeps {B} (f : World -> B) (w w' : World) : Prop := f w' = f w.

(** A trigger row that differs from another at most by having been
    consumed. *)
Definition consumed_later (row row' : TriggerRow) : Prop :=
  tr_id row' = tr_id row ∧ button row' = button row
  ∧ created_at row' = created_at row ∧ tr_sensor_id row' = tr_sensor_id row
  ∧ (processed row = true → processed row' = true).

(** The backend only grows: every stored object is still stored, the
    upload rows are extended at the end, and the trigger rows are the
    same rows, none of them turned back to unconsumed. *)
Definition grows (w w' : World) : Prop :=
  bucket (remote w) ⊆ bucket (remote w')
  ∧ uploads (remote w) `prefix_of` uploads (remote w')
  ∧ Forall2 consumed_later (sensor_data (remote w)) (sensor_data (remote w')).

(** The triggers that a run tried to claim, in order, as its console
    events [evs] show them. *)
Definition claimed (evs : list Event) : list string :=
  omap (fun ev => match ev with EvClaim id => Some id | _ => None end) evs.

(** Between [w] and [w'] the console was extended, and the claims made
    were those for [ids]. *)
Definition claims (ids : list string) (w w' : World) : Prop :=
  ∃ evs, console w' = console w ++ evs ∧ claimed evs = ids.

(** The activity log stays within its capacity. *)
Definition log_bounded (w w' : World) : Prop :=
  (length (logContent (sensorTriggerManager w)) ≤ Trigger.log_capacity)%nat →
  (length (logContent (sensorTriggerManager w')) ≤ Trigger.log_capacity)%nat.

(** The counters of the trigger page. *)
Definition counters (w : World) : nat * nat * nat :=
  (totalTriggers (sensorTriggerManager w),
   successfulCaptures (sensorTriggerManager w),
   failedCaptures (sensorTriggerManager w)).

(** An operation always returns, with a result for which [P] holds. *)
Definition settles_with {A} (P : A → Prop) (m : M A) : Prop :=
  ∀ w, ∃ a w', m w = (Ok a, w') ∧ P a.

(** The scheduler's fields agree: the repeating timer is registered and a
    next capture is announced exactly while monitoring runs. *)
Definition scheduled (m : Sensor.SensorManager) : Prop :=
  (Sensor.isRunning m = true ↔ is_Some (Sensor.intervalId m))
  ∧ (Sensor.isRunning m = true ↔ is_Some (Sensor.nextCaptureTime m)).

(** The validity that [validateFile] checks apart from duplicates. *)
Definition acceptable (cfg : AppConfig) (file : File) : Prop :=
  String.prefix "image/" (type file) = true
  ∧ type file ∈ allowedTypes cfg
  ∧ (0 < size file ≤ maxFileSize cfg)%N.

(** No two files at different positions share name and size. *)
Definition distinct_files (files : list File) : Prop :=
  NoDup (map (fun f => (name f, size f)) files).

End Facts.

(** ** Further example data *)

Module Samples.

(** A page whose Supabase client failed to initialise, with two files
    selected. *)
Definition offline_world : World :=
  mkWorld 1700000000000 0 [] [] false true (Some (mkGeo None false prompt))
          (mkUploadManager [Examples.photo; Examples.photo_resaved] false false)
          Examples.fresh_trigger_manager Examples.no_remote.

(** A page whose queue holds the ten files it may hold. *)
Definition full_world : World :=
  set_uploadManager (mkUploadManager (take 10 Examples.eleven_files) false false)
                    Examples.fresh_world.

(** The key and the row of an upload made at the start of the session. *)
Definition stored_key : string := "1700000000000_sand.jpg".

Definition stored_row : UploadRow :=
  mkUploadRow (Some 1%positive) "sand.jpg" 2097152 "image/jpeg"
              (Some (Supabase.storage_public_url stored_key)) 1700000000000
              (Some Examples.old_fix) "manual" None None.

(** The backend after that upload, and a history view that shows it. *)
Definition world_with_upload : World :=
  set_remote (mkRemote {[stored_key := Examples.photo]} [stored_row] 2%positive [] [])
             Examples.fresh_world.

Definition offline_world_with_upload : World :=
  set_remote (remote world_with_upload) offline_world.

Definition history : History.HistoryManager :=
  History.mkHistoryManager [stored_row] false [].

(** The analysis service answers with a server error. *)
Definition service_down : FetchOutcome := FetchResponds false 500 None.

(** The camera dialog with a photo taken. *)
Definition camera_with_photo : Photo.CameraManager :=
  Photo.mkCameraManager true (Some Examples.frame) [].

(** The camera of the sensor page delivers a frame. *)
Definition frame_ready : nat -> Sensor.FrameOutcome :=
  fun _ => Sensor.FrameBlob Examples.frame.

Definition long_name : string := "sediment-sample-riverbank-0042.jpeg".
Definition dotless_name : string := "sediment_sample_riverbank_0042".

End Samples.
(** * Properties *)

(** Unfolds the monad's operations so that a run computes. *)
Ltac unfold_m :=
  unfold mbind, mret, M_bind, M_ret, gets, modify, throw, try_catch, try_finally,
    showToast, log in *.

(** ** Validator *)

Section Validator.

Variable cfg : AppConfig.

Lemma existsb_eqb_elem_of (x : string) (l : list string) :
  existsb (String.eqb x) l = bool_decide (x ∈ l).
Proof.
  induction l as [|y l IH]; cbn [existsb].
  - symmetry. apply bool_decide_eq_false_2, not_elem_of_nil.
  - rewrite IH. destruct (String.eqb_spec x y) as [->|Hne]; cbn [orb].
    + symmetry. apply bool_decide_eq_true_2, list_elem_of_here.
    + apply bool_decide_ext. rewrite elem_of_cons. tauto.
Qed.

Lemma same_file_spec (file prior : File) :
  Upload.same_file file prior = true ↔ name prior = name file ∧ size prior = size file.
Proof.
  unfold Upload.same_file. rewrite andb_true_iff, String.eqb_eq, N.eqb_eq. tauto.
Qed.

Lemma existsb_same_file (file : File) (batch : list File) :
  existsb (Upload.same_file file) batch =
  bool_decide (Exists (fun prior => name prior = name file ∧ size prior = size file) batch).
Proof.
  induction batch as [|p batch IH]; cbn [existsb].
  - symmetry. apply bool_decide_eq_false_2. intros H. inversion H.
  - rewrite IH. destruct (Upload.same_file file p) eqn:E; cbn [orb].
    + symmetry. apply bool_decide_eq_true_2. left. by apply same_file_spec.
    + apply bool_decide_ext. rewrite Exists_cons.
      rewrite <- same_file_spec, E. split; [tauto|]. intros [?|?]; [done|tauto].
Qed.

(** The code's validator is the specification's rule list read in order. *)
Lemma validateFile_refines (selected : list File) (file : File) :
  Upload.validateFile cfg selected file = Spec.verdict cfg selected file.
Proof.
  unfold Upload.validateFile, Spec.verdict, Spec.rejection_rules.
  rewrite existsb_eqb_elem_of, existsb_same_file. cbn [Spec.first_match].
  destruct (String.prefix _ _); cbn [negb]; [|done].
  destruct (bool_decide (_ ∈ _)); cbn [negb]; [|done].
  destruct (_ <? _)%N; [done|].
  destruct (_ =? _)%N; [done|].
  by destruct (bool_decide (Exists _ _)).
Qed.

End Validator.

Section ValidatorClaims.

Variable cfg : AppConfig.

(** C3.  For every candidate file the validator tests the rejection
    reasons in the fixed order not-an-image, unsupported-type, too-large,
    empty-file, duplicate and reports the first that matches.  In
    particular a file over the size ceiling whose type is valid is
    rejected as too large, and a file whose MIME type is not in the
    allow-list is rejected whatever its size (as unsupported when it is
    an image type, as not-an-image otherwise). *)
Theorem validateFile_reports_first_reason (selected : list File) (file : File) :
  Upload.validateFile cfg selected file = Spec.verdict cfg selected file
  ∧ (String.prefix "image/" (type file) = true →
     type file ∈ allowedTypes cfg →
     (maxFileSize cfg < size file)%N →
     Upload.validateFile cfg selected file = Invalid TooLarge)
  ∧ (type file ∉ allowedTypes cfg →
     Upload.validateFile cfg selected file =
     Invalid (if String.prefix "image/" (type file) then UnsupportedType else NotAnImage)).
Proof.
  split; [apply validateFile_refines|].
  unfold Upload.validateFile. rewrite existsb_eqb_elem_of. split.
  - intros Himg Hin Hbig. rewrite Himg. cbn [negb].
    rewrite bool_decide_eq_true_2 by done. cbn [negb].
    apply N.ltb_lt in Hbig. by rewrite Hbig.
  - intros Hout. destruct (String.prefix _ _); cbn [negb]; [|done].
    by rewrite bool_decide_eq_false_2.
Qed.

Lemma validate_all_valid (selected files : list File) :
  Forall (fun f => Upload.validateFile cfg selected f = Valid) files →
  Upload.validate_all cfg selected files = (files, []).
Proof.
  induction 1 as [|f files Hf _ IH]; cbn [Upload.validate_all]; [done|].
  by rewrite IH, Hf.
Qed.

(** C4.  When a batch of N individually valid files is added and N
    exceeds the configured maximum, the queue ends up holding exactly
    [maxFiles] files (the files already queued followed by the first
    files of the batch, all of the first [maxFiles] when the queue was
    empty), the rest of the batch is dropped, and exactly one toast is
    raised: the batch-level warning, with no per-file rejection. *)
Theorem addFiles_truncates_with_one_warning (files : list File) (w : World) :
  let queued := selectedFiles (uploadManager w) in
  Forall (fun f => Upload.validateFile cfg queued f = Valid) files →
  maxFiles cfg < Z.of_nat (length files) →
  Z.of_nat (length queued) ≤ maxFiles cfg →
  let allowedCount := maxFiles cfg - Z.of_nat (length queued) in
  let w' := (Upload.addFiles cfg files w).2 in
  (Upload.addFiles cfg files w).1 = Ok tt
  ∧ selectedFiles (uploadManager w') = queued ++ take (Z.to_nat allowedCount) files
  ∧ Z.of_nat (length (selectedFiles (uploadManager w'))) = maxFiles cfg
  ∧ (queued = [] → selectedFiles (uploadManager w') = take (Z.to_nat (maxFiles cfg)) files)
  ∧ toasts w' = toasts w ++ [(MsgMaxFiles (maxFiles cfg) allowedCount, warning)].
Proof.
  intros queued Hvalid Hmany Hroom allowedCount w'.
  assert (Hsplice : Upload.splice files allowedCount = take (Z.to_nat allowedCount) files).
  { unfold Upload.splice. subst allowedCount.
    destruct (Z.ltb_spec (maxFiles cfg - Z.of_nat (length queued)) 0) as [?|?]; [lia|].
    f_equal. lia. }
  assert (Hrun : Upload.addFiles cfg files w =
                 (Ok tt,
                  set_uploadManager
                    (mkUploadManager (queued ++ take (Z.to_nat allowedCount) files)
                                     (isUploading (uploadManager w))
                                     (uploadAborted (uploadManager w)))
                    (set_toasts (toasts w ++ [(MsgMaxFiles (maxFiles cfg) allowedCount, warning)])
                                (set_console (console w ++ map EvValidate files) w)))).
  { unfold Upload.addFiles, Upload.update_manager. unfold_m. cbn.
    fold queued. rewrite (validate_all_valid queued files Hvalid). cbn.
    destruct (Z.ltb_spec (maxFiles cfg) (Z.of_nat (length queued) + Z.of_nat (length files)))
      as [_|?]; [|lia].
    cbn. fold allowedCount. by rewrite Hsplice. }
  subst w'. rewrite Hrun. cbn.
  split; [done|]. split; [done|]. split.
  - rewrite length_app, length_take. subst allowedCount. lia.
  - split; [|done]. intros Hq. rewrite Hq. cbn. subst allowedCount. rewrite Hq. cbn.
    f_equal. lia.
Qed.

End ValidatorClaims.

(** C3, at concrete files of the default configuration: an 10 MB + 1 byte
    PNG is too large, a PDF is not an image, a bitmap is unsupported. *)
Lemma validateFile_reports_first_reason_witness :
  Upload.validateFile APP_CONFIG [] Examples.huge_photo = Invalid TooLarge
  ∧ Upload.validateFile APP_CONFIG [] Examples.document = Invalid NotAnImage
  ∧ Upload.validateFile APP_CONFIG [] Examples.bitmap = Invalid UnsupportedType.
Proof.
  split; [|split].
  - apply (proj1 (proj2 (validateFile_reports_first_reason APP_CONFIG [] Examples.huge_photo)));
      [reflexivity | compute_done | reflexivity].
  - apply (proj2 (proj2 (validateFile_reports_first_reason APP_CONFIG [] Examples.document))).
    compute_done.
  - apply (proj2 (proj2 (validateFile_reports_first_reason APP_CONFIG [] Examples.bitmap))).
    compute_done.
Defined.

(** C4, at eleven valid files added to an empty queue with the default
    maximum of ten. *)
Lemma addFiles_truncates_with_one_warning_witness :
  length (selectedFiles (uploadManager
            (Upload.addFiles APP_CONFIG Examples.eleven_files Examples.fresh_world).2)) = 10%nat
  ∧ toasts (Upload.addFiles APP_CONFIG Examples.eleven_files Examples.fresh_world).2
    = [(MsgMaxFiles 10 10, warning)].
Proof.
  pose proof (addFiles_truncates_with_one_warning APP_CONFIG Examples.eleven_files
                Examples.fresh_world) as H.
  cbn zeta in H.
  destruct H as (_ & Hq & _ & _ & Ht).
  - compute_done.
  - vm_compute. reflexivity.
  - vm_compute. discriminate.
  - split; [rewrite Hq; vm_compute; reflexivity | rewrite Ht; reflexivity].
Defined.

(** ** Duplicates *)

(** A file that passes the other four checks and whose name and size equal
    those of a file already in the selection queue is rejected as a
    duplicate; the same name with another size is not a duplicate. *)
Lemma validateFile_duplicate_of_queued (cfg : AppConfig) (selected : list File) (file : File) :
  Upload.validateFile cfg [] file = Valid →
  Upload.validateFile cfg selected file =
  if existsb (Upload.same_file file) selected then Invalid Duplicate else Valid.
Proof.
  unfold Upload.validateFile. cbn [existsb].
  destruct (negb (String.prefix _ _)); [done|].
  destruct (negb (existsb _ _)); [done|].
  destruct (_ <? _)%N; [done|]. by destruct (_ =? _)%N.
Qed.

(** C2.  What the code does when two files with the same name and size
    arrive in one call of [addFiles] on an empty queue: both are checked
    against the queue as it was before the call, both pass, both are
    queued and nothing is reported.  A duplicate is only recognised
    against files queued by an earlier call, where the same name with
    another size is accepted. *)
Theorem addFiles_same_batch_duplicate_accepted :
  let w := (Upload.addFiles APP_CONFIG [Examples.photo; Examples.photo] Examples.fresh_world).2 in
  selectedFiles (uploadManager w) = [Examples.photo; Examples.photo]
  ∧ toasts w = []
  ∧ let w1 := (Upload.addFiles APP_CONFIG [Examples.photo] Examples.fresh_world).2 in
    let w2 := (Upload.addFiles APP_CONFIG [Examples.photo; Examples.photo_resaved] w1).2 in
    selectedFiles (uploadManager w2) = [Examples.photo; Examples.photo_resaved]
    ∧ toasts w2 = [(MsgRejected [("sand.jpg"%string, Duplicate)], warning)].
Proof. vm_compute. auto. Qed.

(** ** Geolocation freshness *)

Section GeolocationClaims.

Variable env : Env.

Lemma getCurrentLocation_supported (w : World) (g : GeolocationManager) :
  geolocation_supported w = true →
  geolocationManager w = Some g →
  let r := Geolocation.getCurrentLocation env w in
  console r.2 = console w ++ [EvFixRequest]
  ∧ tick r.2 = S (tick w)
  ∧ match geo_answer env (tick w) with
    | GeoPosition lat lon acc =>
        let loc := mkLocation lat lon acc (now w + elapsed env (tick w)) in
        r.1 = Ok (Some loc)
        ∧ geolocationManager r.2 = Some (mkGeo (Some loc) true (locationPermission g))
        ∧ toasts r.2 = toasts w
    | GeoError code msg =>
        r.1 = Throw (mkError "GeolocationPositionError" msg)
        ∧ (code = PERMISSION_DENIED → toasts r.2 = toasts w ++ [(MsgLocationDenied, warning)])
    end
  ∧ remote r.2 = remote w
  ∧ uploadManager r.2 = uploadManager w.
Proof.
  intros Hs Hg. unfold Geolocation.getCurrentLocation, Geolocation.checkGeolocationSupport,
    Geolocation.handleLocationError, Geolocation.update_manager, await_call.
  unfold_m. cbn. rewrite Hs. cbn.
  destruct (geo_answer env (tick w)) as [lat lon acc|code msg]; cbn.
  - rewrite Hg. cbn. auto 10.
  - destruct code; cbn; rewrite ?Hg; cbn; repeat split; auto; discriminate.
Qed.

(** The two ways [getLocationForUpload] runs with device support: the
    cached fix as it is, or a request to the device first. *)
Lemma getLocationForUpload_by_age (w : World) (g : GeolocationManager) :
  geolocation_supported w = true →
  geolocationManager w = Some g →
  let r := Geolocation.getLocationForUpload env w in
  match currentLocation g with
  | Some loc =>
      if now w - timestamp loc <=? Geolocation.freshness_window
      then r = (Ok (Some loc), w)
      else Spec.requests_new_fix env w r
  | None => Spec.requests_new_fix env w r
  end.
Proof.
  intros Hs Hg r. subst r. unfold Spec.requests_new_fix.
  unfold Geolocation.getLocationForUpload, Geolocation.getCurrentLocation,
    Geolocation.checkGeolocationSupport, Geolocation.handleLocationError,
    Geolocation.update_manager, Geolocation.this_currentLocation, await_call.
  unfold_m. cbn. rewrite Hs. cbn. rewrite Hg. cbn.
  destruct (currentLocation g) as [loc|] eqn:Hloc.
  - destruct (Z.leb_spec (now w - timestamp loc) Geolocation.freshness_window) as [Hle|Hgt];
      destruct (Z.ltb_spec (timestamp loc) (now w - Geolocation.freshness_window)); try lia.
    + cbn. rewrite Hg. cbn. by rewrite Hloc.
    + cbn. rewrite Hs. cbn.
      destruct (geo_answer env (tick w)) as [lat lon acc|code msg]; cbn.
      * rewrite Hg. cbn. auto.
      * destruct code; cbn; auto.
  - rewrite Hs. cbn.
    destruct (geo_answer env (tick w)) as [lat lon acc|code msg]; cbn.
    + rewrite Hg. cbn. auto.
    + destruct code; cbn; auto.
Qed.


End GeolocationClaims.



(** ** The upload sequence *)

Section UploadSequence.

Variable env : Env.

Lemma run_bind {A B} (m : M A) (f : A → M B) (w : World) :
  (m ≫= f) w = match m w with
               | (Ok a, w') => f a w'
               | (Throw e, w') => (Throw e, w')
               end.
Proof. reflexivity. Qed.

Lemma run_try_catch {A} (m : M A) (h : JsError → M A) (w : World) :
  try_catch m h w = match m w with
                    | (Ok a, w') => (Ok a, w')
                    | (Throw e, w') => h e w'
                    end.
Proof. reflexivity. Qed.

Lemma getCurrentLocation_frame (w : World) :
  Spec.keeps_backend w (Geolocation.getCurrentLocation env w).2
  ∧ (geolocationManager w = None →
     geolocationManager (Geolocation.getCurrentLocation env w).2 = None).
Proof.
  unfold Spec.keeps_backend, Geolocation.getCurrentLocation, Geolocation.checkGeolocationSupport,
    Geolocation.handleLocationError, Geolocation.update_manager, await_call.
  unfold_m. cbn. destruct (geolocation_supported w) eqn:Hs; cbn.
  - destruct (geo_answer env (tick w)) as [lat lon acc|code msg]; cbn.
    + rewrite Hs. repeat split; auto. by intros ->.
    + destruct code; cbn; rewrite Hs; repeat split; auto; by intros ->.
  - rewrite Hs. repeat split; auto. by intros ->.
Qed.

Lemma getCurrentLocation_no_fix (w : World) :
  Spec.no_location_fix env w →
  geolocationManager w ≠ None →
  (Geolocation.getCurrentLocation env w).1 = Ok None
  ∨ ∃ e, (Geolocation.getCurrentLocation env w).1 = Throw e.
Proof.
  intros [Hn|[Hs|(code & msg & Hd)]] Hm; [done| |].
  - left. unfold Geolocation.getCurrentLocation, Geolocation.checkGeolocationSupport.
    unfold_m. cbn. by rewrite Hs.
  - unfold Geolocation.getCurrentLocation, Geolocation.checkGeolocationSupport,
      Geolocation.handleLocationError, Geolocation.update_manager, await_call.
    unfold_m. cbn. destruct (geolocation_supported w); cbn; [|by left].
    rewrite Hd. right. destruct code; cbn; eauto.
Qed.

Lemma getCurrentLocation_console (w : World) :
  ∃ evs, console (Geolocation.getCurrentLocation env w).2 = console w ++ evs
         ∧ Forall (λ ev, ev = EvFixRequest) evs.
Proof.
  unfold Geolocation.getCurrentLocation, Geolocation.checkGeolocationSupport,
    Geolocation.handleLocationError, Geolocation.update_manager, await_call.
  unfold_m. cbn. destruct (geolocation_supported w); cbn.
  - exists [EvFixRequest]. split; [|by repeat constructor].
    destruct (geo_answer env (tick w)) as [lat lon acc|code msg]; cbn; [done|].
    by destruct code.
  - exists []. split; [by rewrite app_nil_r|constructor].
Qed.

Lemma getCurrentLocation_toasts (w : World) :
  toasts (Geolocation.getCurrentLocation env w).2 = toasts w
  ∨ toasts (Geolocation.getCurrentLocation env w).2 = toasts w ++ [(MsgLocationDenied, warning)].
Proof.
  unfold Geolocation.getCurrentLocation, Geolocation.checkGeolocationSupport,
    Geolocation.handleLocationError, Geolocation.update_manager, await_call.
  unfold_m. cbn. destruct (geolocation_supported w); cbn; [|by left].
  destruct (geo_answer env (tick w)) as [lat lon acc|code msg]; cbn; [by left|].
  destruct code; cbn; auto.
Qed.

(** [startUpload] with files queued, no upload running and no location
    to be had: nothing is stored, the error toast is shown, and only the
    location device was called. *)
Lemma startUpload_without_location (w : World) :
  selectedFiles (uploadManager w) ≠ [] →
  isUploading (uploadManager w) = false →
  Spec.no_location_fix env w →
  let r := Upload.startUpload env w in
  r.1 = Ok tt
  ∧ remote r.2 = remote w
  ∧ uploadManager r.2 = uploadManager w
  ∧ last (toasts r.2) = Some (MsgLocationRequired, error)
  ∧ ∃ evs, console r.2 = console w ++ evs ∧ Forall (λ ev, ev = EvFixRequest) evs.
Proof.
  intros Hfiles Hidle Hno r. subst r.
  assert (Hcheck : ∃ w1, Upload.checkLocationPermission env w = (Ok false, w1)
                         ∧ Spec.keeps_backend w w1
                         ∧ (toasts w1 = toasts w
                            ∨ toasts w1 = toasts w ++ [(MsgLocationDenied, warning)])
                         ∧ ∃ evs, console w1 = console w ++ evs
                                  ∧ Forall (λ ev, ev = EvFixRequest) evs).
  { unfold Upload.checkLocationPermission. rewrite run_try_catch, run_bind.
    unfold gets at 1. destruct (geolocationManager w) as [g|] eqn:Hg.
    - rewrite run_bind.
      pose proof (getCurrentLocation_frame w) as [Hfr _].
      pose proof (getCurrentLocation_toasts w) as Hto.
      pose proof (getCurrentLocation_console w) as Hco.
      destruct (getCurrentLocation_no_fix w) as [Hr|[e Hr]]; [done|by rewrite Hg| |];
        destruct (Geolocation.getCurrentLocation env w) as [res w1]; cbn in *; subst res;
        exists w1; auto.
    - exists w. unfold Spec.keeps_backend. repeat split; auto.
      exists []. by rewrite app_nil_r. }
  destruct Hcheck as (w1 & Hc & (Hrem & _ & Hum & _) & Hto & Hco).
  assert (Hrun : Upload.startUpload env w
                 = (Ok tt, set_toasts (toasts w1 ++ [(MsgLocationRequired, error)]) w1)).
  { unfold Upload.startUpload. rewrite run_bind. unfold gets at 1. rewrite run_bind.
    unfold gets at 1. destruct (selectedFiles (uploadManager w)) as [|f fs] eqn:Hsel; [done|].
    by rewrite Hidle, run_bind, Hc. }
  rewrite Hrun. cbn. rewrite last_snoc. auto.
Qed.

Lemma checkConnection_connected (w : World) :
  isConnected w = true → Supabase.checkConnection w = (Ok true, w).
Proof. intros H. unfold Supabase.checkConnection. unfold_m. by rewrite H. Qed.

Lemma checkConnection_disconnected (w : World) :
  isConnected w = false →
  Supabase.checkConnection w = (Ok false, set_toasts (toasts w ++ [(MsgNotConfigured, error)]) w).
Proof. intros H. unfold Supabase.checkConnection. unfold_m. by rewrite H. Qed.

Lemma uploadFile_success (w : World) (file : File) (fileName : string) :
  isConnected w = true →
  size file ≠ 0%N →
  String.prefix "image/" (type file) = true →
  storage_answer env (tick w) = None →
  bucket (remote w) !! fileName = None →
  Supabase.uploadFile env file fileName w = (Ok (Some fileName), Spec.stored env w fileName file).
Proof.
  intros Hc Hsz Hty Hst Hfree. unfold Supabase.uploadFile.
  rewrite run_bind, (checkConnection_connected w Hc). cbn [negb].
  apply N.eqb_neq in Hsz. rewrite Hsz, Hty. cbn [negb].
  unfold Supabase.storage_upload, Supabase.update_remote, await_call. unfold_m. cbn.
  rewrite Hst, Hfree. reflexivity.
Qed.

(** Whatever happens, [uploadFile] leaves the upload rows and the
    location state alone. *)
Lemma uploadFile_frame (w : World) (file : File) (fileName : string) :
  let w' := (Supabase.uploadFile env file fileName w).2 in
  uploads (remote w') = uploads (remote w)
  ∧ geolocationManager w' = geolocationManager w
  ∧ geolocation_supported w' = geolocation_supported w
  ∧ isConnected w' = isConnected w.
Proof.
  unfold Supabase.uploadFile, Supabase.checkConnection, Supabase.storage_upload,
    Supabase.update_remote, await_call. unfold_m. cbn.
  destruct (isConnected w) eqn:Hc; cbn; [|by rewrite Hc].
  destruct (size file =? 0)%N; cbn; [by rewrite Hc|].
  destruct (String.prefix _ _); cbn; [|by rewrite Hc].
  destruct (storage_answer env (tick w)); cbn; [by rewrite Hc|].
  destruct (bucket (remote w) !! fileName); cbn; by rewrite Hc.
Qed.

Lemma getLocationForUpload_frame (w : World) :
  let r := Geolocation.getLocationForUpload env w in
  Spec.keeps_backend w r.2 ∧ ∃ o, r.1 = Ok o.
Proof.
  unfold Spec.keeps_backend, Geolocation.getLocationForUpload, Geolocation.getCurrentLocation,
    Geolocation.checkGeolocationSupport, Geolocation.handleLocationError,
    Geolocation.update_manager, Geolocation.this_currentLocation, await_call.
  unfold_m. cbn. destruct (geolocation_supported w) eqn:Hs; cbn; [|rewrite Hs; eauto 10].
  destruct (geolocationManager w) as [g|] eqn:Hg; cbn.
  - destruct (currentLocation g) as [loc|]; cbn.
    + destruct (timestamp loc <? now w - Geolocation.freshness_window); cbn;
        rewrite ?Hs; cbn; [|eauto 10].
      destruct (geo_answer env (tick w)) as [lat lon acc|code msg]; cbn; rewrite ?Hs; [eauto 10|].
      destruct code; cbn; rewrite ?Hs; eauto 10.
    + rewrite Hs; cbn.
      destruct (geo_answer env (tick w)) as [lat lon acc|code msg]; cbn; rewrite ?Hs; [eauto 10|].
      destruct code; cbn; rewrite ?Hs; eauto 10.
  - rewrite Hs; cbn.
    destruct (geo_answer env (tick w)) as [lat lon acc|code msg]; cbn; rewrite ?Hs; [eauto 10|].
    destruct code; cbn; rewrite ?Hs; eauto 10.
Qed.

Lemma location_for_upload_frame (w : World) :
  Spec.keeps_backend w (Supabase.location_for_upload env w).2.
Proof.
  unfold Supabase.location_for_upload. rewrite run_bind. unfold gets at 1.
  destruct (geolocationManager w); [|by unfold Spec.keeps_backend].
  rewrite run_try_catch, run_bind.
  destruct (getLocationForUpload_frame w) as [Hfr [o Ho]].
  destruct (Geolocation.getLocationForUpload env w) as [r w1]. cbn in *. subst r.
  by destruct o.
Qed.

Lemma location_for_upload_never (w : World) :
  Spec.never_located env w →
  ∃ e, (Supabase.location_for_upload env w).1 = Throw e.
Proof.
  intros Hnever. unfold Supabase.location_for_upload. rewrite run_bind. unfold gets at 1.
  destruct (geolocationManager w) as [g|] eqn:Hg; [|by eexists].
  rewrite run_try_catch, run_bind.
  assert (Hnone : (Geolocation.getLocationForUpload env w).1 = Ok None).
  { destruct Hnever as [?|[Hs|[Hcache Hdev]]]; [congruence| |].
    - unfold Geolocation.getLocationForUpload, Geolocation.checkGeolocationSupport.
      unfold_m. cbn. by rewrite Hs.
    - destruct (geolocation_supported w) eqn:Hs.
      + pose proof (getLocationForUpload_by_age env w g Hs Hg) as Hp. cbn zeta in Hp.
        rewrite (Hcache g Hg) in Hp. destruct Hp as (_ & _ & ->).
        by destruct (Hdev (tick w)) as (code & msg & ->).
      + unfold Geolocation.getLocationForUpload, Geolocation.checkGeolocationSupport.
        unfold_m. cbn. by rewrite Hs. }
  destruct (Geolocation.getLocationForUpload env w) as [r w1]. cbn in *. subst r.
  by eexists.
Qed.

Lemma location_for_upload_always (w : World) :
  Spec.always_located env w →
  ∃ loc, (Supabase.location_for_upload env w).1 = Ok loc.
Proof.
  intros ([g Hg] & Hs & Hdev). unfold Supabase.location_for_upload.
  rewrite run_bind. unfold gets at 1. rewrite Hg, run_try_catch, run_bind.
  assert (Hsome : ∃ loc, (Geolocation.getLocationForUpload env w).1 = Ok (Some loc)).
  { pose proof (getLocationForUpload_by_age env w g Hs Hg) as Hp. cbn zeta in Hp.
    destruct (Hdev (tick w)) as (lat & lon & acc & Hans).
    destruct (currentLocation g) as [loc|].
    - destruct (_ <=? _).
      + rewrite Hp. by eexists.
      + destruct Hp as (_ & _ & ->). rewrite Hans. by eexists.
    - destruct Hp as (_ & _ & ->). rewrite Hans. by eexists. }
  destruct Hsome as [loc Hloc].
  destruct (Geolocation.getLocationForUpload env w) as [r w1]. cbn in *. subst r.
  by eexists.
Qed.

Lemma saveUploadMetadata_cases (w : World) (row : UploadRow) :
  isConnected w = true →
  let r := Supabase.saveUploadMetadata env row w in
  isConnected r.2 = true
  ∧ bucket (remote r.2) = bucket (remote w)
  ∧ match insert_answer env (tick w) with
    | DbOk =>
        r.1 = Ok (if insert_echo env (tick w)
                  then Some (with_id (next_id (remote w)) row) else None)
        ∧ uploads (remote r.2) = uploads (remote w) ++ [with_id (next_id (remote w)) row]
    | DbError e | DbReject e =>
        r.1 = Throw (Error ("Failed to save metadata: " +:+ err_message e))
        ∧ uploads (remote r.2) = uploads (remote w)
    end.
Proof.
  intros Hc. unfold Supabase.saveUploadMetadata. rewrite run_bind.
  rewrite (checkConnection_connected w Hc). cbn [negb].
  unfold Supabase.table_insert, Supabase.update_remote, await_call. unfold_m. cbn.
  destruct (insert_answer env (tick w)); cbn; [|auto..].
  by destruct (insert_echo env (tick w)).
Qed.

(** Nothing the analysis service does reaches the caller. *)
Lemma trigger_analysis_caught (w : World) (id : positive) (publicUrl : option string) :
  let r := try_catch (Supabase.trigger_analysis env id publicUrl) (λ _, mret tt) w in
  r.1 = Ok tt
  ∧ bucket (remote r.2) = bucket (remote w)
  ∧ uploads (remote r.2) = uploads (remote w).
Proof.
  unfold Supabase.trigger_analysis, Supabase.update_remote, await_call. unfold_m. cbn.
  destruct (analyze_answer env (tick w)) as [e|ok status [body|]]; cbn; auto.
  destruct (Js.get body "success"); cbn; auto.
Qed.

Lemma progressCallback_run (p : Z) (w : World) :
  Supabase.progressCallback p w = (Ok tt, Spec.logged (EvProgress p) w).
Proof. reflexivity. Qed.

(** The sequence of [completeUpload] once the storage step has gone
    through: the location step, the metadata step and the analysis
    trigger, run on the world that holds the new object. *)
Lemma completeUpload_after_storage (w : World) (file : File) :
  Spec.storage_step_succeeds env w file →
  let fileName := Spec.stored_name w file in
  let publicUrl := Some (Supabase.storage_public_url fileName) in
  let w1 := Spec.logged (EvProgress 50)
              (Spec.stored env (Spec.logged (EvProgress 25) w) fileName file) in
  Supabase.completeUpload env file w =
  match Supabase.location_for_upload env w1 with
  | (Throw e, w2) => (Throw e, w2)
  | (Ok location, w2) =>
      let uploadData :=
        mkUploadRow None (name file) (size file) (type file) publicUrl
                    (Supabase.ist_time env (now w2)) (Some location) "manual" None None in
      match Supabase.saveUploadMetadata env uploadData (Spec.logged (EvProgress 75) w2) with
      | (Throw e, w3) => (Throw e, w3)
      | (Ok metadata, w3) =>
          let w4 := Spec.logged (EvProgress 100) w3 in
          (Ok (Some (mkUploadResult metadata fileName publicUrl)),
           match metadata with
           | Some row =>
               match row_id row with
               | Some id =>
                   (try_catch (Supabase.trigger_analysis env id publicUrl)
                              (λ _, mret tt) w4).2
               | None => w4
               end
           | None => w4
           end)
      end
  end.
Proof.
  intros (Hc & Hsz & Hty & Hst & Hfree). cbn zeta. unfold Spec.stored_name in *.
  unfold Supabase.completeUpload.
  rewrite run_bind, (checkConnection_connected w Hc). cbn [negb].
  rewrite run_try_catch, run_bind. unfold gets at 1.
  rewrite run_bind, progressCallback_run, run_bind.
  rewrite uploadFile_success; [|done..].
  rewrite run_bind, progressCallback_run, run_bind.
  unfold Supabase.getPublicUrl at 1. rewrite run_bind, checkConnection_connected by done.
  cbn [negb]. unfold mret at 1, M_ret at 1.
  rewrite run_bind.
  destruct (Supabase.location_for_upload env _) as [[location|e] w2]; [|done].
  rewrite run_bind. unfold gets at 1.
  rewrite run_bind, progressCallback_run, run_bind.
  destruct (Supabase.saveUploadMetadata env _ _) as [[metadata|e] w3]; [|done].
  rewrite run_bind, progressCallback_run, run_bind.
  unfold mret at 1, M_ret at 1. rewrite run_bind.
  destruct metadata as [row|]; [|done].
  destruct (row_id row) as [id|]; [|done].
  pose proof (trigger_analysis_caught (Spec.logged (EvProgress 100) w3) id
                (Some (Supabase.storage_public_url (pretty (now w) +:+ "_" +:+ name file))))
    as [Hok _].
  destruct (try_catch _ _ _) as [r w5]. cbn in Hok. by subst r.
Qed.

Lemma never_located_persists (w w' : World) :
  geolocationManager w' = geolocationManager w →
  geolocation_supported w' = geolocation_supported w →
  Spec.never_located env w → Spec.never_located env w'.
Proof. unfold Spec.never_located. intros -> ->. done. Qed.

Lemma always_located_persists (w w' : World) :
  geolocationManager w' = geolocationManager w →
  geolocation_supported w' = geolocation_supported w →
  Spec.always_located env w → Spec.always_located env w'.
Proof. unfold Spec.always_located. intros -> ->. done. Qed.

(** When no location can ever be resolved, [completeUpload] stores no
    upload row, and throws if it got as far as trying. *)
Lemma completeUpload_requires_location (w : World) (file : File) :
  Spec.never_located env w →
  let r := Supabase.completeUpload env file w in
  uploads (remote r.2) = uploads (remote w)
  ∧ (isConnected w = true → ∃ e, r.1 = Throw e).
Proof.
  intros Hnever. cbn zeta.
  destruct (Supabase.completeUpload env file w) as [r w'] eqn:E. revert E.
  unfold Supabase.completeUpload. rewrite run_bind.
  destruct (isConnected w) eqn:Hc.
  - rewrite checkConnection_connected by done. cbn [negb].
    rewrite run_try_catch, run_bind. unfold gets at 1.
    rewrite run_bind, progressCallback_run, run_bind.
    pose proof (uploadFile_frame (Spec.logged (EvProgress 25) w) file
                  (pretty (now w) +:+ "_" +:+ name file)) as Hfr.
    cbn zeta in Hfr.
    destruct (Supabase.uploadFile env file _ _) as [[o|e] w1]; cbn in Hfr;
      destruct Hfr as (Hup & Hgm & Hgs & Hco); [|cbn; intros [= <- <-]; eauto].
    rewrite run_bind, progressCallback_run, run_bind.
    unfold Supabase.getPublicUrl at 1.
    rewrite run_bind, checkConnection_connected by (cbn; congruence).
    cbn [negb]. unfold mret at 1, M_ret at 1. rewrite run_bind.
    pose proof (location_for_upload_frame (Spec.logged (EvProgress 50) w1)) as (Hrem & _).
    destruct (location_for_upload_never (Spec.logged (EvProgress 50) w1)) as [e He].
    { by apply (never_located_persists w). }
    destruct (Supabase.location_for_upload env _) as [rl w2]. cbn in He, Hrem. subst rl.
    cbn. intros [= <- <-]. cbn. rewrite Hrem. cbn. eauto.
  - rewrite checkConnection_disconnected by done. cbn. intros [= <- <-]. cbn.
    split; [done|]. discriminate.
Qed.

(** C5.  Location is mandatory.  When files are queued, no upload is
    running and no location can be resolved, [startUpload] returns
    without storing anything: the backend (storage objects and upload
    rows) is untouched, the queue is untouched, the last toast shown is
    the error "Location access is required for uploading...", and the
    only thing that was called is the location device, so no validation
    is run and no storage or database call is made.  The upload sequence
    itself does not proceed without coordinates either: when no location
    can be resolved, [completeUpload] stores no upload row and throws. *)
Theorem upload_requires_location (w : World) :
  selectedFiles (uploadManager w) ≠ [] →
  isUploading (uploadManager w) = false →
  Spec.no_location_fix env w →
  let r := Upload.startUpload env w in
  (r.1 = Ok tt
   ∧ remote r.2 = remote w
   ∧ uploadManager r.2 = uploadManager w
   ∧ last (toasts r.2) = Some (MsgLocationRequired, error)
   ∧ ∃ evs, console r.2 = console w ++ evs ∧ Forall (λ ev, ev = EvFixRequest) evs)
  ∧ ∀ file, Spec.never_located env w →
      let c := Supabase.completeUpload env file w in
      uploads (remote c.2) = uploads (remote w)
      ∧ (isConnected w = true → ∃ e, c.1 = Throw e).
Proof.
  intros Hfiles Hidle Hno. split.
  - by apply startUpload_without_location.
  - intros file Hnever. by apply completeUpload_requires_location.
Qed.

(** C6.  When the storage step of [completeUpload] succeeds and the
    metadata insert then fails, the call throws the metadata error, the
    uploads table has no new row, and the stored object stays where it
    was put: the bucket is the old bucket plus the new object, nothing
    is removed, and the object's key still resolves to its public URL. *)
Theorem completeUpload_no_rollback (w : World) (file : File) :
  Spec.storage_step_succeeds env w file →
  Spec.always_located env w →
  (∀ n, insert_answer env n ≠ DbOk) →
  let r := Supabase.completeUpload env file w in
  let fileName := Spec.stored_name w file in
  (∃ e, r.1 = Throw (Error ("Failed to save metadata: " +:+ err_message e)))
  ∧ uploads (remote r.2) = uploads (remote w)
  ∧ bucket (remote r.2) = <[fileName := file]> (bucket (remote w))
  ∧ bucket (remote r.2) !! fileName = Some file
  ∧ (Supabase.getPublicUrl fileName r.2).1 = Ok (Some (Supabase.storage_public_url fileName)).
Proof.
  intros Hst Hloc Hins. cbn zeta.
  rewrite (completeUpload_after_storage w file Hst). cbn zeta.
  destruct Hst as (Hc & _).
  set (w1 := Spec.logged (EvProgress 50) _).
  destruct (location_for_upload_always w1) as [loc Hl].
  { by apply (always_located_persists w). }
  pose proof (location_for_upload_frame w1) as (Hrem & Hcon & _).
  destruct (Supabase.location_for_upload env w1) as [rl w2]. cbn in Hl, Hrem, Hcon. subst rl.
  set (row := mkUploadRow _ _ _ _ _ _ _ _ _ _).
  pose proof (saveUploadMetadata_cases (Spec.logged (EvProgress 75) w2) row) as Hsave.
  cbn zeta in Hsave. destruct Hsave as (Hcon3 & Hb & Hcase); [by cbn; rewrite Hcon|].
  pose proof (Hins (tick (Spec.logged (EvProgress 75) w2))) as Hne.
  destruct (Supabase.saveUploadMetadata env row _) as [rm w3]. cbn in Hcon3, Hb, Hcase.
  assert (Hthrow : (∃ e, rm = Throw (Error ("Failed to save metadata: " +:+ err_message e)))
                   ∧ uploads (remote w3) = uploads (remote w2)).
  { destruct (insert_answer env _) as [|e|e]; [done|..]; destruct Hcase; eauto. }
  destruct Hthrow as ([e ->] & Hup). cbn.
  rewrite Hup, Hb, Hrem. cbn.
  split; [eauto|]. split; [done|]. split; [done|]. split; [by rewrite lookup_insert_eq|].
  unfold Supabase.getPublicUrl. rewrite run_bind, checkConnection_connected by done. done.
Qed.

(** C10.  When the storage step, the location step and the metadata
    insert of [completeUpload] succeed, the call returns the inserted
    row together with the storage path and the public URL, whatever the
    analysis service does afterwards: nothing is assumed about the
    answer to the POST, which may be a rejected request, a body that is
    not JSON, or a JSON body reporting failure. *)
Theorem completeUpload_survives_analysis_failure (w : World) (file : File) :
  Spec.storage_step_succeeds env w file →
  Spec.always_located env w →
  (∀ n, insert_answer env n = DbOk) →
  (∀ n, insert_echo env n = true) →
  let r := Supabase.completeUpload env file w in
  let fileName := Spec.stored_name w file in
  ∃ row,
    r.1 = Ok (Some (mkUploadResult (Some row) fileName
                                   (Some (Supabase.storage_public_url fileName))))
    ∧ uploads (remote r.2) = uploads (remote w) ++ [row]
    ∧ file_name row = name file
    ∧ row_id row = Some (next_id (remote w))
    ∧ bucket (remote r.2) !! fileName = Some file.
Proof.
  intros Hst Hloc Hins Hecho. cbn zeta.
  rewrite (completeUpload_after_storage w file Hst). cbn zeta.
  destruct Hst as (Hc & _).
  set (w1 := Spec.logged (EvProgress 50) _).
  destruct (location_for_upload_always w1) as [loc Hl].
  { by apply (always_located_persists w). }
  pose proof (location_for_upload_frame w1) as (Hrem & Hcon & _).
  destruct (Supabase.location_for_upload env w1) as [rl w2]. cbn in Hl, Hrem, Hcon. subst rl.
  set (row := mkUploadRow _ _ _ _ _ _ _ _ _ _).
  pose proof (saveUploadMetadata_cases (Spec.logged (EvProgress 75) w2) row) as Hsave.
  cbn zeta in Hsave. destruct Hsave as (Hcon3 & Hb & Hcase); [by cbn; rewrite Hcon|].
  rewrite Hins, Hecho in Hcase.
  destruct (Supabase.saveUploadMetadata env row _) as [rm w3]. cbn in Hcon3, Hb, Hcase.
  destruct Hcase as (-> & Hup). cbn [with_id row_id].
  exists (with_id (next_id (remote w2)) row).
  pose proof (trigger_analysis_caught (Spec.logged (EvProgress 100) w3)
                (next_id (remote w2))
                (Some (Supabase.storage_public_url (Spec.stored_name w file))))
    as (_ & Hb5 & Hup5).
  cbn zeta in Hb5, Hup5. cbn [fst snd].
  split; [done|]. rewrite Hup5, Hb5. cbn. rewrite Hup, Hb. cbn. rewrite Hrem. cbn.
  split; [done|]. split; [done|]. split; [done|]. by rewrite lookup_insert_eq.
Qed.
End UploadSequence.

(** C5 at a page with one photo queued and a device that denies the
    location permission. *)
Lemma upload_requires_location_witness :
  let w := Examples.queued_world in
  let r := Upload.startUpload Examples.denied_env w in
  (r.1 = Ok tt
   ∧ remote r.2 = remote w
   ∧ uploadManager r.2 = uploadManager w
   ∧ last (toasts r.2) = Some (MsgLocationRequired, error)
   ∧ ∃ evs, console r.2 = console w ++ evs ∧ Forall (λ ev, ev = EvFixRequest) evs)
  ∧ let c := Supabase.completeUpload Examples.denied_env Examples.photo w in
    uploads (remote c.2) = uploads (remote w) ∧ ∃ e, c.1 = Throw e.
Proof.
  destruct (upload_requires_location Examples.denied_env Examples.queued_world)
    as [Hstart Hcomplete].
  - discriminate.
  - reflexivity.
  - right. right. eexists _, _. reflexivity.
  - split; [exact Hstart|].
    destruct (Hcomplete Examples.photo) as [Hrows Hthrow].
    + right. right. split; [by intros g [= <-]|]. intros n. eexists _, _. reflexivity.
    + split; [exact Hrows|]. apply Hthrow. reflexivity.
Defined.

Lemma fresh_world_storage_step (env : Env) :
  storage_answer env 0%nat = None →
  Spec.storage_step_succeeds env Examples.fresh_world Examples.photo.
Proof.
  intros Hst. split; [reflexivity|]. split; [discriminate|]. split; [reflexivity|].
  split; [exact Hst|apply lookup_empty].
Qed.

Lemma fresh_world_always_located (env : Env) (lat lon acc : Z) :
  (∀ n, geo_answer env n = GeoPosition lat lon acc) →
  Spec.always_located env Examples.fresh_world.
Proof.
  intros Hgeo. split; [by eexists|]. split; [done|]. intros n. by eexists _, _, _.
Qed.

(** C6 at a 2 MB JPEG uploaded from a fresh page while the database
    refuses the insert. *)
Lemma completeUpload_no_rollback_witness :
  let w := Examples.fresh_world in
  let r := Supabase.completeUpload Examples.insert_refused_env Examples.photo w in
  let fileName := Spec.stored_name w Examples.photo in
  (∃ e, r.1 = Throw (Error ("Failed to save metadata: " +:+ err_message e)))
  ∧ uploads (remote r.2) = uploads (remote w)
  ∧ bucket (remote r.2) = <[fileName := Examples.photo]> (bucket (remote w))
  ∧ bucket (remote r.2) !! fileName = Some Examples.photo
  ∧ (Supabase.getPublicUrl fileName r.2).1 = Ok (Some (Supabase.storage_public_url fileName)).
Proof.
  apply (completeUpload_no_rollback Examples.insert_refused_env Examples.fresh_world
           Examples.photo).
  - apply fresh_world_storage_step. reflexivity.
  - apply (fresh_world_always_located _ 12971600 77594600 15). reflexivity.
  - intros n. discriminate.
Defined.

(** C10 at a 2 MB JPEG uploaded from a fresh page while the analysis
    service is unreachable. *)
Lemma completeUpload_survives_analysis_failure_witness :
  let w := Examples.fresh_world in
  let r := Supabase.completeUpload Examples.analysis_down_env Examples.photo w in
  let fileName := Spec.stored_name w Examples.photo in
  ∃ row,
    r.1 = Ok (Some (mkUploadResult (Some row) fileName
                                   (Some (Supabase.storage_public_url fileName))))
    ∧ uploads (remote r.2) = uploads (remote w) ++ [row]
    ∧ file_name row = name Examples.photo
    ∧ row_id row = Some (next_id (remote w))
    ∧ bucket (remote r.2) !! fileName = Some Examples.photo.
Proof.
  apply (completeUpload_survives_analysis_failure Examples.analysis_down_env
           Examples.fresh_world Examples.photo).
  - apply fresh_world_storage_step. reflexivity.
  - apply (fresh_world_always_located _ 12971600 77594600 15). reflexivity.
  - reflexivity.
  - reflexivity.
Defined.

(** ** Claiming a CaptureTrigger *)

Section TriggerClaims.

Lemma claimable_mark_row (triggerId : string) (row : TriggerRow) :
  Trigger.claimable triggerId (Trigger.mark_row triggerId row) = false.
Proof.
  unfold Trigger.mark_row. destruct (Trigger.claimable triggerId row) eqn:E; [|done].
  unfold Trigger.claimable. cbn. by rewrite andb_false_r.
Qed.

(** Once the conditional update has run, it matches no row. *)
Lemma table_update_idempotent (triggerId : string) (r : Remote) :
  Trigger.table_update triggerId (Trigger.table_update triggerId r).2
  = ([], (Trigger.table_update triggerId r).2).
Proof.
  unfold Trigger.table_update. cbn [fst snd sensor_data bucket uploads next_id analysis_posts].
  assert (Hnone : filter (λ row, Is_true (Trigger.claimable triggerId row))
                    (map (Trigger.mark_row triggerId) (sensor_data r)) = []).
  { induction (sensor_data r) as [|row rows IH]; [done|]. cbn [map].
    rewrite filter_cons_False; [exact IH|]. rewrite claimable_mark_row. intros []. }
  assert (Hsame : map (Trigger.mark_row triggerId)
                    (map (Trigger.mark_row triggerId) (sensor_data r))
                  = map (Trigger.mark_row triggerId) (sensor_data r)).
  { clear Hnone. induction (sensor_data r) as [|row rows IH]; [done|]. cbn [map].
    f_equal; [|exact IH].
    unfold Trigger.mark_row at 1. by rewrite claimable_mark_row. }
  by rewrite Hnone, Hsame.
Qed.

Lemma table_update_unconsumed (triggerId : string) (r : Remote) :
  Spec.unconsumed triggerId r → (Trigger.table_update triggerId r).1 ≠ [].
Proof.
  intros (row & Hin & Hid & Hp). unfold Trigger.table_update. cbn [fst].
  assert (Hrow : row ∈ filter (λ row, Is_true (Trigger.claimable triggerId row)) (sensor_data r)).
  { apply list_elem_of_filter. split; [|done].
    unfold Trigger.claimable. by rewrite Hid, String.eqb_refl, Hp. }
  destruct (filter _ _) as [|x l]; [by apply elem_of_nil in Hrow|done].
Qed.

Lemma markTriggerAsProcessed_run (env : Env) (triggerId : string) (w : World) :
  Trigger.markTriggerAsProcessed env triggerId w =
  let w1 := Spec.after_call env (EvClaim triggerId) w in
  match update_answer env (tick w) with
  | DbOk =>
      (Ok (match (Trigger.table_update triggerId (remote w)).1 with
           | [] => false
           | _ :: _ => true
           end),
       set_remote (Trigger.table_update triggerId (remote w)).2 w1)
  | DbError _ | DbReject _ => (Ok false, w1)
  end.
Proof.
  unfold Trigger.markTriggerAsProcessed, await_call. unfold_m. cbn.
  destruct (update_answer env (tick w)); cbn; [|done..].
  by destruct (filter _ _).
Qed.

(** A claim on a table in which the update has already run fails and
    changes nothing in the backend. *)
Lemma markTriggerAsProcessed_lost (env : Env) (triggerId : string) (w : World) :
  (Trigger.table_update triggerId (remote w)).1 = [] →
  (Trigger.table_update triggerId (remote w)).2 = remote w →
  let b := Trigger.markTriggerAsProcessed env triggerId w in
  b.1 = Ok false ∧ remote b.2 = remote w.
Proof.
  intros Hnone Hsame. cbn zeta. rewrite markTriggerAsProcessed_run. cbn zeta.
  rewrite Hnone, Hsame. by destruct (update_answer env (tick w)).
Qed.

Lemma markTriggerAsProcessed_remote (env : Env) (triggerId : string) (w : World) :
  (Trigger.markTriggerAsProcessed env triggerId w).1 = Ok true →
  remote (Trigger.markTriggerAsProcessed env triggerId w).2
  = (Trigger.table_update triggerId (remote w)).2.
Proof.
  rewrite markTriggerAsProcessed_run. cbn zeta.
  by destruct (update_answer env (tick w)).
Qed.

(** A claim that succeeded leaves nothing to claim for anyone else. *)
Lemma claim_excludes_later_claims (envA envB : Env) (triggerId : string) (wA wB : World) :
  let a := Trigger.markTriggerAsProcessed envA triggerId wA in
  let b := Trigger.markTriggerAsProcessed envB triggerId (Spec.sees_backend_of a.2 wB) in
  a.1 = Ok true → b.1 = Ok false ∧ remote b.2 = remote a.2.
Proof.
  intros a b Ha. subst b.
  pose proof (markTriggerAsProcessed_remote envA triggerId wA Ha) as Hrem. fold a in Hrem.
  pose proof (table_update_idempotent triggerId (remote wA)) as Hidem.
  rewrite <- Hrem in Hidem.
  apply (markTriggerAsProcessed_lost envB triggerId (Spec.sees_backend_of a.2 wB)).
  - cbn [Spec.sees_backend_of remote set_remote]. by rewrite Hidem.
  - cbn [Spec.sees_backend_of remote set_remote]. by rewrite Hidem.
Qed.

(** [processTrigger] on a trigger that someone else has claimed. *)
Lemma processTrigger_lost_claim (env : Env) (trigger : TriggerRow) (w : World) :
  (Trigger.table_update (tr_id trigger) (remote w)).1 = [] →
  (Trigger.table_update (tr_id trigger) (remote w)).2 = remote w →
  let p := Trigger.processTrigger env trigger w in
  p.1 = Ok tt ∧ remote p.2 = remote w ∧ Spec.skipped_silently trigger w p.2.
Proof.
  intros Hnone Hsame. cbn zeta.
  destruct (Trigger.processTrigger env trigger w) as [r w'] eqn:E. revert E.
  unfold Trigger.processTrigger. rewrite run_try_catch, run_bind.
  unfold Trigger.logActivity at 1, Trigger.update_manager at 1, modify at 1.
  rewrite run_bind, markTriggerAsProcessed_run. cbn zeta. cbn [remote set_sensorTriggerManager].
  rewrite Hnone, Hsame.
  destruct (update_answer env _); cbn [negb]; unfold mret, M_ret;
    intros [= <- <-]; unfold Spec.skipped_silently; cbn; done.
Qed.

(** Nobody claims a trigger on a table in which the update has run. *)
Lemma claim_results_after_update (triggerId : string) (r : Remote)
      (sessions : list (Env * World)) :
  (Trigger.table_update triggerId r).1 = [] →
  (Trigger.table_update triggerId r).2 = r →
  Spec.count_true (Spec.claim_results triggerId r sessions) = 0%nat.
Proof.
  revert r. induction sessions as [|[env w] rest IH]; intros r Hnone Hsame; [done|].
  cbn [Spec.claim_results].
  destruct (markTriggerAsProcessed_lost env triggerId (set_remote r w)) as [Hb Hr];
    [done..|]. cbn zeta in Hb, Hr. cbn [remote set_remote] in Hr.
  rewrite Hb, Hr. unfold Spec.count_true in *. rewrite filter_cons_False by (intros []).
  by apply IH.
Qed.

(** However many sessions race for a trigger, at most one claim succeeds. *)
Lemma at_most_one_claim (triggerId : string) (r : Remote) (sessions : list (Env * World)) :
  (Spec.count_true (Spec.claim_results triggerId r sessions) ≤ 1)%nat.
Proof.
  revert r. induction sessions as [|[env w] rest IH]; intros r; [cbn; lia|].
  cbn [Spec.claim_results].
  pose proof (table_update_idempotent triggerId r) as Hidem.
  rewrite markTriggerAsProcessed_run. cbn zeta.
  destruct (update_answer env (tick (set_remote r w))); cbn [fst snd remote set_remote].
  - unfold Spec.count_true.
    destruct (Trigger.table_update triggerId r).1 eqn:Hrows.
    + rewrite filter_cons_False by (intros []). apply IH.
    + rewrite filter_cons_True by done. cbn [length].
      pose proof (claim_results_after_update triggerId (Trigger.table_update triggerId r).2 rest)
        as Hrest.
      unfold Spec.count_true in Hrest. rewrite Hrest; [lia|by rewrite Hidem..].
  - unfold Spec.count_true. rewrite filter_cons_False by (intros []). apply IH.
  - unfold Spec.count_true. rewrite filter_cons_False by (intros []). apply IH.
Qed.


End TriggerClaims.

(** ** Camera capture *)

Section CameraClaims.

Lemma camera_invariant_initial (t : Z) : Camera.invariant (Camera.initial t).
Proof. unfold Camera.invariant. cbn. repeat split; auto; discriminate. Qed.

Lemma stopCameraStream_releases (s : Camera.State) :
  Camera.live s = match Camera.currentStream s with Some id => [id] | None => [] end →
  Camera.live (Camera.stopCameraStream s) = []
  ∧ Camera.currentStream (Camera.stopCameraStream s) = None.
Proof.
  unfold Camera.stopCameraStream. destruct (Camera.currentStream s) as [id|] eqn:E.
  - intros ->. cbn [Camera.live Camera.currentStream].
    rewrite filter_cons_False by (intros H; by apply H). done.
  - intros ->. by rewrite E.
Qed.

(** Every exit of the routine has the shape "stop the stream, then
    settle the promise"; the state it leaves satisfies the invariant. *)
Lemma stop_then_settle_invariant (s : Camera.State) (p : Camera.Promise) :
  p ≠ Camera.Pending →
  Camera.live s = match Camera.currentStream s with Some id => [id] | None => [] end →
  Camera.stage s ≠ Camera.Requesting →
  Camera.invariant (Camera.settle p (Camera.stopCameraStream s))
  ∧ Camera.settled (Camera.promise (Camera.settle p (Camera.stopCameraStream s))) = true
  ∧ Camera.live (Camera.settle p (Camera.stopCameraStream s)) = [].
Proof.
  intros Hp Hlive Hstage.
  destruct (stopCameraStream_releases s Hlive) as [Hl Hc].
  assert (Hst : Camera.stage (Camera.stopCameraStream s) = Camera.stage s).
  { unfold Camera.stopCameraStream. by destruct (Camera.currentStream s). }
  destruct (Camera.stopCameraStream s) as [clk cur lv pr st acq fb sb]. cbn in *. subst.
  unfold Camera.invariant, Camera.settle. cbn.
  destruct pr; cbn; (split; [|split; [|done]]); repeat split; try done;
    by destruct p.
Qed.

Lemma camera_invariant_step (s s' : Camera.State) (ev : Camera.Event) :
  Camera.invariant s → Camera.step s ev = Some s' → Camera.invariant s'.
Proof.
  unfold Camera.step. destruct (Camera.enabled s ev) eqn:Hen; [|done].
  intros (Hlive & Hset & Hreq & Hbound) [= <-].
  destruct s as [clk cur lv pr st acq fb sb]. cbn in *.
  unfold Camera.enabled in Hen. cbn in Hen.
  apply andb_true_iff in Hen as [Hclk Hen]. apply Z.leb_le in Hclk.
  assert (Hfb : Camera.not_overdue fb (Camera.event_time ev) = true
                → pr = Camera.Pending → ∀ t, acq = Some t →
                  fb = Some (t + Camera.capture_timeout)
                  ∧ Camera.event_time ev ≤ t + Camera.capture_timeout).
  { intros Hno Hp t Ht. destruct (Hbound Hp t Ht) as [-> _]. split; [done|].
    cbn in Hno. by apply Z.leb_le in Hno. }
  destruct ev as [t id|t e|t|t|t e|t e|t captureError|t blob|t]; cbn in Hen, Hfb;
    repeat match goal with
           | H : _ && _ = true |- _ => apply andb_true_iff in H as [? ?]
           end;
    cbn [Camera.handle Camera.event_time].
  - (* the stream is obtained *)
    destruct st; try done. destruct Hreq as (-> & -> & -> & -> & ->); [done|].
    subst lv. unfold Camera.invariant. cbn. repeat split; try done; simplify_eq;
      [done|unfold Camera.capture_timeout; lia].
  - (* the camera request fails *)
    destruct st; try done. by apply stop_then_settle_invariant.
  - (* metadata loaded *)
    destruct st; try done. unfold Camera.invariant. cbn. repeat split; try done; by apply Hfb.
  - (* playback started *)
    destruct st; try done. unfold Camera.invariant. cbn. repeat split; try done; by apply Hfb.
  - (* playback failed *)
    destruct st; try done. by apply stop_then_settle_invariant.
  - (* video error *)
    apply stop_then_settle_invariant; [done|done|]. cbn. by destruct st.
  - (* the stabilisation timer fires *)
    assert (Hst : st ≠ Camera.Requesting).
    { intros ->. destruct Hreq as (_ & _ & _ & _ & ->); done. }
    destruct captureError as [e|].
    + by apply stop_then_settle_invariant.
    + unfold Camera.invariant. cbn. repeat split; try done; by apply Hfb.
  - (* the encoded frame arrives *)
    destruct st; try done.
    destruct blob as [b|]; [destruct (0 <? size b)%N|]; by apply stop_then_settle_invariant.
  - (* the fallback timer fires *)
    apply stop_then_settle_invariant; [done|done|]. cbn.
    intros ->. destruct Hreq as (_ & _ & _ & -> & _); done.
Qed.

Lemma camera_invariant_run (evs : list Camera.Event) (s s' : Camera.State) :
  Camera.invariant s → Camera.run s evs = Some s' → Camera.invariant s'.
Proof.
  revert s. induction evs as [|ev evs IH]; intros s Hinv; cbn.
  - by intros [= <-].
  - destruct (Camera.step s ev) as [s1|] eqn:E; [|done].
    apply IH. by apply (camera_invariant_step s s1 ev).
Qed.

(** An exit callback stops the stream and then settles the promise. *)
Lemma camera_exit_step (s s' : Camera.State) (ev : Camera.Event) :
  Camera.invariant s → Camera.step s ev = Some s' → Camera.is_exit ev = true →
  Camera.settled (Camera.promise s') = true ∧ Camera.live s' = [].
Proof.
  unfold Camera.step. destruct (Camera.enabled s ev) eqn:Hen; [|done].
  intros (Hlive & Hset & Hreq & Hbound) [= <-] Hexit.
  unfold Camera.enabled in Hen. apply andb_true_iff in Hen as [_ Hen].
  assert (Hgo : ∀ s0 p, p ≠ Camera.Pending →
            Camera.live s0 = Camera.live s → Camera.currentStream s0 = Camera.currentStream s →
            Camera.settled (Camera.promise (Camera.settle p (Camera.stopCameraStream s0))) = true
            ∧ Camera.live (Camera.settle p (Camera.stopCameraStream s0)) = []).
  { intros s0 p Hp Hl Hc.
    assert (Hl0 : Camera.live s0 = match Camera.currentStream s0 with
                                   | Some id => [id] | None => [] end) by by rewrite Hl, Hc.
    destruct (stopCameraStream_releases s0 Hl0) as [Hl1 _].
    destruct (Camera.stopCameraStream s0) as [clk cur lv pr st acq fb sb]. cbn in *. subst lv.
    unfold Camera.settle. cbn. destruct pr; cbn; split; try done; by destruct p. }
  destruct ev as [t id|t e|t|t|t e|t e|t [e|]|t blob|t]; try done;
    cbn [Camera.handle Camera.event_time]; try (by apply Hgo).
  destruct blob as [b|]; [destruct (0 <? size b)%N|]; by apply Hgo.
Qed.


End CameraClaims.



(** ** Reading the analysis records *)

Section AnalysisClaims.

Lemma getAllAnalysesFromAPI_total (api : Analysis.Timed FetchOutcome) :
  ∃ v, Analysis.getAllAnalysesFromAPI api = Ok v.
Proof.
  unfold Analysis.getAllAnalysesFromAPI.
  destruct (Analysis.api_body api) as [v|e]; [by eexists|].
  destruct (String.eqb _ _); by eexists.
Qed.

Lemma getAllAnalyses_total (api : Analysis.Timed FetchOutcome)
      (db : Analysis.Timed Analysis.Select) :
  ∃ v, Analysis.getAllAnalyses api db = Ok v.
Proof.
  unfold Analysis.getAllAnalyses.
  destruct (Analysis.analyses_body api db); by eexists.
Qed.

Lemma api_body_envelopes (result : Js.value) :
  match Js.get result "success", Js.get result "data", Js.get result "analyses" with
  | Some ok_flag, Some data, Some analyses =>
      Spec.has_data_envelope result = Js.truthy ok_flag && Js.truthy data
      ∧ Spec.has_analyses_envelope result = Js.truthy analyses
  | _, _, _ => result = Js.Undefined ∨ result = Js.Null
  end.
Proof.
  unfold Spec.has_data_envelope, Spec.has_analyses_envelope.
  destruct result; cbn; auto.
Qed.

Lemma truthy_and (a b : Js.value) :
  Js.truthy (Js.and_ a b) = Js.truthy a && Js.truthy b.
Proof. unfold Js.and_. by destruct (Js.truthy a) eqn:E. Qed.

Lemma getAllAnalysesFromAPI_failure (api : Analysis.Timed FetchOutcome) :
  Spec.ApiFailure api → Analysis.getAllAnalysesFromAPI api = Ok Js.empty_array.
Proof.
  assert (Hcatch : ∀ r, (∀ v, r = Ok v → v = Js.empty_array) →
            match r with
            | Ok v => Ok v
            | Throw e => if String.eqb (err_name e) "AbortError"
                         then Ok Js.empty_array else Ok Js.empty_array
            end = Ok Js.empty_array).
  { intros [v|e] Hv; [by rewrite (Hv v eq_refl)|by destruct (String.eqb _ _)]. }
  intros Hfail. unfold Analysis.getAllAnalysesFromAPI. apply Hcatch.
  unfold Analysis.api_body, Analysis.fetch_with_abort.
  destruct Hfail as [|latency r Hlate|latency e|latency status body|latency ok status
                     |latency ok status result Hd Ha]; try done.
  - destruct (Z.ltb_spec latency Analysis.api_timeout); [lia|done].
  - by destruct (latency <? Analysis.api_timeout).
  - by destruct (latency <? Analysis.api_timeout).
  - destruct (latency <? Analysis.api_timeout); [|done]. by destruct ok.
  - destruct (latency <? Analysis.api_timeout); [|done]. destruct ok; [|done]. cbn [negb].
    pose proof (api_body_envelopes result) as He. unfold Analysis.get.
    destruct (Js.get result "success") as [s|]; [|done].
    destruct (Js.get result "data") as [d|]; [|done].
    destruct (Js.get result "analyses") as [a|]; [|done].
    destruct He as [He1 He2]. rewrite Hd in He1. rewrite Ha in He2.
    rewrite truthy_and, <- He1, <- He2. intros v Hv. congruence.
Qed.

Lemma queryWithTimeout_failure (db : Analysis.Timed Analysis.Select) :
  Spec.DbFailure db →
  match Analysis.queryWithTimeout db Analysis.query_timeout with
  | Analysis.SelectRejects _ => True
  | Analysis.SelectResolves _ err => Js.truthy err = true
  end.
Proof.
  intros [|latency r Hlate|latency e|latency data err Herr]; cbn; try done.
  - destruct (Z.ltb_spec latency Analysis.query_timeout); [lia|done].
  - by destruct (latency <? Analysis.query_timeout).
  - by destruct (latency <? Analysis.query_timeout).
Qed.


End AnalysisClaims.


(** * Further properties *)

(** ** Relations kept by every step *)

Section Preserves.

Context (R : World → World → Prop) `{!PreOrder R}.

Lemma preserves_ret {A} (a : A) : Facts.preserves R (mret a : M A).
Proof. intros w. cbn. reflexivity. Qed.

Lemma preserves_throw {A} (e : JsError) : Facts.preserves R (throw e : M A).
Proof. intros w. cbn. reflexivity. Qed.

Lemma preserves_gets {A} (f : World → A) : Facts.preserves R (gets f).
Proof. intros w. cbn. reflexivity. Qed.

Lemma preserves_modify (f : World → World) :
  (∀ w, R w (f w)) → Facts.preserves R (modify f).
Proof. intros Hf w. cbn. apply Hf. Qed.

Lemma preserves_bind {A B} (m : M A) (f : A → M B) :
  Facts.preserves R m → (∀ a, Facts.preserves R (f a)) → Facts.preserves R (m ≫= f).
Proof.
  intros Hm Hf w. rewrite run_bind. specialize (Hm w).
  destruct (m w) as [[a|e] w1]; cbn in *; [|done].
  etrans; [exact Hm|apply Hf].
Qed.

Lemma preserves_try_catch {A} (m : M A) (h : JsError → M A) :
  Facts.preserves R m → (∀ e, Facts.preserves R (h e)) → Facts.preserves R (try_catch m h).
Proof.
  intros Hm Hh w. rewrite run_try_catch. specialize (Hm w).
  destruct (m w) as [[a|e] w1]; cbn in *; [done|].
  etrans; [exact Hm|apply Hh].
Qed.

Lemma preserves_try_finally {A} (m : M A) (f : World → World) :
  Facts.preserves R m → (∀ w, R w (f w)) → Facts.preserves R (try_finally m f).
Proof.
  intros Hm Hf w. unfold try_finally. specialize (Hm w).
  destruct (m w) as [r w1]; cbn in *. etrans; [exact Hm|apply Hf].
Qed.

End Preserves.

#[global] Instance keeps_preorder {B} (f : World → B) : PreOrder (Facts.keeps f).
Proof. split; [by intros w|intros w1 w2 w3 H1 H2; unfold Facts.keeps in *; congruence]. Qed.

Lemma preserves_await_call (R : World → World → Prop) (env : Env) :
  (∀ w, R w (set_tick (S (tick w)) (set_now (now w + elapsed env (tick w)) w))) →
  Facts.preserves R (await_call env).
Proof. intros H w. apply H. Qed.

(** Unfolds the operations of the model down to the steps of the monad. *)
Ltac unfold_ops :=
  unfold Supabase.completeUpload, Supabase.location_for_upload, Supabase.trigger_analysis,
    Supabase.saveUploadMetadata, Supabase.table_insert, Supabase.getPublicUrl,
    Supabase.uploadFile, Supabase.checkConnection,
    Supabase.progressCallback, Supabase.update_remote,
    Geolocation.getLocationForUpload, Geolocation.getCurrentLocation,
    Geolocation.handleLocationError, Geolocation.checkGeolocationSupport,
    Geolocation.this_currentLocation, Geolocation.update_manager,
    Upload.cancelUpload, Upload.cancelActiveUpload, Upload.update_manager,
    Upload.checkLocationPermission,
    Trigger.accessCameraAndCapture, Trigger.count_failure, Trigger.logActivity,
    Trigger.update_manager.

(** Decomposes a goal [preserves R m] along the structure of [m]. *)
Ltac preserves_step :=
  match goal with
  | |- Facts.preserves _ (mbind _ _) => apply preserves_bind; [apply _| |intros ?]
  | |- Facts.preserves _ (try_catch _ _) => apply preserves_try_catch; [apply _| |intros ?]
  | |- Facts.preserves _ (try_finally _ _) =>
      apply preserves_try_finally; [apply _| |intros ?]
  | |- Facts.preserves _ (mret _) => apply preserves_ret; apply _
  | |- Facts.preserves _ (throw _) => apply preserves_throw; apply _
  | |- Facts.preserves _ (gets _) => apply preserves_gets; apply _
  | |- Facts.preserves _ (modify _) => apply preserves_modify; intros ?
  | |- Facts.preserves _ (showToast _ _) => apply preserves_modify; intros ?
  | |- Facts.preserves _ (log _) => apply preserves_modify; intros ?
  | |- Facts.preserves _ (await_call _) => apply preserves_await_call; intros ?
  | |- Facts.preserves _ (match ?x with _ => _ end) => destruct x
  | |- Facts.preserves _ (let (_, _) := ?x in _) => destruct x
  end.

(** Components that no step of an operation writes are kept by it. *)
Ltac keeps_auto :=
  repeat (unfold_ops; unfold Supabase.storage_upload, Trigger.markTriggerAsProcessed;
          preserves_step; try done; try reflexivity).

(** ** The selection queue *)

Section QueueFacts.

Variable cfg : AppConfig.

(** The files that [addFiles] appends to the queue. *)
Lemma addFiles_queue (files : list File) (w : World) :
  let queued := selectedFiles (uploadManager w) in
  let validFiles := (Upload.validate_all cfg queued files).1 in
  ∃ added,
    selectedFiles (uploadManager (Upload.addFiles cfg files w).2) = queued ++ added
    ∧ added = (if maxFiles cfg <? Z.of_nat (length queued) + Z.of_nat (length validFiles)
               then Upload.splice validFiles (maxFiles cfg - Z.of_nat (length queued))
               else validFiles).
Proof.
  cbn zeta. unfold Upload.addFiles, Upload.update_manager. unfold_m. cbn.
  destruct (Upload.validate_all cfg (selectedFiles (uploadManager w)) files)
    as [validFiles errors].
  cbn [fst]. eexists. split; [|reflexivity].
  destruct errors; cbn; by destruct (_ <? _).
Qed.

Lemma validate_all_sublist (selected files : list File) :
  (Upload.validate_all cfg selected files).1 `sublist_of` files.
Proof.
  induction files as [|f files IH]; cbn [Upload.validate_all]; [done|].
  destruct (Upload.validate_all cfg selected files) as [v e]. cbn [fst] in *.
  destruct (Upload.validateFile cfg selected f); cbn [fst];
    [by apply sublist_skip|by apply sublist_cons].
Qed.

Lemma validate_all_valid_each (selected files : list File) :
  Forall (fun f => Upload.validateFile cfg selected f = Valid)
         (Upload.validate_all cfg selected files).1.
Proof.
  induction files as [|f files IH]; cbn [Upload.validate_all]; [constructor|].
  destruct (Upload.validate_all cfg selected files) as [v e]. cbn [fst] in *.
  destruct (Upload.validateFile cfg selected f) eqn:E; cbn [fst]; [|done].
  by constructor.
Qed.

Lemma splice_prefix {A} (l : list A) (start : Z) : Upload.splice l start `prefix_of` l.
Proof. unfold Upload.splice. apply prefix_take. Qed.

Lemma splice_length {A} (l : list A) (start : Z) :
  0 ≤ start → Z.of_nat (length (Upload.splice l start)) ≤ start.
Proof.
  intros Hs. unfold Upload.splice. rewrite length_take.
  destruct (start <? 0) eqn:E; lia.
Qed.

Lemma validateFile_valid_acceptable (selected : list File) (file : File) :
  Upload.validateFile cfg selected file = Valid →
  Facts.acceptable cfg file ∧ existsb (Upload.same_file file) selected = false.
Proof.
  unfold Upload.validateFile, Facts.acceptable.
  destruct (String.prefix "image/" (type file)) eqn:Hp; cbn [negb]; [|done].
  destruct (existsb (String.eqb (type file)) (allowedTypes cfg)) eqn:Ht; cbn [negb]; [|done].
  destruct (maxFileSize cfg <? size file)%N eqn:Hm; [done|].
  destruct (size file =? 0)%N eqn:Hz; [done|].
  destruct (existsb (Upload.same_file file) selected) eqn:Hd; [done|].
  intros _. apply N.ltb_ge in Hm. apply N.eqb_neq in Hz.
  split; [split; [done|]|done]. split; [|lia].
  apply existsb_exists in Ht as (t & Hin & Heq).
  apply String.eqb_eq in Heq. subst t. by apply list_elem_of_In.
Qed.

(** X1. [addFiles] never lets the queue grow beyond [maxFiles]: a queue that
    is within the limit is within the limit after any batch has been added. *)
Theorem addFiles_queue_within_limit (files : list File) (w : World) :
  Z.of_nat (length (selectedFiles (uploadManager w))) ≤ maxFiles cfg →
  Z.of_nat (length (selectedFiles (uploadManager (Upload.addFiles cfg files w).2)))
    ≤ maxFiles cfg.
Proof.
  intros Hq. destruct (addFiles_queue files w) as (added & -> & ->).
  rewrite length_app.
  destruct (_ <? _) eqn:E.
  - pose proof (splice_length (Upload.validate_all cfg (selectedFiles (uploadManager w)) files).1
      (maxFiles cfg - Z.of_nat (length (selectedFiles (uploadManager w))))). lia.
  - lia.
Qed.

(** X2. Every file that [addFiles] puts on the queue is an image of an allowed
    type with a size between one byte and [maxFileSize]: if the queue held
    only such files before, it holds only such files afterwards. *)
Theorem addFiles_queue_acceptable (files : list File) (w : World) :
  Forall (Facts.acceptable cfg) (selectedFiles (uploadManager w)) →
  Forall (Facts.acceptable cfg) (selectedFiles (uploadManager (Upload.addFiles cfg files w).2)).
Proof.
  intros Hq. destruct (addFiles_queue files w) as (added & -> & ->).
  apply Forall_app. split; [done|].
  assert (Hv : Forall (Facts.acceptable cfg)
                 (Upload.validate_all cfg (selectedFiles (uploadManager w)) files).1).
  { eapply Forall_impl; [apply validate_all_valid_each|].
    intros f Hf. by apply validateFile_valid_acceptable in Hf as [? _]. }
  destruct (_ <? _); [|done].
  destruct (splice_prefix (Upload.validate_all cfg (selectedFiles (uploadManager w)) files).1
      (maxFiles cfg - Z.of_nat (length (selectedFiles (uploadManager w))))) as [k Hk].
  rewrite Hk in Hv. by apply Forall_app in Hv as [? _].
Qed.

Lemma same_file_key (file existing : File) :
  Upload.same_file file existing = true ↔
  (name existing, size existing) = (name file, size file).
Proof.
  unfold Upload.same_file. rewrite andb_true_iff, String.eqb_eq, N.eqb_eq.
  split; [intros [-> ->]; done|intros [= -> ->]; done].
Qed.

(** X3. [addFiles] only appends: the queue before is a prefix of the queue
    after, the appended files are taken from the batch in their order, and
    when neither the queue nor the batch holds two files of the same name and
    size, neither does the queue afterwards. *)
Theorem addFiles_appends_distinct (files : list File) (w : World) :
  let queued := selectedFiles (uploadManager w) in
  ∃ added,
    selectedFiles (uploadManager (Upload.addFiles cfg files w).2) = queued ++ added
    ∧ added `sublist_of` files
    ∧ (Facts.distinct_files queued → Facts.distinct_files files →
       Facts.distinct_files (queued ++ added)).
Proof.
  cbn zeta. destruct (addFiles_queue files w) as (added & Hq & Hadded).
  exists added. split; [done|].
  set (valid := (Upload.validate_all cfg (selectedFiles (uploadManager w)) files).1) in *.
  assert (Hsub : added `sublist_of` valid).
  { subst added. destruct (_ <? _); [|done].
    destruct (splice_prefix valid
      (maxFiles cfg - Z.of_nat (length (selectedFiles (uploadManager w))))) as [k Hk].
    rewrite Hk at 2. by apply sublist_inserts_r. }
  split; [etrans; [exact Hsub|apply validate_all_sublist]|].
  unfold Facts.distinct_files. intros Hqd Hfd.
  rewrite map_app. apply NoDup_app. split; [done|]. split.
  - intros key Hin1 Hin2.
    apply list_elem_of_fmap in Hin1 as (existing & -> & Hex).
    apply list_elem_of_fmap in Hin2 as (file & Hkey & Hfile).
    assert (Hv : Upload.validateFile cfg (selectedFiles (uploadManager w)) file = Valid).
    { pose proof (validate_all_valid_each (selectedFiles (uploadManager w)) files) as Hall.
      rewrite Forall_forall in Hall. apply Hall.
      by apply (elem_of_sublist _ _ _ Hfile Hsub). }
    apply validateFile_valid_acceptable in Hv as [_ Hno].
    assert (existsb (Upload.same_file file) (selectedFiles (uploadManager w)) = true);
      [|congruence].
    apply existsb_exists. exists existing. split; [by apply list_elem_of_In|].
    by apply same_file_key.
  - eapply sublist_NoDup; [exact Hfd|].
    apply fmap_sublist. etrans; [exact Hsub|apply validate_all_sublist].
Qed.

End QueueFacts.

(** ** The upload sequence *)

Section NeverThrows.

Lemma never_throws_ret {A} (a : A) : Facts.never_throws (mret a : M A).
Proof. intros w. by exists a. Qed.

Lemma never_throws_gets {A} (f : World → A) : Facts.never_throws (gets f).
Proof. intros w. by eexists. Qed.

Lemma never_throws_modify (f : World → World) : Facts.never_throws (modify f).
Proof. intros w. by eexists. Qed.

Lemma never_throws_showToast (msg : Message) (ty : ToastType) :
  Facts.never_throws (showToast msg ty).
Proof. apply never_throws_modify. Qed.

Lemma never_throws_bind {A B} (m : M A) (f : A → M B) :
  Facts.never_throws m → (∀ a, Facts.never_throws (f a)) → Facts.never_throws (m ≫= f).
Proof.
  intros Hm Hf w. rewrite run_bind. destruct (Hm w) as [a Ha].
  destruct (m w) as [r w1]. cbn in Ha. subst r. apply Hf.
Qed.

Lemma never_throws_try_catch {A} (m : M A) (h : JsError → M A) :
  (∀ e, Facts.never_throws (h e)) → Facts.never_throws (try_catch m h).
Proof.
  intros Hh w. rewrite run_try_catch. destruct (m w) as [[a|e] w1]; [by exists a|apply Hh].
Qed.

Lemma never_throws_try_finally {A} (m : M A) (f : World → World) :
  Facts.never_throws m → Facts.never_throws (try_finally m f).
Proof.
  intros Hm w. unfold try_finally. destruct (Hm w) as [a Ha].
  destruct (m w) as [r w1]. by exists a.
Qed.

End NeverThrows.

Lemma run_gets {A B} (f : World → A) (k : A → M B) (w : World) :
  (gets f ≫= k) w = k (f w) w.
Proof. reflexivity. Qed.

Lemma run_modify {B} (f : World → World) (k : unit → M B) (w : World) :
  (modify f ≫= k) w = k tt (f w).
Proof. reflexivity. Qed.

Section Flow.

Variable env : Env.

Lemma checkLocationPermission_never_throws :
  Facts.never_throws (Upload.checkLocationPermission env).
Proof. apply never_throws_try_catch. intros e. apply never_throws_ret. Qed.

Lemma checkLocationPermission_keeps_uploadManager :
  Facts.preserves (Facts.keeps uploadManager) (Upload.checkLocationPermission env).
Proof. keeps_auto. Qed.

(** X4. [startUpload] never rejects, whatever the device, the storage and the
    database answer, and it leaves the [isUploading] flag as it found it: an
    upload that ran has reset it, a refused start has not touched it. *)
Theorem startUpload_settles (w : World) :
  ∃ w', Upload.startUpload env w = (Ok tt, w')
        ∧ isUploading (uploadManager w') = isUploading (uploadManager w).
Proof.
  unfold Upload.startUpload. rewrite !run_gets.
  destruct (selectedFiles (uploadManager w)) as [|f files] eqn:Hq.
  { eexists. split; [reflexivity|done]. }
  destruct (isUploading (uploadManager w)) eqn:Hu.
  { eexists. split; [reflexivity|done]. }
  rewrite run_bind.
  pose proof (checkLocationPermission_never_throws w) as [allowed Hok].
  pose proof (checkLocationPermission_keeps_uploadManager w) as Hkeep.
  destruct (Upload.checkLocationPermission env w) as [r w1]. cbn in Hok, Hkeep. subst r.
  unfold Facts.keeps in Hkeep.
  destruct allowed; cbn [negb].
  - unfold Upload.update_manager at 1. rewrite run_modify.
    unfold try_finally. rewrite run_try_catch.
    match goal with |- context [Upload.uploadFiles env ?w0] =>
      destruct (Upload.uploadFiles env w0) as [[[]|e] w2] end.
    + eexists. split; [reflexivity|done].
    + eexists. split; [reflexivity|done].
  - eexists. split; [reflexivity|]. cbn. by rewrite Hkeep, Hu.
Qed.

Lemma completeUpload_disconnected (file : File) (w : World) :
  isConnected w = false →
  Supabase.completeUpload env file w
  = (Ok None, set_toasts (toasts w ++ [(MsgNotConfigured, error)]) w).
Proof.
  intros Hc. unfold Supabase.completeUpload, Supabase.checkConnection.
  rewrite !run_bind. cbn. by rewrite Hc.
Qed.

Lemma upload_loop_disconnected (files : list File) :
  (∀ i, cancel_click env i = false) →
  ∀ (i successful failed : nat) (w : World),
    isConnected w = false → uploadAborted (uploadManager w) = false →
    Upload.upload_loop env files i successful failed w
    = (Ok ((successful + length files)%nat, failed),
       set_toasts (toasts w ++ replicate (length files) (MsgNotConfigured, error)) w).
Proof.
  intros Hclick. induction files as [|file files IH]; intros i s f w Hc Ha.
  - cbn. rewrite Nat.add_0_r, app_nil_r. by destruct w.
  - cbn [Upload.upload_loop]. rewrite Hclick. rewrite run_bind. cbn [mret M_ret].
    rewrite run_gets, Ha. rewrite run_bind, run_try_catch, run_bind.
    rewrite (completeUpload_disconnected file w Hc). cbn [mret M_ret].
    rewrite IH; [|done..]. cbn [length]. f_equal; [f_equal; f_equal; lia|].
    unfold set_toasts. cbn. by rewrite <-app_assoc.
Qed.


Lemma upload_loop_keeps_queue (files : list File) (i successful failed : nat) :
  Facts.preserves (Facts.keeps (λ w, selectedFiles (uploadManager w)))
                  (Upload.upload_loop env files i successful failed).
Proof.
  revert i successful failed.
  induction files as [|file files IH]; intros i s f; cbn [Upload.upload_loop]; [keeps_auto|].
  apply preserves_bind; [apply _|keeps_auto|intros _].
  apply preserves_bind; [apply _|keeps_auto|intros aborted].
  destruct aborted; [keeps_auto|].
  apply preserves_bind; [apply _| |intros ok; destruct ok; apply IH].
  apply preserves_try_catch; [apply _| |intros e; keeps_auto].
  apply preserves_bind; [apply _| |intros r; keeps_auto]. keeps_auto.
Qed.

Lemma upload_loop_never_throws (files : list File) (i successful failed : nat) :
  Facts.never_throws (Upload.upload_loop env files i successful failed).
Proof.
  revert i successful failed.
  induction files as [|file files IH]; intros i s f; cbn [Upload.upload_loop];
    [apply never_throws_ret|].
  apply never_throws_bind.
  { destruct (cancel_click env i); [|apply never_throws_ret].
    apply never_throws_bind; [apply never_throws_modify|intros _; apply never_throws_modify]. }
  intros _. apply never_throws_bind; [apply never_throws_gets|intros aborted].
  destruct aborted; [apply never_throws_ret|].
  apply never_throws_bind; [|intros ok; destruct ok; apply IH].
  apply never_throws_try_catch. intros e. apply never_throws_ret.
Qed.


(** X7. [uploadFile] turns away an empty file and a file that is no image
    before anything is sent: the promise is rejected with the wrapped
    message and the world, the backend included, is as it was. *)
Theorem uploadFile_rejects_before_storage (file : File) (fileName : string) (w : World) :
  isConnected w = true →
  size file = 0%N ∨ String.prefix "image/" (type file) = false →
  ∃ reason, Supabase.uploadFile env file fileName w
            = (Throw (Error ("Upload failed: " +:+ reason)), w)
            ∧ (reason = "File is empty or invalid" ∨ reason = "File is not a valid image").
Proof.
  intros Hc Hbad. unfold Supabase.uploadFile.
  rewrite run_bind, (checkConnection_connected w Hc). cbn [negb]. rewrite run_try_catch.
  destruct (size file =? 0)%N eqn:Hsz.
  - eexists. split; [reflexivity|by left].
  - destruct Hbad as [Hz|Hp]; [apply N.eqb_neq in Hsz; done|].
    rewrite Hp. cbn [negb]. eexists. split; [reflexivity|by right].
Qed.

Lemma uploadFile_connected_cases (file : File) (fileName : string) (w : World) :
  isConnected w = true →
  (∃ e w', Supabase.uploadFile env file fileName w = (Throw e, w'))
  ∨ (size file ≠ 0%N ∧ String.prefix "image/" (type file) = true
     ∧ storage_answer env (tick w) = None ∧ bucket (remote w) !! fileName = None).
Proof.
  intros Hc. unfold Supabase.uploadFile.
  rewrite run_bind, (checkConnection_connected w Hc). cbn [negb]. rewrite run_try_catch.
  destruct (size file =? 0)%N eqn:Hsz; [left; by do 2 eexists|].
  destruct (String.prefix "image/" (type file)) eqn:Hp; cbn [negb]; [|left; by do 2 eexists].
  unfold Supabase.storage_upload, Supabase.update_remote, await_call. unfold_m. cbn.
  destruct (storage_answer env (tick w)) eqn:Hst; [left; by do 2 eexists|].
  destruct (bucket (remote w) !! fileName) eqn:Hfree; [left; by do 2 eexists|].
  right. apply N.eqb_neq in Hsz. done.
Qed.

Lemma completeUpload_done_storage (file : File) (w w' : World) (res : UploadResult) :
  Supabase.completeUpload env file w = (Ok (Some res), w') →
  Spec.storage_step_succeeds env w file.
Proof.
  unfold Spec.storage_step_succeeds, Spec.stored_name.
  destruct (isConnected w) eqn:Hc; [|by rewrite completeUpload_disconnected].
  unfold Supabase.completeUpload.
  rewrite run_bind, (checkConnection_connected w Hc). cbn [negb].
  rewrite run_try_catch, run_gets, run_bind, progressCallback_run, run_bind.
  destruct (uploadFile_connected_cases file (pretty (now w) +:+ "_" +:+ name file)
              (Spec.logged (EvProgress 25) w) Hc) as [(e & w1 & ->)|H]; [done|].
  intros _. by split.
Qed.

(** The run of a [completeUpload] that returned a result. *)
Lemma completeUpload_done (file : File) (w w' : World) (res : UploadResult) :
  Supabase.completeUpload env file w = (Ok (Some res), w') →
  let fileName := Spec.stored_name w file in
  let publicUrl := Some (Supabase.storage_public_url fileName) in
  storage_path res = fileName
  ∧ public_url res = publicUrl
  ∧ bucket (remote w') = <[fileName := file]> (bucket (remote w))
  ∧ ∃ location t,
      uploads (remote w')
      = uploads (remote w)
        ++ [with_id (next_id (remote w))
              (mkUploadRow None (name file) (size file) (type file) publicUrl
                           (Supabase.ist_time env t) (Some location) "manual" None None)].
Proof.
  intros Hrun. pose proof (completeUpload_done_storage _ _ _ _ Hrun) as Hst.
  rewrite (completeUpload_after_storage env w file Hst) in Hrun. cbn zeta in *.
  set (w1 := Spec.logged (EvProgress 50) _) in Hrun.
  pose proof (location_for_upload_frame env w1) as (Hr2 & Hc2 & _).
  destruct (Supabase.location_for_upload env w1) as [[location|e] w2]; [|done].
  cbn [snd] in Hr2, Hc2. unfold w1 in Hr2, Hc2. cbn in Hr2, Hc2.
  set (uploadData := mkUploadRow _ _ _ _ _ _ _ _ _ _) in Hrun.
  destruct Hst as (Hc & _).
  assert (Hc3 : isConnected (Spec.logged (EvProgress 75) w2) = true) by (cbn; congruence).
  pose proof (saveUploadMetadata_cases env _ uploadData Hc3) as Hsave. cbn zeta in Hsave.
  destruct (Supabase.saveUploadMetadata env uploadData (Spec.logged (EvProgress 75) w2))
    as [[metadata|e] w3]; [|done].
  cbn [fst snd] in Hsave. destruct Hsave as (_ & Hb3 & Hrows).
  assert (Hrows' : uploads (remote w3)
                   = uploads (remote w) ++ [with_id (next_id (remote w)) uploadData]).
  { destruct (insert_answer env _); destruct Hrows as [Hres Hrows]; [|done..].
    rewrite Hrows. cbn [Spec.logged set_console remote]. by rewrite Hr2. }
  assert (Hb3' : bucket (remote w3)
                 = <[Spec.stored_name w file := file]> (bucket (remote w))).
  { rewrite Hb3. cbn [Spec.logged set_console remote]. by rewrite Hr2. }
  injection Hrun as <- <-. cbn [storage_path public_url].
  split; [done|]. split; [done|].
  assert (Hfinal : ∀ w5, bucket (remote w5) = bucket (remote w3) →
                         uploads (remote w5) = uploads (remote w3) →
    bucket (remote w5) = <[Spec.stored_name w file := file]> (bucket (remote w))
    ∧ ∃ location t,
        uploads (remote w5)
        = uploads (remote w)
          ++ [with_id (next_id (remote w))
                (mkUploadRow None (name file) (size file) (type file)
                   (Some (Supabase.storage_public_url (Spec.stored_name w file)))
                   (Supabase.ist_time env t) (Some location) "manual" None None)]).
  { intros w5 Hb Hu. rewrite Hb, Hu, Hrows'. split; [done|]. by eexists _, _. }
  destruct metadata as [row|]; [|by apply Hfinal].
  destruct (row_id row) as [id|]; [|by apply Hfinal].
  pose proof (trigger_analysis_caught env (Spec.logged (EvProgress 100) w3) id
                (Some (Supabase.storage_public_url (Spec.stored_name w file))))
    as (_ & Hb & Hu).
  by apply Hfinal.
Qed.

(** X8. What a completed [completeUpload] has left behind: the object is
    stored under the path it returns, and exactly one row was appended to
    the uploads table, which carries the file's own name, size and type, the
    public URL of that path, a location and the capture type "manual". *)
Theorem completeUpload_stores_object_and_row (file : File) (w w' : World)
        (res : UploadResult) :
  Supabase.completeUpload env file w = (Ok (Some res), w') →
  bucket (remote w') !! storage_path res = Some file
  ∧ public_url res = Some (Supabase.storage_public_url (storage_path res))
  ∧ ∃ row, uploads (remote w') = uploads (remote w) ++ [row]
           ∧ row_id row = Some (next_id (remote w))
           ∧ file_name row = name file ∧ file_size row = size file
           ∧ file_type row = type file ∧ file_url row = public_url res
           ∧ is_Some (row_location row) ∧ capture_type row = "manual".
Proof.
  intros Hrun.
  destruct (completeUpload_done file w w' res Hrun)
    as (Hpath & Hurl & Hbucket & location & t & Hrows).
  rewrite Hpath, Hurl, Hbucket, Hrows.
  split; [apply lookup_insert_eq|]. split; [done|].
  eexists. split; [reflexivity|]. cbn. eauto 10.
Qed.

End Flow.

(** ** The backend only grows *)

#[global] Instance consumed_later_preorder : PreOrder Facts.consumed_later.
Proof.
  split.
  - intros row. by repeat split.
  - intros r1 r2 r3 (?&?&?&?&?) (?&?&?&?&?). unfold Facts.consumed_later.
    repeat split; try congruence. auto.
Qed.

#[global] Instance grows_preorder : PreOrder Facts.grows.
Proof.
  split.
  - intros w. by repeat split.
  - intros w1 w2 w3 (?&?&?) (?&?&?). repeat split; by etrans.
Qed.

Lemma mark_row_consumed_later (triggerId : string) (rows : list TriggerRow) :
  Forall2 Facts.consumed_later rows (map (Trigger.mark_row triggerId) rows).
Proof.
  apply Forall2_fmap_r, Forall_Forall2_diag, Forall_forall. intros row _.
  unfold compose, Trigger.mark_row. destruct (Trigger.claimable triggerId row); [|reflexivity].
  by repeat split.
Qed.

(** Discharges the obligation of a single write. *)
Ltac grows_write :=
  first [ reflexivity
        | split; [|split]; cbn;
          [reflexivity | first [reflexivity | by apply prefix_app_r] | reflexivity] ].

Lemma storage_upload_grows (env : Env) (fileName : string) (file : File) :
  Facts.preserves Facts.grows (Supabase.storage_upload env fileName file).
Proof.
  intros w. unfold Supabase.storage_upload, Supabase.update_remote, await_call.
  unfold_m. cbn. destruct (storage_answer env (tick w)); cbn; [grows_write|].
  destruct (bucket (remote w) !! fileName) eqn:Hfree; cbn; [grows_write|].
  split; [|split]; cbn; [by apply insert_subseteq|done..].
Qed.

Lemma markTriggerAsProcessed_grows (env : Env) (triggerId : string) :
  Facts.preserves Facts.grows (Trigger.markTriggerAsProcessed env triggerId).
Proof.
  intros w. unfold Trigger.markTriggerAsProcessed, Trigger.table_update, await_call.
  unfold_m. cbn. destruct (update_answer env (tick w)); cbn; try grows_write.
  destruct (filter _ _); cbn;
    (split; [|split]; cbn; [done|done|apply mark_row_consumed_later]).
Qed.

(** Decomposes an operation into its writes, each of which only adds. *)
Ltac grows_auto :=
  repeat (intros; unfold_ops;
          first [ apply storage_upload_grows
                | apply markTriggerAsProcessed_grows
                | preserves_step ];
          try grows_write).

Section Grows.

Variable env : Env.

Lemma completeUpload_grows (file : File) :
  Facts.preserves Facts.grows (Supabase.completeUpload env file).
Proof. grows_auto. Qed.

Lemma upload_loop_grows (files : list File) (i successful failed : nat) :
  Facts.preserves Facts.grows (Upload.upload_loop env files i successful failed).
Proof.
  revert i successful failed.
  induction files as [|file files IH]; intros i s f; cbn [Upload.upload_loop].
  - grows_auto.
  - apply preserves_bind; [apply _|grows_auto|intros _].
    apply preserves_bind; [apply _|grows_auto|intros aborted].
    destruct aborted; [grows_auto|].
    apply preserves_bind; [apply _| |intros ok; destruct ok; apply IH].
    apply preserves_try_catch; [apply _| |grows_auto].
    apply preserves_bind; [apply _|apply completeUpload_grows|grows_auto].
Qed.

(** X9. Nothing the upload page does takes anything away from the backend:
    across [startUpload], whatever the answers of the outside world, every
    stored object stays stored, the upload rows are only extended at the end
    and no trigger row is given back as unconsumed. *)
Theorem startUpload_backend_grows :
  Facts.preserves Facts.grows (Upload.startUpload env).
Proof.
  unfold Upload.startUpload.
  apply preserves_bind; [apply _|grows_auto|intros files].
  apply preserves_bind; [apply _|grows_auto|intros uploading].
  destruct files; [grows_auto|]. destruct uploading; [grows_auto|].
  apply preserves_bind; [apply _|grows_auto|intros allowed].
  destruct allowed; cbn [negb]; [|grows_auto].
  apply preserves_bind; [apply _|grows_auto|intros _].
  apply preserves_try_finally; [apply _| |intros w; grows_write].
  apply preserves_try_catch; [apply _| |grows_auto].
  unfold Upload.uploadFiles.
  apply preserves_bind; [apply _|grows_auto|intros queued].
  apply preserves_bind; [apply _|apply upload_loop_grows|intros [successful failed]].
  grows_auto.
Qed.

Lemma captureTriggeredPhoto_grows (trigger : TriggerRow) :
  Facts.preserves Facts.grows (Trigger.captureTriggeredPhoto env trigger).
Proof. unfold Trigger.captureTriggeredPhoto. grows_auto. Qed.

Lemma processTrigger_grows (trigger : TriggerRow) :
  Facts.preserves Facts.grows (Trigger.processTrigger env trigger).
Proof.
  unfold Trigger.processTrigger.
  apply preserves_try_catch; [apply _| |grows_auto].
  apply preserves_bind; [apply _|grows_auto|intros _].
  apply preserves_bind; [apply _|apply markTriggerAsProcessed_grows|intros markResult].
  destruct markResult; cbn [negb]; [|grows_auto].
  apply preserves_bind; [apply _|grows_auto|intros _].
  apply preserves_bind; [apply _|apply captureTriggeredPhoto_grows|intros ok].
  destruct ok; grows_auto.
Qed.

End Grows.

(** ** The trigger page *)

#[global] Instance claims_nil_preorder : PreOrder (Facts.claims []).
Proof.
  split.
  - intros w. exists []. by rewrite app_nil_r.
  - intros w1 w2 w3 (e1 & H1 & C1) (e2 & H2 & C2). exists (e1 ++ e2).
    rewrite H2, H1, <-app_assoc. split; [done|].
    unfold Facts.claimed in *. by rewrite omap_app, C1, C2.
Qed.

#[global] Instance log_bounded_preorder : PreOrder Facts.log_bounded.
Proof. split; [intros w H; exact H|intros w1 w2 w3 H1 H2 H; by apply H2, H1]. Qed.

Lemma claims_trans (a b : list string) (w1 w2 w3 : World) :
  Facts.claims a w1 w2 → Facts.claims b w2 w3 → Facts.claims (a ++ b) w1 w3.
Proof.
  intros (e1 & H1 & C1) (e2 & H2 & C2). exists (e1 ++ e2).
  rewrite H2, H1, <-app_assoc. split; [done|].
  unfold Facts.claimed in *. by rewrite omap_app, C1, C2.
Qed.

(** A write that leaves the console alone or adds events other than claims. *)
Ltac quiet_write :=
  first [ reflexivity
        | by (eexists []; cbn; rewrite app_nil_r)
        | by (eexists [_]; cbn) ].

(** A write to the trigger manager keeps the log, or cuts it to capacity. *)
Ltac log_write :=
  first [ reflexivity
        | by (intros ?; cbn)
        | (intros ?; cbn; rewrite length_take; unfold Trigger.log_capacity; lia) ].

Ltac quiet_auto :=
  repeat (intros; unfold_ops; unfold Supabase.storage_upload; preserves_step; try quiet_write).

Ltac log_auto :=
  repeat (intros; unfold_ops; unfold Supabase.storage_upload, Trigger.markTriggerAsProcessed;
          preserves_step; try log_write).

Section TriggerFacts.

Variable env : Env.

Lemma captureTriggeredPhoto_no_claims (trigger : TriggerRow) :
  Facts.preserves (Facts.claims []) (Trigger.captureTriggeredPhoto env trigger).
Proof. unfold Trigger.captureTriggeredPhoto. quiet_auto. Qed.

Lemma captureTriggeredPhoto_never_throws (trigger : TriggerRow) :
  Facts.never_throws (Trigger.captureTriggeredPhoto env trigger).
Proof.
  apply never_throws_try_catch. intros e.
  apply never_throws_bind; [apply never_throws_modify|intros _; apply never_throws_ret].
Qed.

Lemma captureTriggeredPhoto_keeps_counters (trigger : TriggerRow) :
  Facts.preserves (Facts.keeps Facts.counters) (Trigger.captureTriggeredPhoto env trigger).
Proof. unfold Trigger.captureTriggeredPhoto. keeps_auto. Qed.

Lemma processTrigger_log_bounded (trigger : TriggerRow) :
  Facts.preserves Facts.log_bounded (Trigger.processTrigger env trigger).
Proof. unfold Trigger.processTrigger, Trigger.captureTriggeredPhoto. log_auto. Qed.

Lemma run_update_manager {B} (f : SensorTriggerManager → SensorTriggerManager)
      (k : unit → M B) (w : World) :
  (Trigger.update_manager f ≫= k) w
  = k tt (set_sensorTriggerManager (f (sensorTriggerManager w)) w).
Proof. reflexivity. Qed.

Lemma try_catch_true (m : M bool) (h : JsError → M bool) (w w' : World) :
  (∀ e w1 w2, h e w1 ≠ (Ok true, w2)) →
  try_catch m h w = (Ok true, w') → m w = (Ok true, w').
Proof.
  intros Hh. rewrite run_try_catch. destruct (m w) as [[b|e] w1]; [done|].
  intros H. by apply Hh in H.
Qed.

Lemma marked_rows_consumed (triggerId : string) (rows rows' : list TriggerRow) :
  Forall2 Facts.consumed_later (map (Trigger.mark_row triggerId) rows) rows' →
  ∀ row, row ∈ rows' → tr_id row = triggerId → processed row = true.
Proof.
  intros Hall row Hin Hid.
  apply list_elem_of_lookup in Hin as [i Hi].
  destruct (Forall2_lookup_r _ _ _ _ _ Hall Hi) as (marked & Hm & Hlater).
  rewrite list_lookup_fmap in Hm.
  destruct (rows !! i) as [row0|]; [|done]. injection Hm as <-.
  destruct Hlater as (Hid' & _ & _ & _ & Hp). apply Hp.
  pose proof (claimable_mark_row triggerId row0) as Hc.
  unfold Trigger.claimable in Hc. rewrite <-Hid', Hid, String.eqb_refl in Hc.
  by destruct (processed (Trigger.mark_row triggerId row0)).
Qed.



End TriggerFacts.

(** ** One tick of the poller *)

Section PollFacts.

Variable env : Env.
Variable select_answer : nat → DbOutcome.

Lemma markTriggerAsProcessed_never_throws (triggerId : string) :
  Facts.never_throws (Trigger.markTriggerAsProcessed env triggerId).
Proof. apply never_throws_try_catch. intros e. apply never_throws_ret. Qed.

Lemma processTrigger_never_throws (trigger : TriggerRow) :
  Facts.never_throws (Trigger.processTrigger env trigger).
Proof.
  apply never_throws_try_catch. intros e.
  apply never_throws_bind; [apply never_throws_modify|intros _; apply never_throws_modify].
Qed.

Lemma claims_bind {A B} (ids : list string) (m : M A) (k : A → M B) :
  Facts.never_throws m →
  (∀ w, Facts.claims ids w (m w).2) →
  (∀ a, Facts.preserves (Facts.claims []) (k a)) →
  ∀ w, Facts.claims ids w ((m ≫= k) w).2.
Proof.
  intros Hok Hm Hk w. rewrite run_bind. specialize (Hm w). destruct (Hok w) as [a Ha].
  destruct (m w) as [r w1]. cbn [fst snd] in *. subst r.
  rewrite <-(app_nil_r ids). eapply claims_trans; [exact Hm|apply Hk].
Qed.

Lemma claims_quiet_bind {A B} (ids : list string) (m : M A) (k : A → M B) :
  Facts.never_throws m →
  Facts.preserves (Facts.claims []) m →
  (∀ a w, Facts.claims ids w (k a w).2) →
  ∀ w, Facts.claims ids w ((m ≫= k) w).2.
Proof.
  intros Hok Hm Hk w. rewrite run_bind. specialize (Hm w). destruct (Hok w) as [a Ha].
  destruct (m w) as [r w1]. cbn [fst snd] in *. subst r.
  change ids with ([] ++ ids). eapply claims_trans; [exact Hm|apply Hk].
Qed.

Lemma claims_try_catch {A} (ids : list string) (m : M A) (h : JsError → M A) :
  (∀ w, Facts.claims ids w (m w).2) →
  (∀ e, Facts.preserves (Facts.claims []) (h e)) →
  ∀ w, Facts.claims ids w (try_catch m h w).2.
Proof.
  intros Hm Hh w. rewrite run_try_catch. specialize (Hm w).
  destruct (m w) as [[a|e] w1]; cbn [snd] in *; [done|].
  rewrite <-(app_nil_r ids). eapply claims_trans; [exact Hm|apply Hh].
Qed.

Lemma markTriggerAsProcessed_claims (triggerId : string) (w : World) :
  Facts.claims [triggerId] w (Trigger.markTriggerAsProcessed env triggerId w).2.
Proof.
  rewrite markTriggerAsProcessed_run. cbn zeta.
  destruct (update_answer env (tick w)); by exists [EvClaim triggerId].
Qed.

(** Every run of [processTrigger] makes exactly one claim, for its own
    trigger. *)
Lemma processTrigger_claims (trigger : TriggerRow) (w : World) :
  Facts.claims [tr_id trigger] w (Trigger.processTrigger env trigger w).2.
Proof.
  revert w. unfold Trigger.processTrigger. apply claims_try_catch; [|quiet_auto].
  apply claims_quiet_bind; [apply never_throws_modify|quiet_auto|intros _].
  apply claims_bind; [apply markTriggerAsProcessed_never_throws
                     |apply markTriggerAsProcessed_claims|intros markResult].
  destruct markResult; cbn [negb]; [|quiet_auto].
  unfold Trigger.captureTriggeredPhoto. quiet_auto.
Qed.

Lemma still_unprocessed_quiet (trigger : TriggerRow) :
  Facts.preserves (Facts.claims []) (Poll.still_unprocessed env select_answer trigger).
Proof.
  unfold Poll.still_unprocessed.
  apply preserves_bind; [apply _|quiet_auto|intros n].
  destruct (select_answer n); [|quiet_auto..].
  apply preserves_bind; [apply _|quiet_auto|intros rows].
  destruct rows as [|row [|]]; quiet_auto.
Qed.

Lemma process_all_claims (triggers : list TriggerRow) (w : World) :
  ∃ ids, Facts.claims ids w (Poll.process_all env select_answer triggers w).2
         ∧ ids `sublist_of` map tr_id triggers.
Proof.
  revert w. induction triggers as [|trigger rest IH]; intros w; cbn [Poll.process_all].
  - exists []. split; [reflexivity|done].
  - rewrite run_bind. pose proof (still_unprocessed_quiet trigger w) as H1.
    destruct (Poll.still_unprocessed env select_answer trigger w) as [[go|e] w1];
      cbn [snd] in H1.
    2:{ exists []. split; [done|apply sublist_nil_l]. }
    rewrite run_bind. destruct go.
    + pose proof (processTrigger_claims trigger w1) as H2.
      pose proof (processTrigger_never_throws trigger w1) as [[] Hok].
      destruct (Trigger.processTrigger env trigger w1) as [r w2]. cbn [fst snd] in H2, Hok.
      subst r. destruct (IH w2) as (ids & H3 & Hsub).
      exists (tr_id trigger :: ids). split; [|by apply sublist_skip].
      change (tr_id trigger :: ids) with ([] ++ [tr_id trigger] ++ ids).
      eapply claims_trans; [exact H1|]. eapply claims_trans; [exact H2|exact H3].
    + cbn [mret M_ret]. destruct (IH w1) as (ids & H3 & Hsub).
      exists ids. split; [|by apply sublist_cons].
      change ids with ([] ++ ids). by eapply claims_trans.
Qed.

(** X12. One tick of the poller only claims triggers its query returned:
    the claims it makes are, in order, for a selection of the at most five
    oldest pending rows of the table as the tick found it. *)
Theorem pollSensorData_claims_query_results (w : World) :
  ∃ ids, Facts.claims ids w (Poll.pollSensorData env select_answer w).2
         ∧ ids `sublist_of` map tr_id (Poll.query (remote w))
         ∧ (length ids ≤ Poll.query_limit)%nat.
Proof.
  assert (Hlen : ∀ ids, ids `sublist_of` map tr_id (Poll.query (remote w)) →
                        (length ids ≤ Poll.query_limit)%nat).
  { intros ids Hsub. apply sublist_length in Hsub. rewrite length_map in Hsub.
    unfold Poll.query in Hsub. rewrite length_take in Hsub. lia. }
  assert (Hnone : ∀ w', Facts.claims [] w w' →
    ∃ ids, Facts.claims ids w w' ∧ ids `sublist_of` map tr_id (Poll.query (remote w))
           ∧ (length ids ≤ Poll.query_limit)%nat).
  { intros w' H. exists []. split; [done|]. split; [apply sublist_nil_l|cbn; lia]. }
  assert (Hh : ∀ e w1, Facts.claims [] w1
    (Trigger.logActivity "Error" ("Polling error: " +:+ err_message e) level_error w1).2).
  { intros e w1. by exists []; cbn; rewrite app_nil_r. }
  unfold Poll.pollSensorData. rewrite run_try_catch, run_gets.
  destruct (isConnected w); cbn [negb]; [|apply Hnone, Hh].
  rewrite run_bind. unfold await_call at 1.
  set (w1 := set_tick _ _).
  assert (H1 : Facts.claims [] w w1) by (by exists []; cbn; rewrite app_nil_r).
  destruct (select_answer (tick w)) as [|e|e].
  - rewrite run_gets. change (remote w1) with (remote w).
    destruct (Poll.query (remote w)) as [|t ts] eqn:Hq; [by apply Hnone|].
    rewrite <-Hq in *. rewrite run_bind.
    unfold Trigger.logActivity at 1, Trigger.update_manager at 1, modify at 1.
    set (w2 := set_sensorTriggerManager _ w1).
    assert (H2 : Facts.claims [] w w2) by (by exists []; cbn; rewrite app_nil_r).
    destruct (process_all_claims (Poll.query (remote w)) w2) as (ids & H3 & Hsub).
    exists ids. split; [|by auto].
    destruct (Poll.process_all env select_answer (Poll.query (remote w)) w2) as [[[]|e] w3];
      cbn [snd] in *.
    + change ids with ([] ++ ids). by eapply claims_trans.
    + rewrite <-(app_nil_r ids). eapply claims_trans; [|apply Hh].
      change ids with ([] ++ ids). by eapply claims_trans.
  - apply Hnone. etrans; [exact H1|]. by exists []; cbn; rewrite app_nil_r.
  - apply Hnone. etrans; [exact H1|apply Hh].
Qed.

Lemma still_unprocessed_grows (trigger : TriggerRow) :
  Facts.preserves Facts.grows (Poll.still_unprocessed env select_answer trigger).
Proof.
  unfold Poll.still_unprocessed.
  apply preserves_bind; [apply _|grows_auto|intros n].
  destruct (select_answer n); [|grows_auto..].
  apply preserves_bind; [apply _|grows_auto|intros rows].
  destruct rows as [|row [|]]; grows_auto.
Qed.

Lemma process_all_grows (triggers : list TriggerRow) :
  Facts.preserves Facts.grows (Poll.process_all env select_answer triggers).
Proof.
  induction triggers as [|trigger rest IH]; cbn [Poll.process_all]; [grows_auto|].
  apply preserves_bind; [apply _|apply still_unprocessed_grows|intros go].
  apply preserves_bind; [apply _| |intros _; exact IH].
  destruct go; [apply processTrigger_grows|grows_auto].
Qed.

(** X13. Nothing the trigger page does takes anything away from the
    backend or gives a trigger back: across a tick of the poller, whatever
    the outside world answers, every stored object stays stored, the upload
    rows are only extended at the end, and the trigger rows stay the same
    rows, none of them turned from consumed to unconsumed. *)
Theorem pollSensorData_backend_grows :
  Facts.preserves Facts.grows (Poll.pollSensorData env select_answer).
Proof.
  unfold Poll.pollSensorData.
  apply preserves_try_catch; [apply _| |grows_auto].
  apply preserves_bind; [apply _|grows_auto|intros connected].
  destruct connected; cbn [negb]; [|grows_auto].
  apply preserves_bind; [apply _|grows_auto|intros n].
  destruct (select_answer n); [|grows_auto..].
  apply preserves_bind; [apply _|grows_auto|intros data].
  destruct data; [grows_auto|].
  apply preserves_bind; [apply _|grows_auto|intros _]. apply process_all_grows.
Qed.

Lemma still_unprocessed_log_bounded (trigger : TriggerRow) :
  Facts.preserves Facts.log_bounded (Poll.still_unprocessed env select_answer trigger).
Proof.
  unfold Poll.still_unprocessed.
  apply preserves_bind; [apply _|log_auto|intros n].
  destruct (select_answer n); [|log_auto..].
  apply preserves_bind; [apply _|log_auto|intros rows].
  destruct rows as [|row [|]]; log_auto.
Qed.

Lemma process_all_log_bounded (triggers : list TriggerRow) :
  Facts.preserves Facts.log_bounded (Poll.process_all env select_answer triggers).
Proof.
  induction triggers as [|trigger rest IH]; cbn [Poll.process_all]; [log_auto|].
  apply preserves_bind; [apply _|apply still_unprocessed_log_bounded|intros go].
  apply preserves_bind; [apply _| |intros _; exact IH].
  destruct go; [apply processTrigger_log_bounded|log_auto].
Qed.

(** X14. A tick of the poller never rejects, and it keeps the activity log
    within its capacity of fifty entries however many lines it writes. *)
Theorem pollSensorData_settles_with_bounded_log :
  Facts.never_throws (Poll.pollSensorData env select_answer)
  ∧ Facts.preserves Facts.log_bounded (Poll.pollSensorData env select_answer).
Proof.
  split.
  { apply never_throws_try_catch. intros e. apply never_throws_modify. }
  unfold Poll.pollSensorData.
  apply preserves_try_catch; [apply _| |log_auto].
  apply preserves_bind; [apply _|log_auto|intros connected].
  destruct connected; cbn [negb]; [|log_auto].
  apply preserves_bind; [apply _|log_auto|intros n].
  destruct (select_answer n); [|log_auto..].
  apply preserves_bind; [apply _|log_auto|intros data].
  destruct data; [log_auto|].
  apply preserves_bind; [apply _|log_auto|intros _]. apply process_all_log_bounded.
Qed.

End PollFacts.

(** ** The capture scheduler *)

Lemma prefix_append (p s : string) : String.prefix p (p +:+ s) = true.
Proof.
  induction p as [|a p IH]; simpl; [by destruct s|].
  destruct (ascii_dec a a); [exact IH|done].
Qed.

Section SensorFacts.

Variable env : Env.
Variable frame_answer : nat → Sensor.FrameOutcome.

Lemma sensor_checkLocationPermission_settles (w : World) :
  ∃ allowed w', Sensor.checkLocationPermission env w = (Ok allowed, w').
Proof.
  unfold Sensor.checkLocationPermission. rewrite run_try_catch.
  match goal with |- context [match ?m w with _ => _ end] =>
    destruct (m w) as [[allowed|e] w1] end; by do 2 eexists.
Qed.

Lemma updateNextCaptureTime_scheduled (m : Sensor.SensorManager) :
  (Sensor.isRunning m = true ↔ is_Some (Sensor.intervalId m)) →
  Facts.settles_with Facts.scheduled (Sensor.updateNextCaptureTime m).
Proof.
  intros Hm w. do 2 eexists. split; [reflexivity|]. split; [exact Hm|]. cbn.
  destruct (Sensor.isRunning m); split; done.
Qed.

Lemma notify_scheduled (message : string) (ty : ToastType) (m : Sensor.SensorManager) :
  Facts.scheduled m → Facts.scheduled (Sensor.notify message ty m).
Proof. done. Qed.

Lemma captureImageAutomatically_result (m m' : Sensor.SensorManager) (res : UploadResult)
      (w w' : World) :
  Sensor.captureImageAutomatically env frame_answer m w = (Ok (m', res), w') →
  Sensor.isRunning m' = Sensor.isRunning m
  ∧ Sensor.intervalId m' = Sensor.intervalId m
  ∧ Sensor.captureInterval m' = Sensor.captureInterval m
  ∧ Sensor.nextCaptureTime m' = Sensor.nextCaptureTime m
  ∧ Sensor.totalCaptures m' = S (Sensor.totalCaptures m)
  ∧ Sensor.todayCaptures m' = S (Sensor.todayCaptures m)
  ∧ Sensor.lastCaptureTime m' = Some (now w')
  ∧ Sensor.notices m'
    = Sensor.notices m ++ [("Automated capture completed successfully"%string, success)]
  ∧ ∃ row, uploads (remote w') = uploads (remote w) ++ [row]
           ∧ file_name row = "sensor_capture_" +:+ pretty (now w + elapsed env (tick w)) +:+ ".jpg"
           ∧ file_type row = "image/jpeg"
           ∧ is_Some (row_location row)
           ∧ capture_type row = "manual".
Proof.
  unfold Sensor.captureImageAutomatically, log. rewrite run_modify.
  unfold await_call at 1. rewrite run_bind. cbn [tick set_console].
  destruct (frame_answer (tick w)) as [blob|e|]; [|done..].
  rewrite run_gets, run_bind.
  set (w1 := set_tick _ _). set (file := mkFile _ _ _).
  destruct (Supabase.completeUpload env file w1) as [[[res'|]|e] w2] eqn:Hup; [|done..].
  rewrite run_gets. intros [= <- <- <-]. cbn.
  apply completeUpload_done in Hup as (_ & _ & _ & location & t & Hrows).
  repeat split; try done. eexists. split; [exact Hrows|]. cbn. eauto.
Qed.

Lemma captureImageAutomatically_scheduled (m : Sensor.SensorManager) (w : World) :
  Facts.scheduled m →
  match Sensor.captureImageAutomatically env frame_answer m w with
  | (Ok captured, _) => Facts.scheduled captured.1
  | (Throw _, _) => True
  end.
Proof.
  intros Hm.
  destruct (Sensor.captureImageAutomatically env frame_answer m w) as [[[m' res]|e] w'] eqn:E;
    [|done].
  apply captureImageAutomatically_result in E as (Hr & Hi & _ & Hn & _).
  unfold Facts.scheduled. cbn [fst]. by rewrite Hr, Hi, Hn.
Qed.

(** X15. Every handler of the sensor page returns and keeps the scheduler's
    fields in agreement: after starting, stopping, changing the interval, a
    timer tick or a manual capture, whatever the outside world answers, the
    repeating timer is registered and a next capture is announced exactly
    when [isRunning] is set. *)
Theorem sensor_handlers_keep_schedule (m : Sensor.SensorManager) (value : Z) :
  Facts.scheduled m →
  Facts.scheduled (Sensor.stopMonitoring m)
  ∧ Facts.settles_with Facts.scheduled (Sensor.startMonitoring env m)
  ∧ Facts.settles_with Facts.scheduled (Sensor.onIntervalChange value m)
  ∧ Facts.settles_with Facts.scheduled (Sensor.performAutomatedCapture env frame_answer m)
  ∧ Facts.settles_with Facts.scheduled (Sensor.captureNow env frame_answer m).
Proof.
  intros Hm. split; [|split; [|split; [|split]]].
  - unfold Sensor.stopMonitoring. destruct (Sensor.isRunning m) eqn:Hr; cbn [negb].
    + split; cbn; split; try done; by intros [? [=]].
    + by apply notify_scheduled.
  - intros w. unfold Sensor.startMonitoring. destruct (Sensor.isRunning m) eqn:Hr.
    { do 2 eexists. split; [reflexivity|by apply notify_scheduled]. }
    rewrite run_bind. destruct (sensor_checkLocationPermission_settles w) as (allowed & w1 & ->).
    destruct allowed; cbn [negb].
    + do 2 eexists. split; [reflexivity|]. split; cbn; split; eauto.
    + do 2 eexists. split; [reflexivity|by apply notify_scheduled].
  - apply updateNextCaptureTime_scheduled. apply Hm.
  - intros w. unfold Sensor.performAutomatedCapture. rewrite run_try_catch, run_bind.
    pose proof (captureImageAutomatically_scheduled m w Hm) as Hc.
    destruct (Sensor.captureImageAutomatically env frame_answer m w) as [[captured|e] w1].
    + destruct (updateNextCaptureTime_scheduled captured.1 (proj1 Hc) w1) as (m' & w' & -> & H').
      by do 2 eexists.
    + do 2 eexists. split; [reflexivity|by apply notify_scheduled].
  - intros w. unfold Sensor.captureNow. rewrite run_bind.
    destruct (sensor_checkLocationPermission_settles w) as (allowed & w1 & ->).
    destruct allowed; cbn [negb].
    + rewrite run_try_catch, run_bind.
      pose proof (captureImageAutomatically_scheduled
                    (Sensor.notify "Capturing image..." info m) w1
                    (notify_scheduled _ _ _ Hm)) as Hc.
      destruct (Sensor.captureImageAutomatically env frame_answer _ w1) as [[captured|e] w2].
      * by do 2 eexists.
      * do 2 eexists. split; [reflexivity|]. by apply notify_scheduled.
    + do 2 eexists. split; [reflexivity|by apply notify_scheduled].
Qed.

(** X16. Changing the interval while monitoring runs does not re-arm the
    timer: after a successful [startMonitoring] the announced next capture
    follows the new interval, while the repeating timer keeps the period it
    was registered with. *)
Theorem interval_change_keeps_timer_period
        (m m1 : Sensor.SensorManager) (w w1 w2 : World) (value : Z) :
  Sensor.isRunning m = false →
  Sensor.startMonitoring env m w = (Ok m1, w1) →
  Sensor.isRunning m1 = true →
  ∃ m2, Sensor.onIntervalChange value m1 w2 = (Ok m2, w2)
        ∧ Sensor.captureInterval m2 = value
        ∧ Sensor.nextCaptureTime m2 = Some (now w2 + value)
        ∧ Sensor.intervalId m2 = Some (Sensor.captureInterval m).
Proof.
  intros Hr. unfold Sensor.startMonitoring. rewrite Hr, run_bind.
  destruct (sensor_checkLocationPermission_settles w) as (allowed & w0 & ->).
  destruct allowed; cbn [negb].
  - intros [= <- <-] _. eexists. split; [reflexivity|]. done.
  - intros [= <- <-]. cbn. congruence.
Qed.


End SensorFacts.

(** ** Deleting an upload *)

Lemma last_index_after (c : ascii) (p key : string) :
  Text.last_index c key = None →
  Text.last_index c (p +:+ String c key) = Some (String.length p).
Proof.
  intros Hkey. induction p as [|a p IH]; simpl.
  - by rewrite Hkey, Ascii.eqb_refl.
  - by rewrite IH.
Qed.

Lemma split_pop_after (c : ascii) (p key : string) :
  Text.last_index c key = None → Text.split_pop c (p +:+ String c key) = key.
Proof.
  intros Hkey. unfold Text.split_pop. rewrite last_index_after by done.
  induction p as [|a p IH]; simpl; [by destruct key|exact IH].
Qed.

Lemma split_pop_public_url (key : string) :
  Text.last_index "/" key = None →
  Text.split_pop "/" (Supabase.storage_public_url key) = key.
Proof.
  intros Hkey. unfold Supabase.storage_public_url.
  transitivity (Text.split_pop "/"
    ((url SUPABASE_CONFIG +:+ "/storage/v1/object/public/" +:+ bucketName SUPABASE_CONFIG)
     +:+ String "/" key)); [|by apply split_pop_after].
  reflexivity.
Qed.

Section HistoryFacts.

Variable env : Env.

Lemma deleteFile_disconnected (answer : option JsError) (fileName : string) (w : World) :
  isConnected w = false →
  History.deleteFile env answer fileName w
  = (Ok false, set_toasts (toasts w ++ [(MsgNotConfigured, error)]) w).
Proof.
  intros Hc. unfold History.deleteFile.
  by rewrite run_bind, (checkConnection_disconnected w Hc).
Qed.

Lemma deleteUploadRecord_disconnected (answer : DbOutcome) (id : option positive) (w : World) :
  isConnected w = false →
  History.deleteUploadRecord env answer id w
  = (Ok false, set_toasts (toasts w ++ [(MsgNotConfigured, error)]) w).
Proof.
  intros Hc. unfold History.deleteUploadRecord.
  by rewrite run_bind, (checkConnection_disconnected w Hc).
Qed.

(** X18. With a Supabase client that failed to initialise, [deleteUpload]
    deletes nothing and yet reports success: the backend is as it was, the
    entry disappears from the view and "File deleted successfully" is shown. *)
Theorem deleteUpload_disconnected_reports_success
        (storage_answer : option JsError) (table_answer : DbOutcome)
        (upload : UploadRow) (h : History.HistoryManager) (w : World) :
  isConnected w = false →
  is_Some (file_url upload) →
  ∃ h' w', History.deleteUpload env true storage_answer table_answer upload h w = (Ok h', w')
    ∧ remote w' = remote w
    ∧ History.shown h' = filter (λ u, row_id u ≠ row_id upload) (History.shown h)
    ∧ History.notices h' = History.notices h ++ [("Deleting..."%string, info);
                                                 ("File deleted successfully"%string, success)].
Proof.
  intros Hc [u Hu]. unfold History.deleteUpload. cbn [negb].
  rewrite run_try_catch, run_bind, Hu. cbn [mret M_ret].
  rewrite run_bind, (deleteFile_disconnected _ _ w Hc).
  rewrite run_bind, deleteUploadRecord_disconnected by done.
  do 2 eexists. split; [reflexivity|]. cbn. by rewrite <-app_assoc.
Qed.

(** X19. [deleteUpload] removes the object before the row and does not put
    it back: when the storage call goes through and the database refuses the
    delete, the object is gone, the row and the entry of the view remain, and
    the failure is reported. *)
Theorem deleteUpload_row_survives_refused_delete
        (e : JsError) (upload : UploadRow) (url : string)
        (h : History.HistoryManager) (w : World) :
  isConnected w = true →
  file_url upload = Some url →
  ∃ h' w', History.deleteUpload env true None (DbError e) upload h w = (Ok h', w')
    ∧ bucket (remote w') = delete (Text.split_pop "/" url) (bucket (remote w))
    ∧ uploads (remote w') = uploads (remote w)
    ∧ History.shown h' = History.shown h
    ∧ History.notices h'
      = History.notices h
        ++ [("Deleting..."%string, info);
            ("Failed to delete file: Failed to delete record: " +:+ err_message e, error)].
Proof.
  intros Hc Hu. unfold History.deleteUpload. cbn [negb].
  rewrite run_try_catch, run_bind, Hu. cbn [mret M_ret].
  unfold History.deleteFile. rewrite !run_bind, (checkConnection_connected w Hc). cbn [negb].
  rewrite run_try_catch. unfold History.storage_remove, Supabase.update_remote.
  rewrite run_bind. unfold await_call at 1. rewrite run_bind, run_modify. cbn [mret M_ret].
  unfold History.deleteUploadRecord. rewrite !run_bind.
  rewrite checkConnection_connected by exact Hc. cbn [negb].
  rewrite run_try_catch. unfold History.table_delete. rewrite run_bind.
  unfold await_call at 1. cbn [mret M_ret throw].
  do 2 eexists. split; [reflexivity|]. cbn. by rewrite <-app_assoc.
Qed.


End HistoryFacts.

(** ** The analysis records *)

Lemma set_status_other (t : Z) (uploadId : positive) (status : string)
      (errorMessage : option string) (table : list Records.AnalysisRecord) :
  Forall (λ r, Records.upload_id r ≠ uploadId) table →
  map (Records.set_status t uploadId status errorMessage) table = table
  ∧ filter (λ r, Records.upload_id r = uploadId) table = [].
Proof.
  induction 1 as [|r table Hr _ [IH1 IH2]]; [done|]. cbn [map].
  rewrite filter_cons_False, IH1 by done. split; [|done]. f_equal.
  unfold Records.set_status. apply Pos.eqb_neq in Hr. by rewrite Hr.
Qed.

(** X21. A failure of the analysis service is written down: when the
    record can be created and updated, [triggerAnalysis] rethrows the
    service's error, and [getAnalysisResults] then finds the upload's record
    in status "failed" with the error's message. *)
Theorem triggerAnalysis_failure_is_recorded
        (service : FetchOutcome) (e : JsError) (t : Z) (uploadId : positive)
        (table : list Records.AnalysisRecord) :
  Records.call_service service = Throw e →
  err_message e ≠ "" →
  Forall (λ r, Records.upload_id r ≠ uploadId) table →
  let out := Records.triggerAnalysis DbOk service DbOk t uploadId table in
  out.1 = Throw e
  ∧ Records.getAnalysisResults DbOk uploadId out.2
    = Some (Records.mkAnalysisRecord uploadId "failed" (Some (err_message e)) (Some t)).
Proof.
  intros Hservice Hmsg Hnew. cbn zeta.
  unfold Records.triggerAnalysis, Records.createAnalysisRecord. rewrite Hservice.
  unfold Records.updateAnalysisStatus. cbn [fst snd]. split; [done|].
  unfold Records.getAnalysisResults. rewrite map_app.
  destruct (set_status_other t uploadId "failed" (Some (err_message e)) table Hnew) as [-> Hf].
  rewrite filter_app, Hf. cbn [map app]. unfold Records.set_status at 1.
  cbn [Records.upload_id]. rewrite Pos.eqb_refl.
  apply String.eqb_neq in Hmsg. rewrite Hmsg.
  by rewrite filter_cons_True.
Qed.

(** X22. When the analysis service fails and the update that should record
    the failure fails too, [triggerAnalysis] rejects with the error of the
    update, not with the service's, and the record stays "pending". *)
Theorem triggerAnalysis_update_error_masks_cause
        (service : FetchOutcome) (answer : DbOutcome) (e e' : JsError) (t : Z)
        (uploadId : positive) (table : list Records.AnalysisRecord) :
  Records.call_service service = Throw e →
  answer = DbError e' ∨ answer = DbReject e' →
  Records.triggerAnalysis DbOk service answer t uploadId table
  = (Throw e', table ++ [Records.mkAnalysisRecord uploadId "pending" None None]).
Proof.
  intros Hservice Hanswer.
  unfold Records.triggerAnalysis, Records.createAnalysisRecord. rewrite Hservice.
  by destruct Hanswer as [-> | ->].
Qed.

(** ** A photo taken in the page *)

Lemma addFiles_never_throws (cfg : AppConfig) (files : list File) :
  Facts.never_throws (Upload.addFiles cfg files).
Proof.
  unfold Upload.addFiles.
  apply never_throws_bind; [apply never_throws_gets|intros selected].
  apply never_throws_bind; [apply never_throws_modify|intros _].
  destruct (Upload.validate_all cfg selected files) as [validFiles errors].
  apply never_throws_bind;
    [destruct errors; [apply never_throws_ret|apply never_throws_showToast]|intros _].
  apply never_throws_bind; [|intros ?; apply never_throws_modify].
  destruct (_ <? _); [|apply never_throws_ret].
  apply never_throws_bind; [apply never_throws_showToast|intros _; apply never_throws_ret].
Qed.

(** X23. [usePhoto] announces the photo as queued and drops it without
    looking at what [addFiles] did: with a queue that is already full the
    queue stays as it was, the photo is gone and the success toast is shown. *)
Theorem usePhoto_announces_success_when_queue_full
        (cfg : AppConfig) (c : Photo.CameraManager) (blob : File) (w : World) :
  Photo.capturedImageBlob c = Some blob →
  size blob ≠ 0%N →
  maxFiles cfg ≤ Z.of_nat (length (selectedFiles (uploadManager w))) →
  ∃ c' w', Photo.usePhoto cfg c w = (Ok c', w')
    ∧ selectedFiles (uploadManager w') = selectedFiles (uploadManager w)
    ∧ Photo.capturedImageBlob c' = None
    ∧ Photo.notices c'
      = Photo.notices c ++ [("Photo added to upload queue"%string, success)].
Proof.
  intros Hblob Hsz Hfull. unfold Photo.usePhoto. rewrite Hblob.
  apply N.eqb_neq in Hsz. rewrite Hsz, run_gets, run_bind.
  set (file := mkFile _ _ _).
  destruct (addFiles_queue cfg [file] w) as (added & Hq & Hadded).
  assert (Hnil : added = []).
  { rewrite Hadded. cbn [Upload.validate_all].
    destruct (Upload.validateFile cfg (selectedFiles (uploadManager w)) file);
      cbn [fst length];
      [|unfold Upload.splice; rewrite take_nil;
        by match goal with |- (if ?b then _ else _) = _ => destruct b end].
    destruct (Z.ltb_spec (maxFiles cfg)
                (Z.of_nat (length (selectedFiles (uploadManager w))) + Z.of_nat 1)); [|lia].
    unfold Upload.splice. cbn [length].
    destruct (Z.ltb_spec (maxFiles cfg - Z.of_nat (length (selectedFiles (uploadManager w)))) 0);
      match goal with |- take ?n _ = _ => replace n with 0%nat by lia end; done. }
  destruct (addFiles_never_throws cfg [file] w) as [[] Hok].
  destruct (Upload.addFiles cfg [file] w) as [r w1]. cbn [fst snd] in *. subst r.
  do 2 eexists. split; [reflexivity|]. split; [|done].
  by rewrite Hq, Hnil, app_nil_r.
Qed.

(** ** The file name shown in the preview *)

Lemma text_take_length (n : nat) (s : string) :
  String.length (Text.take n s) = Nat.min n (String.length s).
Proof. revert s. induction n as [|n IH]; intros [|a s]; simpl; [done..|by rewrite IH]. Qed.

Lemma text_drop_length (n : nat) (s : string) :
  String.length (Text.drop n s) = (String.length s - n)%nat.
Proof. revert s. induction n as [|n IH]; intros [|a s]; simpl; [done..|by rewrite IH]. Qed.

Lemma text_take_take (n m : nat) (s : string) :
  (n ≤ m)%nat → Text.take n (Text.take m s) = Text.take n s.
Proof.
  revert m s. induction n as [|n IH]; intros m s Hnm; [done|].
  destruct m as [|m]; [lia|]. destruct s as [|a s]; [done|]. simpl.
  f_equal. apply IH. lia.
Qed.

Lemma text_append_length (a b : string) :
  String.length (a +:+ b) = (String.length a + String.length b)%nat.
Proof.
  induction a as [|x a IH]; [done|].
  change (S (String.length (a +:+ b)) = S (String.length a + String.length b)).
  by rewrite IH.
Qed.

Lemma last_index_lt (c : ascii) (s : string) (i : nat) :
  Text.last_index c s = Some i → (i < String.length s)%nat.
Proof.
  revert i. induction s as [|a s IH]; intros i; simpl; [done|].
  destruct (Text.last_index c s) as [j|].
  - intros [= <-]. specialize (IH j eq_refl). lia.
  - destruct (Ascii.eqb a c); [|done]. intros [= <-]. lia.
Qed.

Lemma substring_from_start (s : string) (end_ : Z) :
  Text.substring s 0 end_
  = Text.take (Z.to_nat (Z.max 0 (Z.min end_ (Z.of_nat (String.length s))))) s.
Proof.
  unfold Text.substring. cbn zeta.
  replace (Z.min (Z.max 0 (Z.min 0 (Z.of_nat (String.length s)))) _) with 0 by lia.
  replace (Z.max (Z.max 0 (Z.min 0 (Z.of_nat (String.length s)))) _)
    with (Z.max 0 (Z.min end_ (Z.of_nat (String.length s)))) by lia.
  by rewrite Z.sub_0_r.
Qed.



(** ** The cached fix *)

(** X26. A fix that [getCurrentLocation] has delivered is the one
    [getLocationForUpload] hands out for the next five minutes: on any later
    state of the page that still holds the manager as the request left it,
    at most five minutes after the fix, the upload gets that very fix and
    the device is not asked again, whatever it would have answered. *)
Theorem fix_is_reused_within_window
        (env env' : Env) (g : GeolocationManager) (loc : Location) (w w1 w2 : World) :
  geolocationManager w = Some g →
  Geolocation.getCurrentLocation env w = (Ok (Some loc), w1) →
  geolocationManager w2 = geolocationManager w1 →
  geolocation_supported w2 = true →
  now w2 - timestamp loc ≤ Geolocation.freshness_window →
  Geolocation.getLocationForUpload env' w2 = (Ok (Some loc), w2).
Proof.
  intros Hg Hrun Hsame Hs2 Hage.
  assert (Hs : geolocation_supported w = true).
  { destruct (geolocation_supported w) eqn:Hs; [done|]. revert Hrun.
    unfold Geolocation.getCurrentLocation, Geolocation.checkGeolocationSupport.
    unfold_m. cbn. rewrite Hs. cbn. discriminate. }
  pose proof (getCurrentLocation_supported env w g Hs Hg) as (_ & _ & Hans & _).
  cbn zeta in Hans. rewrite Hrun in Hans. cbn [fst snd] in Hans.
  destruct (geo_answer env (tick w)) as [lat lon acc|code msg]; [|by destruct Hans].
  destruct Hans as ([= ->] & Hg1 & _). rewrite Hg1 in Hsame.
  unfold Geolocation.getLocationForUpload, Geolocation.checkGeolocationSupport,
    Geolocation.this_currentLocation.
  unfold_m. cbn. rewrite Hs2. cbn. rewrite Hsame. cbn.
  cbn in Hage.
  destruct (Z.ltb_spec (now w + elapsed env (tick w)) (now w2 - Geolocation.freshness_window));
    [lia|].
  cbn. by rewrite Hsame.
Qed.

(** ** The further properties at concrete inputs *)

Lemma addFiles_queue_within_limit_witness :
  Z.of_nat (length (selectedFiles (uploadManager
     (Upload.addFiles APP_CONFIG Examples.eleven_files Examples.queued_world).2)))
  ≤ maxFiles APP_CONFIG.
Proof.
  apply (addFiles_queue_within_limit APP_CONFIG Examples.eleven_files Examples.queued_world).
  compute_done.
Defined.

Lemma addFiles_queue_acceptable_witness :
  Forall (Facts.acceptable APP_CONFIG)
    (selectedFiles (uploadManager
       (Upload.addFiles APP_CONFIG Examples.eleven_files Examples.queued_world).2)).
Proof.
  apply (addFiles_queue_acceptable APP_CONFIG Examples.eleven_files Examples.queued_world).
  constructor; [|constructor].
  split; [reflexivity|]. split; [compute_done|]. split; compute_done.
Defined.


Lemma uploadFile_rejects_before_storage_witness :
  ∃ reason,
    Supabase.uploadFile Examples.calm_env Examples.document "notes.pdf" Examples.fresh_world
    = (Throw (Error ("Upload failed: " +:+ reason)), Examples.fresh_world)
    ∧ (reason = "File is empty or invalid" ∨ reason = "File is not a valid image").
Proof.
  apply (uploadFile_rejects_before_storage Examples.calm_env Examples.document "notes.pdf"
           Examples.fresh_world); [reflexivity|by left].
Defined.

Lemma completeUpload_stores_object_and_row_witness :
  let r := Supabase.completeUpload Examples.calm_env Examples.photo Examples.fresh_world in
  ∃ res, r.1 = Ok (Some res)
    ∧ bucket (remote r.2) !! storage_path res = Some Examples.photo
    ∧ public_url res = Some (Supabase.storage_public_url (storage_path res))
    ∧ ∃ row, uploads (remote r.2) = uploads (remote Examples.fresh_world) ++ [row]
             ∧ row_id row = Some (next_id (remote Examples.fresh_world))
             ∧ file_name row = name Examples.photo ∧ file_size row = size Examples.photo
             ∧ file_type row = type Examples.photo ∧ file_url row = public_url res
             ∧ is_Some (row_location row) ∧ capture_type row = "manual".
Proof.
  cbn zeta.
  destruct (Supabase.completeUpload Examples.calm_env Examples.photo Examples.fresh_world)
    as [[[res|]|e] w'] eqn:Hrun; [|vm_compute in Hrun; discriminate..].
  exists res. split; [reflexivity|].
  apply (completeUpload_stores_object_and_row Examples.calm_env Examples.photo
           Examples.fresh_world w' res Hrun).
Defined.



Lemma sensor_handlers_keep_schedule_witness :
  Facts.scheduled (Sensor.stopMonitoring Sensor.initial)
  ∧ Facts.settles_with Facts.scheduled (Sensor.startMonitoring Examples.calm_env Sensor.initial)
  ∧ Facts.settles_with Facts.scheduled (Sensor.onIntervalChange 60000 Sensor.initial)
  ∧ Facts.settles_with Facts.scheduled
      (Sensor.performAutomatedCapture Examples.calm_env Samples.frame_ready Sensor.initial)
  ∧ Facts.settles_with Facts.scheduled
      (Sensor.captureNow Examples.calm_env Samples.frame_ready Sensor.initial).
Proof.
  apply (sensor_handlers_keep_schedule Examples.calm_env Samples.frame_ready Sensor.initial
           60000).
  split; split; first [discriminate|by intros [? [=]]].
Defined.

Lemma interval_change_keeps_timer_period_witness :
  let r := Sensor.startMonitoring Examples.calm_env Sensor.initial Examples.fresh_world in
  ∃ m1 m2, r.1 = Ok m1
    ∧ Sensor.onIntervalChange 60000 m1 r.2 = (Ok m2, r.2)
    ∧ Sensor.captureInterval m2 = 60000
    ∧ Sensor.nextCaptureTime m2 = Some (now r.2 + 60000)
    ∧ Sensor.intervalId m2 = Some 3600000.
Proof.
  cbn zeta.
  destruct (Sensor.startMonitoring Examples.calm_env Sensor.initial Examples.fresh_world)
    as [[m1|e] w1] eqn:Hrun; [|vm_compute in Hrun; discriminate].
  destruct (interval_change_keeps_timer_period Examples.calm_env Sensor.initial m1
              Examples.fresh_world w1 w1 60000 eq_refl Hrun) as (m2 & H2).
  - vm_compute in Hrun. by injection Hrun as <- _.
  - by exists m1, m2.
Defined.

Lemma deleteUpload_disconnected_reports_success_witness :
  let w := Samples.offline_world_with_upload in
  ∃ h' w', History.deleteUpload Examples.calm_env true None DbOk Samples.stored_row
             Samples.history w = (Ok h', w')
    ∧ remote w' = remote w
    ∧ History.shown h' = []
    ∧ History.notices h' = [("Deleting..."%string, info);
                            ("File deleted successfully"%string, success)].
Proof.
  apply (deleteUpload_disconnected_reports_success Examples.calm_env None DbOk
           Samples.stored_row Samples.history Samples.offline_world_with_upload);
    [reflexivity|by eexists].
Defined.

Lemma deleteUpload_row_survives_refused_delete_witness :
  let w := Samples.world_with_upload in
  let e := Error "permission denied for table uploads" in
  ∃ h' w', History.deleteUpload Examples.calm_env true None (DbError e) Samples.stored_row
             Samples.history w = (Ok h', w')
    ∧ bucket (remote w')
      = delete (Text.split_pop "/" (Supabase.storage_public_url Samples.stored_key))
               (bucket (remote w))
    ∧ uploads (remote w') = [Samples.stored_row]
    ∧ History.shown h' = [Samples.stored_row]
    ∧ History.notices h'
      = [("Deleting..."%string, info);
         ("Failed to delete file: Failed to delete record: " +:+ err_message e, error)].
Proof.
  apply (deleteUpload_row_survives_refused_delete Examples.calm_env
           (Error "permission denied for table uploads") Samples.stored_row
           (Supabase.storage_public_url Samples.stored_key) Samples.history
           Samples.world_with_upload); reflexivity.
Defined.


Lemma triggerAnalysis_failure_is_recorded_witness :
  let e := Error "Analysis service error: 500" in
  let out := Records.triggerAnalysis DbOk Samples.service_down DbOk 1700000000000 7 [] in
  out.1 = Throw e
  ∧ Records.getAnalysisResults DbOk 7 out.2
    = Some (Records.mkAnalysisRecord 7 "failed" (Some (err_message e)) (Some 1700000000000)).
Proof.
  apply (triggerAnalysis_failure_is_recorded Samples.service_down
           (Error "Analysis service error: 500") 1700000000000 7 []);
    [reflexivity|discriminate|constructor].
Defined.

Lemma triggerAnalysis_update_error_masks_cause_witness :
  Records.triggerAnalysis DbOk Samples.service_down (DbReject (Error "Failed to fetch"))
                          1700000000000 7 []
  = (Throw (Error "Failed to fetch"), [Records.mkAnalysisRecord 7 "pending" None None]).
Proof.
  apply (triggerAnalysis_update_error_masks_cause Samples.service_down
           (DbReject (Error "Failed to fetch")) (Error "Analysis service error: 500")
           (Error "Failed to fetch") 1700000000000 7 []); [reflexivity|by right].
Defined.

Lemma usePhoto_announces_success_when_queue_full_witness :
  let w := Samples.full_world in
  ∃ c' w', Photo.usePhoto APP_CONFIG Samples.camera_with_photo w = (Ok c', w')
    ∧ selectedFiles (uploadManager w') = selectedFiles (uploadManager w)
    ∧ Photo.capturedImageBlob c' = None
    ∧ Photo.notices c' = [("Photo added to upload queue"%string, success)].
Proof.
  apply (usePhoto_announces_success_when_queue_full APP_CONFIG Samples.camera_with_photo
           Examples.frame Samples.full_world); [reflexivity|discriminate|compute_done].
Defined.



Lemma fix_is_reused_within_window_witness :
  let r := Geolocation.getCurrentLocation Examples.calm_env Examples.fresh_world in
  ∃ loc, r.1 = Ok (Some loc)
    ∧ Geolocation.getLocationForUpload Examples.denied_env r.2 = (Ok (Some loc), r.2).
Proof.
  cbn zeta.
  destruct (Geolocation.getCurrentLocation Examples.calm_env Examples.fresh_world)
    as [[[loc|]|e] w1] eqn:Hrun; [|vm_compute in Hrun; discriminate..].
  exists loc. split; [reflexivity|].
  apply (fix_is_reused_within_window Examples.calm_env Examples.denied_env
           (mkGeo None false prompt) loc Examples.fresh_world w1 w1 eq_refl Hrun eq_refl).
  - vm_compute in Hrun. by injection Hrun as _ <-.
  - vm_compute in Hrun. injection Hrun as <- <-. compute_done.
Defined.
